(** * GraphRAG retrieval and identity-resolution engine

  A shallow embedding of the entity-resolution engine
  ([engine/entity_resolution.py]), the breadth-first traversal
  ([engine/graph_traversal.py]), the cache layer and hybrid search
  ([engine/rag_engine.py]) and the schema-validating graph adapter
  ([db/graph_db.py], [db/graph_schema.py]).

  Conventions.
  - A Python [str] is a [string]; its characters are code points below 256.
  - A Python [dict] is an association list in insertion order ([dict]).
  - Exceptions are values of [pyerr]; code that can raise returns [exc A],
    and code that mutates a store returns the store it leaves behind even
    when it raises.
  - Data model of the graph: every node carries a string [id], and
    relationships join nodes by it.
  - The definitions come first (Part I), the theorems after them (Part II). *)

From Stdlib Require Import ZArith List String Ascii Bool Lia QArith DecimalString.
From stdpp Require Import gmap strings list.
Import ListNotations.
Set Warnings "-register-all".
Local Open Scope string_scope.
Local Open Scope list_scope.
Local Open Scope Z_scope.

(** * Part I: the model *)

(** ** Python values, truthiness, dictionaries and exceptions *)

Module Py.

Inductive value : Type :=
| VNone
| VBool (b : bool)
| VInt (z : Z)
| VStr (s : string)
| VDate (t : Z)
| VList (l : list value)
| VDict (d : list (string * value)).

Definition dict : Type := list (string * value).

(** [bool(v)]: None, False, 0, the empty string and empty containers are
    falsy; a [datetime] is always truthy. *)
Definition truthy (v : value) : bool :=
  match v with
  | VNone => false
  | VBool b => b
  | VInt z => negb (z =? 0)
  | VStr s => match s with EmptyString => false | _ => true end
  | VDate _ => true
  | VList l => match l with [] => false | _ => true end
  | VDict d => match d with [] => false | _ => true end
  end.

(** [a == b] on values. *)
Fixpoint value_eqb (a b : value) {struct a} : bool :=
  match a, b with
  | VNone, VNone => true
  | VBool x, VBool y => Bool.eqb x y
  | VInt x, VInt y => x =? y
  | VStr x, VStr y => String.eqb x y
  | VDate x, VDate y => x =? y
  | VList x, VList y =>
      (fix go (x y : list value) {struct x} : bool :=
         match x, y with
         | [], [] => true
         | u :: x', v :: y' => value_eqb u v && go x' y'
         | _, _ => false
         end) x y
  | VDict x, VDict y =>
      (fix go (x y : list (string * value)) {struct x} : bool :=
         match x, y with
         | [], [] => true
         | (k, u) :: x', (k', v) :: y' =>
             String.eqb k k' && value_eqb u v && go x' y'
         | _, _ => false
         end) x y
  | _, _ => false
  end.

(** [d.get(key)] *)
Fixpoint dict_get (d : dict) (k : string) : option value :=
  match d with
  | [] => None
  | (k', v) :: d' => if String.eqb k' k then Some v else dict_get d' k
  end.

(** [key in d] *)
Definition dict_mem (d : dict) (k : string) : bool :=
  match dict_get d k with Some _ => true | None => false end.

(** [d[key] = v]: an existing key keeps its position, a new key goes last. *)
Fixpoint dict_set (d : dict) (k : string) (v : value) : dict :=
  match d with
  | [] => [(k, v)]
  | (k', v') :: d' =>
      if String.eqb k' k then (k', v) :: d' else (k', v') :: dict_set d' k v
  end.

Fixpoint dict_remove (d : dict) (k : string) : dict :=
  match d with
  | [] => []
  | (k', v') :: d' =>
      if String.eqb k' k then dict_remove d' k else (k', v') :: dict_remove d' k
  end.

(** [{**d, **e}] *)
Definition dict_update (d e : dict) : dict :=
  fold_left (fun acc kv => dict_set acc (fst kv) (snd kv)) e d.

Inductive pyerr : Type :=
| TypeError
| KeyError
| ValueError
| IndexError
| AttributeError
| NameError
| StoreError.

Definition exc (A : Type) : Type := (pyerr + A)%type.

Definition ret {A} (a : A) : exc A := inr a.
Definition raise {A} (e : pyerr) : exc A := inl e.
Definition bind {A B} (m : exc A) (k : A -> exc B) : exc B :=
  match m with
  | inl e => inl e
  | inr a => k a
  end.

(** [d[key]] raises [KeyError] on a missing key. *)
Definition dict_item (d : dict) (k : string) : exc value :=
  match dict_get d k with
  | Some v => ret v
  | None => raise KeyError
  end.

(** [s in l] for a list of strings. *)
Definition str_in (s : string) (l : list string) : bool :=
  existsb (String.eqb s) l.

(** [s.endswith(suffix)] *)
Definition endswith (s suffix : string) : bool :=
  let n := String.length s in
  let m := String.length suffix in
  (m <=? n)%nat && String.eqb (substring (n - m) m s) suffix.

(** [s.startswith(p)] *)
Definition startswith (s p : string) : bool := String.prefix p s.

(** [a > b]: numbers (a bool counts as 0 or 1), strings and datetimes are
    ordered among themselves; any other pair of operands raises
    [TypeError] (Python also orders lists; the engine never compares them). *)
Definition as_number (v : value) : option Z :=
  match v with
  | VInt z => Some z
  | VBool b => Some (if b then 1 else 0)
  | _ => None
  end.

Definition py_gt (a b : value) : exc bool :=
  match as_number a, as_number b with
  | Some x, Some y => ret (y <? x)
  | _, _ =>
      match a, b with
      | VStr x, VStr y => ret (String.ltb y x)
      | VDate x, VDate y => ret (y <? x)
      | _, _ => raise TypeError
      end
  end.

(** [max(a, b)]: the first of the largest. *)
Definition py_max (a b : value) : exc value :=
  bind (py_gt b a) (fun g => ret (if g then b else a)).

(** [a + " " + b] on strings; [TypeError] otherwise. *)
Definition str_add (a b : value) : exc value :=
  match a, b with
  | VStr x, VStr y => ret (VStr (String.append x y))
  | _, _ => raise TypeError
  end.

End Py.

Notation "x <- m ;; k" := (Py.bind m (fun x => k))
  (at level 100, m at next level, right associativity).

(** ** String normalisers of the resolution engine
    ([EntityResolutionEngine._normalize_phone], [_normalize_url]) *)

Module Normalize.

(** [str.isdigit] on the code points below 256: the ASCII digits and the
    superscript digits U+00B2, U+00B3 and U+00B9. *)
Definition isdigit (c : ascii) : bool :=
  let n := nat_of_ascii c in
  ((48 <=? n) && (n <=? 57))%nat
  || Nat.eqb n 178 || Nat.eqb n 179 || Nat.eqb n 185.

(** [''.join(c for c in s if keep(c))] *)
Fixpoint join_if (keep : ascii -> bool) (s : string) : string :=
  match s with
  | EmptyString => EmptyString
  | String c s' =>
      if keep c then String c (join_if keep s') else join_if keep s'
  end.

(** [all(keep(c) for c in s)] *)
Fixpoint all_chars (keep : ascii -> bool) (s : string) : bool :=
  match s with
  | EmptyString => true
  | String c s' => keep c && all_chars keep s'
  end.

(** [return ''.join(c for c in phone if c.isdigit())] *)
Definition _normalize_phone (phone : string) : string :=
  join_if isdigit phone.

(** [str.lower] on the code points below 256: A-Z and the accented
    capitals U+00C0..U+00DE (U+00D7 excepted) move up by 32. *)
Definition lower_char (c : ascii) : ascii :=
  let n := nat_of_ascii c in
  if ((65 <=? n) && (n <=? 90))%nat
     || ((192 <=? n) && (n <=? 222) && negb (Nat.eqb n 215))%nat
  then ascii_of_nat (n + 32) else c.

Fixpoint lower (s : string) : string :=
  match s with
  | EmptyString => EmptyString
  | String c s' => String (lower_char c) (lower s')
  end.

(** [url[len(prefix):]] when [url.startswith(prefix)], else [url]. *)
Definition strip_prefix (prefix url : string) : string :=
  if Py.startswith url prefix
  then substring (String.length prefix)
         (String.length url - String.length prefix) url
  else url.

(** [s.rstrip("/")] *)
Fixpoint rstrip_slash (s : string) : string :=
  match s with
  | EmptyString => EmptyString
  | String c s' =>
      match rstrip_slash s' with
      | EmptyString =>
          if Ascii.eqb c "/"%char then EmptyString else String c EmptyString
      | t => String c t
      end
  end.

(** [url = url.lower()], then the three prefixes in turn, then [rstrip]. *)
Definition _normalize_url (url : string) : string :=
  let url := lower url in
  let url := fold_left (fun u p => strip_prefix p u)
               ["https://"; "http://"; "www."] url in
  rstrip_slash url.

End Normalize.

(** ** The schema tables ([db/graph_schema.py]) *)

Module Schema.

(** [NODE_TYPES]: node label to its declared properties (name, type). *)
Definition NODE_TYPES : list (string * list (string * string)) :=
  [ ("User",
      [("id", "string"); ("name", "string"); ("email", "string");
       ("created_at", "datetime"); ("profile", "json");
       ("first_name", "string"); ("last_name", "string");
       ("resume_summary", "string")]);
    ("Person",
      [("id", "string"); ("name", "string"); ("email", "string");
       ("phone", "string"); ("title", "string");
       ("organization_id", "string"); ("first_contact_date", "datetime");
       ("last_contact_date", "datetime"); ("source", "string");
       ("embedding_id", "string"); ("created_at", "datetime")]);
    ("Organization",
      [("id", "string"); ("name", "string"); ("type", "string");
       ("website", "string"); ("description", "string");
       ("location", "string"); ("embedding_id", "string");
       ("created_at", "datetime")]);
    ("Skill",
      [("id", "string"); ("name", "string"); ("category", "string");
       ("created_at", "datetime")]);
    ("Certification",
      [("id", "string"); ("name", "string"); ("issuer", "string");
       ("issue_date", "datetime"); ("expiry_date", "datetime");
       ("created_at", "datetime")]);
    ("Language",
      [("id", "string"); ("name", "string"); ("proficiency", "string");
       ("created_at", "datetime")]);
    ("Message",
      [("id", "string"); ("content", "string"); ("sender_id", "string");
       ("channel_id", "string"); ("thread_id", "string");
       ("timestamp", "datetime"); ("read_status", "string");
       ("has_attachments", "boolean"); ("sentiment", "float");
       ("intent", "string"); ("is_actionable", "boolean");
       ("reply_to_id", "string"); ("embedding_id", "string");
       ("created_at", "datetime")]);
    ("Event",
      [("id", "string"); ("title", "string"); ("description", "string");
       ("start_time", "datetime"); ("end_time", "datetime");
       ("location", "string"); ("embedding_id", "string");
       ("created_at", "datetime")]);
    ("Location",
      [("id", "string"); ("name", "string"); ("address", "string");
       ("coordinates", "list[float]"); ("type", "string");
       ("embedding_id", "string")]);
    ("Task",
      [("id", "string"); ("title", "string"); ("status", "string");
       ("created_date", "datetime"); ("source_type", "string");
       ("description", "string"); ("priority", "string");
       ("due_date", "datetime"); ("completion_date", "datetime");
       ("horizon", "string"); ("recurrence", "string");
       ("estimated_time", "float"); ("tags", "list[string]");
       ("confidence_score", "float"); ("assignee_id", "string");
       ("creator_id", "string"); ("is_actionable", "boolean");
       ("reminder_date", "datetime"); ("embedding_id", "string");
       ("created_at", "datetime")]);
    ("Channel",
      [("id", "string"); ("name", "string"); ("type", "string");
       ("provider", "string"); ("is_connected", "boolean");
       ("connection_status", "string"); ("last_synced", "datetime");
       ("credentials_id", "string"); ("settings", "json");
       ("embedding_id", "string"); ("created_at", "datetime")]);
    ("Thread",
      [("id", "string"); ("title", "string"); ("status", "string");
       ("created_date", "datetime"); ("last_updated", "datetime");
       ("channel_id", "string"); ("external_id", "string");
       ("participants_count", "int"); ("message_count", "int");
       ("embedding_id", "string"); ("created_at", "datetime")]) ].

Record rel_schema : Type := mkRelSchema {
  valid_sources : list string;
  valid_targets : list string;
  properties : list string
}.

(** [RELATIONSHIP_TYPES] *)
Definition RELATIONSHIP_TYPES : list (string * rel_schema) :=
  [ ("USER_KNOWS", mkRelSchema ["User"] ["Person"]
       ["relationship_strength"; "first_contact_date"; "last_contact_date";
        "communication_frequency"; "channels"; "context_tags"]);
    ("USER_CONNECTED_TO", mkRelSchema ["User"] ["Organization"]
       ["connection_type"; "start_date"; "active"; "context_tags"]);
    ("USER_COMMUNICATES_VIA", mkRelSchema ["User"] ["Channel"]
       ["frequency"; "last_used"; "primary"; "usage_pattern"]);
    ("USER_PARTICIPATES_IN", mkRelSchema ["User"] ["Event"]
       ["role"; "status"; "importance"; "recurrence"]);
    ("USER_VISITS", mkRelSchema ["User"] ["Location"]
       ["visit_frequency"; "last_visit"; "context_tags"; "typical_duration"]);
    ("USER_MANAGES", mkRelSchema ["User"] ["Task"]
       ["assignment_date"; "reminder_set"; "priority_override"]);
    ("CONNECTED_TO", mkRelSchema ["Person"] ["Person"]
       ["relationship_context"; "inferred_closeness";
        "communication_frequency"]);
    ("AFFILIATED_WITH", mkRelSchema ["Person"] ["Organization"]
       ["affiliation_type"; "inferred_role"; "context_tags"]);
    ("PARTICIPATES_IN", mkRelSchema ["Person"] ["Event"]
       ["role"; "status"; "invited_by"]);
    ("LOCATED_AT", mkRelSchema ["Person"; "Organization"; "Event"]
       ["Location"] ["relationship_type"; "frequency"; "context_tags"]);
    ("AUTHORED", mkRelSchema ["Person"; "User"] ["Message"]
       ["timestamp"; "channel_id"; "message_type"; "context_tags"]);
    ("RECEIVED", mkRelSchema ["Person"; "User"] ["Message"]
       ["timestamp"; "read_status"; "delivery_status"]);
    ("MENTIONED_IN",
       mkRelSchema ["Person"; "Organization"; "Location"; "Event"]
       ["Message"] ["mention_context"; "sentiment"; "significance"]);
    ("RELATED_TO", mkRelSchema ["Task"]
       ["Event"; "Message"; "Organization"; "Location"]
       ["relationship_type"; "relevance_score"]);
    ("SAME_AS", mkRelSchema ["Person"; "Organization"]
       ["Person"; "Organization"]
       ["match_confidence"; "evidence_sources"; "channels"]);
    ("EXTRACTED_FROM", mkRelSchema ["Task"] ["Message"; "Event"]
       ["extraction_method"; "confidence_score"; "extracted_text"]);
    ("ASSIGNED_TO", mkRelSchema ["Task"] ["Person"]
       ["assignment_date"; "status"; "assigned_by"]);
    ("DEPENDS_ON", mkRelSchema ["Task"] ["Task"]
       ["dependency_type"; "blocking"]);
    ("MODIFIED_BY", mkRelSchema ["Task"] ["User"]
       ["modification_date"; "modification_type"; "previous_state"]);
    ("HAS_SUBTASK", mkRelSchema ["Task"] ["Task"]
       ["creation_date"; "completion_dependency"]);
    ("HAS_SKILL", mkRelSchema ["User"] ["Skill"]
       ["proficiency"; "years_experience"; "last_used"]);
    ("HAS_CERTIFICATION", mkRelSchema ["User"] ["Certification"]
       ["issue_date"; "expiry_date"; "verification_url"]);
    ("SPEAKS", mkRelSchema ["User"] ["Language"]
       ["proficiency"; "is_native"]);
    ("WORKED_AT", mkRelSchema ["User"] ["Organization"]
       ["title"; "start_date"; "end_date"; "location"; "skills_used"]);
    ("LEARNT_AT", mkRelSchema ["User"] ["Organization"]
       ["degree"; "start_date"; "end_date"; "location"; "description"]) ].

(** [TABLE[key]] for a key that is known to be in the table. *)
Fixpoint assoc {A} (tbl : list (string * A)) (k : string) : option A :=
  match tbl with
  | [] => None
  | (k', a) :: t => if String.eqb k' k then Some a else assoc t k
  end.

End Schema.

(** ** The graph store adapter ([db/graph_db.py], class [Neo4jWrapper])

    The adapter builds a Cypher statement and hands it to the driver
    ([session.run]). The store is seen through the statements issued to
    it: a method either raises before [session.run] is reached, and the
    log is unchanged, or appends the statement it runs. *)

Module Neo4jWrapper.

Import Py.

(** One [session.run(query, **params)]. *)
Inductive call : Type :=
| RunCreateNode (label : string) (properties : dict)
| RunMergeNode (label : string) (id : value) (properties : dict)
| RunCreateRelationship (from_label to_label rel_type : string)
    (from_id to_id : value) (rel_props : dict)
| RunMergeRelationship (from_label to_label rel_type : string)
    (from_id to_id : value) (rel_props : dict)
| RunUpdateNode (label : string) (match_keys update_keys : list string)
    (params : dict).

Definition store : Type := list call.

Definition run (st : store) (c : call) : store * exc unit :=
  (st ++ [c], ret tt).

Definition keys (d : dict) : list string := map fst d.

(** The check that opens [create_node] and [merge_node]:
    [if label not in NODE_TYPES: raise ValueError(...)] and
    [for prop in properties: if prop not in NODE_TYPES[label]: raise ...] *)
Definition check_node (label : string) (properties : dict) : exc unit :=
  match Schema.assoc Schema.NODE_TYPES label with
  | None => raise ValueError
  | Some allowed =>
      if forallb (fun prop => str_in prop (map fst allowed)) (keys properties)
      then ret tt else raise ValueError
  end.

(** The check that opens [create_relationship] and [merge_relationship];
    [props] is [rel_props or {}]. *)
Definition check_relationship (from_label to_label rel_type : string)
    (props : dict) : exc unit :=
  match Schema.assoc Schema.RELATIONSHIP_TYPES rel_type with
  | None => raise ValueError
  | Some sch =>
      if negb (str_in from_label (Schema.valid_sources sch))
         || negb (str_in to_label (Schema.valid_targets sch))
      then raise ValueError
      else if forallb (fun prop => str_in prop (Schema.properties sch))
                (keys props)
      then ret tt else raise ValueError
  end.

(** [rel_props or {}] for [rel_props: dict = None] *)
Definition or_empty (rel_props : option dict) : dict :=
  match rel_props with
  | Some d => d
  | None => []
  end.

Definition create_node (st : store) (label : string) (properties : dict)
  : store * exc unit :=
  match check_node label properties with
  | inl e => (st, inl e)
  | inr _ => run st (RunCreateNode label properties)
  end.

(** [session.run(query, id=properties['id'], properties=properties)]:
    a missing [id] raises [KeyError] while the arguments are built. *)
Definition merge_node (st : store) (label : string) (properties : dict)
  : store * exc unit :=
  match check_node label properties with
  | inl e => (st, inl e)
  | inr _ =>
      match dict_item properties "id" with
      | inl e => (st, inl e)
      | inr id => run st (RunMergeNode label id properties)
      end
  end.

Definition create_relationship (st : store)
    (from_label to_label rel_type : string) (from_props to_props : dict)
    (rel_props : option dict) : store * exc unit :=
  match check_relationship from_label to_label rel_type (or_empty rel_props) with
  | inl e => (st, inl e)
  | inr _ =>
      match dict_item from_props "id", dict_item to_props "id" with
      | inl e, _ => (st, inl e)
      | _, inl e => (st, inl e)
      | inr a, inr b =>
          run st (RunCreateRelationship from_label to_label rel_type a b
                    (or_empty rel_props))
      end
  end.

Definition merge_relationship (st : store)
    (from_label to_label rel_type : string) (from_props to_props : dict)
    (rel_props : option dict) : store * exc unit :=
  match check_relationship from_label to_label rel_type (or_empty rel_props) with
  | inl e => (st, inl e)
  | inr _ =>
      match dict_item from_props "id", dict_item to_props "id" with
      | inl e, _ => (st, inl e)
      | _, inl e => (st, inl e)
      | inr a, inr b =>
          run st (RunMergeRelationship from_label to_label rel_type a b
                    (or_empty rel_props))
      end
  end.

(** [update_node] goes straight to the session:
    [params = {**match_props, **{f"update_{k}": v for k, v in update_props.items()}}]
    and [session.run(query, **params)]. *)
Definition update_node (st : store) (label : string)
    (match_props update_props : dict) : store * exc unit :=
  let params :=
    dict_update match_props
      (map (fun kv => (String.append "update_" (fst kv), snd kv)) update_props) in
  run st (RunUpdateNode label (keys match_props) (keys update_props) params).

End Neo4jWrapper.

(** ** The labelled property graph as the engine's Cypher queries see it

    A node is a label set and a property map with a string [id];
    [dict(node)] is [node_items]. A relationship is typed and directed and
    joins its end nodes by their ids. Rows come back in store order. *)

Module Graph.

Import Py.

Record node : Type := mkNode {
  n_id : string;
  n_labels : list string;
  n_props : dict
}.

Record rel : Type := mkRel {
  r_type : string;
  r_src : string;
  r_dst : string;
  r_props : dict
}.

Record graph : Type := mkGraph {
  g_nodes : list node;
  g_rels : list rel
}.

(** [dict(node).items()] *)
Definition node_items (n : node) : dict := ("id", VStr (n_id n)) :: n_props n.

(** [bool(r)] for a driver relationship (a [Mapping]: [len(r) > 0]). *)
Definition rel_truthy (r : rel) : bool :=
  match r_props r with [] => false | _ => true end.

(** [bool(n)] for a driver node: it always holds its [id]. *)
Definition node_truthy (n : node) : bool :=
  match node_items n with [] => false | _ => true end.

Definition has_label (l : string) (n : node) : bool := str_in l (n_labels n).

(** [e.prop] in a Cypher expression; [e.a.b] reads key [b] of a map. *)
Definition node_prop (n : node) (prop : string) : option value :=
  match index 0 "." prop with
  | None => dict_get (node_items n) prop
  | Some i =>
      let a := substring 0 i prop in
      let b := substring (S i) (String.length prop - S i) prop in
      match dict_get (node_items n) a with
      | Some (VDict d) => dict_get d b
      | _ => None
      end
  end.

(** [e.prop = $value]: a null on either side never matches. *)
Definition prop_is (n : node) (prop : string) (v : value) : bool :=
  match v, node_prop n prop with
  | VNone, _ => false
  | _, Some w => value_eqb w v
  | _, None => false
  end.

(** The node an end of a relationship refers to. *)
Definition find_node (g : graph) (id : string) : option node :=
  List.find (fun n => String.eqb (n_id n) id) (g_nodes g).

(** [MATCH (e:label) WHERE e.id = $id RETURN e] *)
Definition match_by_id (g : graph) (label : string) (id : value)
  : list node :=
  List.filter (fun n => has_label label n && prop_is n "id" id) (g_nodes g).

(** [MATCH (e) WHERE e.id = $id RETURN e] (no label in the pattern) *)
Definition match_any_by_id (g : graph) (id : value) : list node :=
  List.filter (fun n => prop_is n "id" id) (g_nodes g).

(** [SET e.k = v] on one node; a null removes the property, and the [id]
    is replaced only by a string. *)
Definition set_prop (n : node) (k : string) (v : value) : node :=
  if String.eqb k "id" then
    match v with
    | VStr s => mkNode s (n_labels n) (n_props n)
    | _ => n
    end
  else
    match v with
    | VNone => mkNode (n_id n) (n_labels n) (dict_remove (n_props n) k)
    | _ => mkNode (n_id n) (n_labels n) (dict_set (n_props n) k v)
    end.

(** [SET e += $properties] *)
Definition set_props (n : node) (properties : dict) : node :=
  fold_left (fun acc kv => set_prop acc (fst kv) (snd kv)) properties n.

(** [MATCH (e:label) WHERE e.id = $id SET e += $properties] *)
Definition update_by_id (g : graph) (label : string) (id : value)
    (properties : dict) : graph :=
  mkGraph
    (map (fun n => if has_label label n && prop_is n "id" id
                   then set_props n properties else n) (g_nodes g))
    (g_rels g).

(** Relationships with their position in the store (their identity). *)
Definition indexed_rels (g : graph) : list (nat * rel) :=
  combine (seq 0 (length (g_rels g))) (g_rels g).

End Graph.

(** ** Breadth-first traversal ([engine/graph_traversal.py]) *)

Module GraphTraversal.

Import Py Graph.

(** A row of [RETURN m, r]; [rec_ix] is the identity of [r]. *)
Record record : Type := mkRecord {
  rec_ix : nat;
  rec_m : node;
  rec_r : rel
}.

(** [_build_relationship_filter]: [":A|B"] for a non-empty list, else no
    filter. The filter keeps the relationships of one of the types. *)
Definition _build_relationship_filter (relationship_types : option (list string))
  : option (list string) :=
  match relationship_types with
  | Some (t :: ts) => Some (t :: ts)
  | _ => None
  end.

(** [_build_node_filter]: [":A:B"] for a non-empty list, else no filter.
    The filter keeps the nodes that carry all of the labels. *)
Definition _build_node_filter (node_types : option (list string))
  : option (list string) :=
  match node_types with
  | Some (t :: ts) => Some (t :: ts)
  | _ => None
  end.

Definition rel_ok (rel_filter : option (list string)) (r : rel) : bool :=
  match rel_filter with
  | None => true
  | Some ts => str_in (r_type r) ts
  end.

Definition node_ok (node_filter : option (list string)) (m : node) : bool :=
  match node_filter with
  | None => true
  | Some ls => forallb (fun l => has_label l m) ls
  end.

(** [MATCH (n)-[r{rf}]->(m{nf}) WHERE n.id = $node_id RETURN m, r] *)
Definition expand_out (g : graph) (node_id : string)
    (rf nf : option (list string)) : list record :=
  flat_map (fun ir =>
    let r := snd ir in
    if String.eqb (r_src r) node_id && rel_ok rf r then
      match find_node g (r_src r), find_node g (r_dst r) with
      | Some _, Some m => if node_ok nf m then [mkRecord (fst ir) m r] else []
      | _, _ => []
      end
    else []) (indexed_rels g).

(** [MATCH (m{nf})-[r{rf}]->(n) WHERE n.id = $node_id RETURN m, r] *)
Definition expand_in (g : graph) (node_id : string)
    (rf nf : option (list string)) : list record :=
  flat_map (fun ir =>
    let r := snd ir in
    if String.eqb (r_dst r) node_id && rel_ok rf r then
      match find_node g (r_dst r), find_node g (r_src r) with
      | Some _, Some m => if node_ok nf m then [mkRecord (fst ir) m r] else []
      | _, _ => []
      end
    else []) (indexed_rels g).

(** [_expand_from_node]: the two branches joined by [UNION]. The trailing
    [LIMIT $limit] belongs to the [RETURN] of the second branch; [UNION]
    then drops a row that is already there (the same relationship reached
    from both ends, a self-loop). A negative limit is refused by the store.
    [limit] is [self.max_nodes_per_hop]. *)
Definition _expand_from_node (g : graph) (node_id : string) (limit : Z)
    (rf nf : option (list string)) : exc (list record) :=
  if limit <? 0 then raise StoreError
  else
    let outs := expand_out g node_id rf nf in
    let ins := take (Z.to_nat limit) (expand_in g node_id rf nf) in
    ret (outs ++
         List.filter (fun x =>
           negb (existsb (fun y => Nat.eqb (rec_ix y) (rec_ix x)) outs)) ins).

(** The result [{"nodes": nodes, "relationships": relationships}]. *)
Record result : Type := mkResult {
  nodes : list node;
  relationships : list rel
}.

(** The loop variables of [traverse_from_seeds]. *)
Record state : Type := mkState {
  queue : list (string * Z);
  visited : gset string;
  out_nodes : list node;
  out_rels : list rel
}.

(** The [for record in results] loop with its [break]; [visited] does not
    change while it runs. *)
Fixpoint process_records (max_nodes_per_hop hop : Z) (seen : gset string)
    (records : list record) (q : list (string * Z)) (ns : list node)
    (rs : list rel) : list (string * Z) * list node * list rel :=
  match records with
  | [] => (q, ns, rs)
  | rec :: rest =>
      let m := rec_m rec in
      let r := rec_r rec in
      let new := node_truthy m && negb (bool_decide (n_id m ∈ seen)) in
      let ns1 := if new then ns ++ [m] else ns in
      let q1 := if new then q ++ [(n_id m, hop + 1)] else q in
      let rs1 := if rel_truthy r then rs ++ [r] else rs in
      if Z.of_nat (length ns1) >=? max_nodes_per_hop then (q1, ns1, rs1)
      else process_records max_nodes_per_hop hop seen rest q1 ns1 rs1
  end.

(** The [while queue] loop; [fuel] bounds the number of iterations, and
    [None] means the bound was too small. *)
Fixpoint traverse_loop (g : graph) (max_hops max_nodes_per_hop : Z)
    (rf nf : option (list string)) (fuel : nat) (st : state)
  : option (exc result) :=
  match fuel with
  | O => None
  | S fuel' =>
      match queue st with
      | [] => Some (ret (mkResult (out_nodes st) (out_rels st)))
      | (current_id, hop) :: q =>
          if (hop >? max_hops) || bool_decide (current_id ∈ visited st)
          then traverse_loop g max_hops max_nodes_per_hop rf nf fuel'
                 (mkState q (visited st) (out_nodes st) (out_rels st))
          else
            let seen := {[current_id]} ∪ visited st in
            match _expand_from_node g current_id max_nodes_per_hop rf nf with
            | inl e => Some (inl e)
            | inr results =>
                let '(q1, ns1, rs1) :=
                  process_records max_nodes_per_hop hop seen results q
                    (out_nodes st) (out_rels st) in
                if Z.of_nat (length ns1) >=? max_nodes_per_hop
                then Some (ret (mkResult ns1 rs1))
                else traverse_loop g max_hops max_nodes_per_hop rf nf fuel'
                       (mkState q1 seen ns1 rs1)
            end
      end
  end.

(** [queue = [(node_id, 0) for node_id in seed_node_ids]] *)
Definition initial_state (seed_node_ids : list string) : state :=
  mkState (map (fun s => (s, 0)) seed_node_ids) ∅ [] [].

(** Iterations the loop can need: one per queue entry, and every
    relationship is enqueued at most once from each of its ends. *)
Definition fuel_for (g : graph) (seed_node_ids : list string) : nat :=
  S (length seed_node_ids + 2 * length (g_rels g))%nat.

Definition traverse_from_seeds (g : graph) (seed_node_ids : list string)
    (max_hops max_nodes_per_hop : Z)
    (relationship_types node_types : option (list string))
  : option (exc result) :=
  traverse_loop g max_hops max_nodes_per_hop
    (_build_relationship_filter relationship_types)
    (_build_node_filter node_types)
    (fuel_for g seed_node_ids) (initial_state seed_node_ids).

(** What callers get: the loop always ends within [fuel_for] iterations
    (see [traverse_loop_fuel] in Part II), so the last arm is not taken. *)
Definition traverse_result (g : graph) (seed_node_ids : list string)
    (max_hops max_nodes_per_hop : Z)
    (relationship_types node_types : option (list string)) : exc result :=
  match traverse_from_seeds g seed_node_ids max_hops max_nodes_per_hop
          relationship_types node_types with
  | Some r => r
  | None => raise StoreError
  end.

(** [find_related_tasks] pastes each status into the text of the
    statement between single quotes, [f"'{s}'"], while [entity_id] is a
    parameter of the query. A single-quoted literal holds every character
    as written except the quote (code 39), which ends it, and the
    backslash (code 92), which starts an escape. *)
Definition plain_char (c : ascii) : bool :=
  let n := nat_of_ascii c in
  negb (Nat.eqb n 39) && negb (Nat.eqb n 92).

Definition plain (s : string) : bool :=
  forallb plain_char (list_ascii_of_string s).

(** [", ".join([f"'{s}'" for s in status_filter])] *)
Fixpoint status_list (status_filter : list string) : string :=
  match status_filter with
  | [] => ""
  | [s] => String.append "'" (String.append s "'")
  | s :: rest =>
      String.append "'"
        (String.append s (String.append "', " (status_list rest)))
  end.

(** [f"AND task.status IN [{status_list}]"] *)
Definition status_clause (status_filter : list string) : string :=
  String.append "AND task.status IN ["
    (String.append (status_list status_filter) "]").

(** [task.status IN ['s1', 's2']] for statuses that their literals hold as
    written; no clause when [status_filter] is [None] or empty. *)
Definition status_ok (status_filter : option (list string)) (task : node)
  : bool :=
  match status_filter with
  | Some (s :: ss) =>
      match node_prop task "status" with
      | Some (VStr v) => str_in v (s :: ss)
      | _ => false
      end
  | _ => true
  end.

(** [UNION] of rows of one node column: the first of each node stays. *)
Fixpoint distinct_nodes (seen : list string) (l : list node) : list node :=
  match l with
  | [] => []
  | n :: l' =>
      if str_in (n_id n) seen then distinct_nodes seen l'
      else n :: distinct_nodes (n_id n :: seen) l'
  end.

(** The rows of
    [MATCH (entity)-[:RELATED_TO]-(task:Task) ... RETURN task UNION
     MATCH (entity)<-[:MENTIONED_IN]-(msg:Message)<-[:EXTRACTED_FROM]-(task:Task) ...]
    when the status clause is the membership test [status_ok]. *)
Definition related_tasks (g : graph) (entity_id : string)
    (status_filter : option (list string)) : list node :=
  let keep (t : option node) : list node :=
    match t with
    | Some task =>
        if has_label "Task" task && status_ok status_filter task
        then [task] else []
    | None => []
    end in
  let direct :=
    flat_map (fun r =>
      if String.eqb (r_type r) "RELATED_TO" then
        if String.eqb (r_src r) entity_id then keep (find_node g (r_dst r))
        else if String.eqb (r_dst r) entity_id then keep (find_node g (r_src r))
        else []
      else []) (g_rels g) in
  let via_message :=
    flat_map (fun r1 =>
      if String.eqb (r_type r1) "MENTIONED_IN"
         && String.eqb (r_dst r1) entity_id then
        match find_node g (r_src r1) with
        | Some msg =>
            if has_label "Message" msg then
              flat_map (fun r2 =>
                if String.eqb (r_type r2) "EXTRACTED_FROM"
                   && String.eqb (r_dst r2) (n_id msg)
                then keep (find_node g (r_src r2)) else []) (g_rels g)
            else []
        | None => []
        end
      else []) (g_rels g) in
  distinct_nodes [] (direct ++ via_message).

Section Statement.

(** What the store makes of the statement when a status holds a quote or
    a backslash: a literal then ends early or holds an escape, and the
    text is another statement, which the store may refuse or run with
    another condition. It is a parameter, given the graph, the status
    clause as pasted and the [entity_id]. *)
Variable run_pasted : graph -> string -> string -> exc (list node).

Definition find_related_tasks (g : graph) (entity_id : string)
    (status_filter : option (list string)) : exc (list node) :=
  match status_filter with
  | Some (s :: ss) =>
      if forallb plain (s :: ss)
      then ret (related_tasks g entity_id status_filter)
      else run_pasted g (status_clause (s :: ss)) entity_id
  | _ => ret (related_tasks g entity_id status_filter)
  end.

End Statement.

End GraphTraversal.

(** ** The in-process cache ([engine/rag_engine.py], class [LRUCache])

    [self.cache] is an [OrderedDict] from key to [(value, expire)]: an
    association list whose head is the entry [popitem(last=False)] takes.
    [time.time()] is the argument [now]; the lock is not modelled (every
    method runs under it from start to end). *)

Module LRUCache.

Import Py.

Section WithValue.

Variable V : Type.

Record t : Type := mk {
  cache : list (string * (V * Z));
  max_size : Z;
  ttl : Z
}.

(** [LRUCache(max_size, ttl)] *)
Definition init (max_size ttl : Z) : t := mk [] max_size ttl.

Fixpoint lookup (l : list (string * (V * Z))) (key : string)
  : option (V * Z) :=
  match l with
  | [] => None
  | (k, e) :: l' => if String.eqb k key then Some e else lookup l' key
  end.

(** [self.cache.pop(key)] for a key that is present *)
Fixpoint remove (l : list (string * (V * Z))) (key : string)
  : list (string * (V * Z)) :=
  match l with
  | [] => []
  | (k, e) :: l' =>
      if String.eqb k key then remove l' key else (k, e) :: remove l' key
  end.

Definition with_cache (c : t) (l : list (string * (V * Z))) : t :=
  mk l (max_size c) (ttl c).

(** [get]: the entry is popped; it goes back, at the end, only when
    [expire > time.time()]. *)
Definition get (now : Z) (key : string) (c : t) : t * option V :=
  match lookup (cache c) key with
  | Some (value, expire) =>
      if expire >? now
      then (with_cache c (remove (cache c) key ++ [(key, (value, expire))]),
            Some value)
      else (with_cache c (remove (cache c) key), None)
  | None => (c, None)
  end.

(** [set]: a present key is popped; otherwise a full cache loses its first
    entry ([popitem(last=False)], [KeyError] on an empty dict); then the
    entry is written at the end. *)
Definition set (now : Z) (key : string) (value : V) (c : t) : t * exc unit :=
  let expire := now + ttl c in
  match lookup (cache c) key with
  | Some _ =>
      (with_cache c (remove (cache c) key ++ [(key, (value, expire))]), ret tt)
  | None =>
      if Z.of_nat (length (cache c)) >=? max_size c then
        match cache c with
        | [] => (c, raise KeyError)
        | _ :: rest => (with_cache c (rest ++ [(key, (value, expire))]), ret tt)
        end
      else (with_cache c (cache c ++ [(key, (value, expire))]), ret tt)
  end.

Definition delete (key : string) (c : t) : t :=
  match lookup (cache c) key with
  | Some _ => with_cache c (remove (cache c) key)
  | None => c
  end.

Definition clear (c : t) : t := with_cache c [].

(** The keys in the order of the [OrderedDict]. *)
Definition keys (c : t) : list string := map fst (cache c).

End WithValue.

Arguments mk {V}.
Arguments cache {V}.
Arguments max_size {V}.
Arguments ttl {V}.
Arguments init {V}.
Arguments lookup {V}.
Arguments remove {V}.
Arguments with_cache {V}.
Arguments get {V}.
Arguments set {V}.
Arguments delete {V}.
Arguments clear {V}.
Arguments keys {V}.

End LRUCache.

(** ** The distributed tier ([data_services/redis_cache.py], [RedisCache])

    The server is a map from key to the pickled value and its deadline.
    The connection is taken to be up: no call fails. *)

Module RedisCache.

Import Py.

Section WithValue.

Variable V : Type.

Definition t : Type := gmap string (V * option Z).

(** [get]: [None] for a missing key or one whose time is over. *)
Definition get (now : Z) (key : string) (c : t) : option V :=
  match c !! key with
  | Some (v, Some deadline) => if now <? deadline then Some v else None
  | Some (v, None) => Some v
  | None => None
  end.

(** [set]: [setex] when [ttl] is truthy, a plain [set] otherwise. *)
Definition set (now : Z) (key : string) (value : V) (ttl : option Z) (c : t)
  : t :=
  match ttl with
  | Some n => if n =? 0 then <[key := (value, None)]> c
              else <[key := (value, Some (now + n))]> c
  | None => <[key := (value, None)]> c
  end.

Definition delete (key : string) (c : t) : t := base.delete key c.

(** [flush]: [flushdb] *)
Definition flush (c : t) : t := ∅.

End WithValue.

Arguments get {V}.
Arguments set {V}.
Arguments delete {V}.
Arguments flush {V}.

End RedisCache.

(** ** Cache layer and hybrid search ([engine/rag_engine.py])

    The module-level functions share the module's globals [node_cache]
    and [embedding_cache]. The third cache they name, [redis_cache], is
    not bound: the module imports the class [RedisCache] and its line
    [redis_cache = RedisCache()] is commented out, so every
    [redis_cache.get], [set], [delete] and [flush] raises [NameError] when
    the name is looked up. The functions receive [graph_db] as an
    argument and call it as [get_node], [update_node],
    [create_relationship] and [execute_query]; those are the section's
    parameters, as are the cold storage, the embedding model, the vector
    store and Python's [str] and [hash]. A top-level call reads the clock
    as [now]. *)

Module RagEngine.

Import Py.

(** The statements handed to [graph_db.execute_query]. *)
Inductive query : Type :=
| QTouch
| QArchive (message : bool).

(** Calls to the collaborators of [GraphRAGEngine], in order. *)
Inductive event : Type :=
| EvGenerateEmbedding (text : string)
| EvSearchVectors (collection : string) (limit : Z)
| EvTraverse (seed_node_ids : list string) (max_hops : Z)
| EvFindRelatedTasks (entity_id : string).

(** A vector hit [{"id": r.id, "score": r.score, "payload": r.payload}]. *)
Record hit : Type := mkHit {
  hit_id : string;
  hit_score : Q;
  hit_payload : dict
}.

(** [{"results": ..., "context": ..., "task_context": ...}] *)
Record hybrid_result : Type := mkHybrid {
  results : list hit;
  context : GraphTraversal.result;
  task_context : list (string * list Graph.node)
}.

(** The fields of [GraphRAGEngine] that the searches read. *)
Record engine : Type := mkEngine {
  collection_name : string;
  similarity_threshold : Q;
  max_results : Z
}.

Section Engine.

Variable Obj : Type.
Variable obj_truthy : Obj -> bool.
Variable of_result : hybrid_result -> Obj.

Variable Gdb : Type.
Variable gdb_get_node : Gdb -> string -> string -> exc (list Obj).
Variable gdb_update_node : Gdb -> string -> dict -> Gdb * exc Obj.
Variable gdb_create_relationship :
  Gdb -> string -> string -> string -> dict -> Gdb * exc Obj.
Variable gdb_execute_query : Gdb -> query -> dict -> Gdb * exc unit.
Variable store_in_cold_storage : Obj -> exc string.

Variable Vec : Type.
Variable generate_embedding : string -> exc Vec.
Variable search_vectors : string -> Vec -> Z -> exc (list hit).
Variable py_str : value -> string.
Variable py_hash : string -> Z.
(** The store's reading of [find_related_tasks] with a status that ends
    or escapes its literal (see [GraphTraversal.find_related_tasks]). *)
Variable run_pasted : Graph.graph -> string -> string -> exc (list Graph.node).

Record world : Type := mkWorld {
  node_cache : LRUCache.t Obj;
  embedding_cache : LRUCache.t Vec;
  graph_db : Gdb;
  events : list event
}.

(** State and exceptions: a raise keeps the state reached so far. *)
Definition M (A : Type) : Type := world -> world * exc A.

Definition retM {A} (a : A) : M A := fun w => (w, ret a).

Definition bindM {A B} (m : M A) (k : A -> M B) : M B :=
  fun w => match m w with
           | (w', inl e) => (w', inl e)
           | (w', inr a) => k a w'
           end.

Definition liftM {A} (r : exc A) : M A := fun w => (w, r).

Notation "x <~ m ;; k" := (bindM m (fun x => k))
  (at level 100, m at next level, right associativity).

Definition with_node_cache (w : world) (c : LRUCache.t Obj) : world :=
  mkWorld c (embedding_cache w) (graph_db w) (events w).

Definition with_embedding_cache (w : world) (c : LRUCache.t Vec) : world :=
  mkWorld (node_cache w) c (graph_db w) (events w).

Definition with_graph_db (w : world) (d : Gdb) : world :=
  mkWorld (node_cache w) (embedding_cache w) d (events w).

(** Records a call to a collaborator. *)
Definition emit (e : event) : M unit :=
  fun w => (mkWorld (node_cache w) (embedding_cache w) (graph_db w)
              (events w ++ [e]), ret tt).

Definition node_cache_get (now : Z) (key : string) : M (option Obj) :=
  fun w => let '(c, v) := LRUCache.get now key (node_cache w) in
           (with_node_cache w c, ret v).

Definition node_cache_set (now : Z) (key : string) (v : Obj) : M unit :=
  fun w => let '(c, r) := LRUCache.set now key v (node_cache w) in
           (with_node_cache w c, r).

Definition node_cache_delete (key : string) : M unit :=
  fun w => (with_node_cache w (LRUCache.delete key (node_cache w)), ret tt).

Definition embedding_cache_get (now : Z) (key : string) : M (option Vec) :=
  fun w => let '(c, v) := LRUCache.get now key (embedding_cache w) in
           (with_embedding_cache w c, ret v).

Definition embedding_cache_set (now : Z) (key : string) (v : Vec) : M unit :=
  fun w => let '(c, r) := LRUCache.set now key v (embedding_cache w) in
           (with_embedding_cache w c, r).

(** [redis_cache.get(key)], [redis_cache.set(key, value, ttl=ttl)],
    [redis_cache.delete(key)] and [redis_cache.flush()]: the name is
    looked up first, before any argument is evaluated, and is not bound. *)
Definition redis_get (key : string) : M (option Obj) :=
  liftM (raise NameError).

Definition redis_set (key : string) (v : Obj) (ttl : option Z) : M unit :=
  liftM (raise NameError).

Definition redis_delete (key : string) : M unit :=
  liftM (raise NameError).

Definition redis_flush : M unit :=
  liftM (raise NameError).

Definition db_get_node (label id : string) : M (list Obj) :=
  fun w => (w, gdb_get_node (graph_db w) label id).

Definition db_update_node (node_id : string) (properties : dict) : M Obj :=
  fun w => let '(d, r) := gdb_update_node (graph_db w) node_id properties in
           (with_graph_db w d, r).

Definition db_create_relationship (source_id target_id rel_type : string)
    (properties : dict) : M Obj :=
  fun w => let '(d, r) := gdb_create_relationship (graph_db w) source_id
                            target_id rel_type properties in
           (with_graph_db w d, r).

Definition db_execute_query (q : query) (params : dict) : M unit :=
  fun w => let '(d, r) := gdb_execute_query (graph_db w) q params in
           (with_graph_db w d, r).

(** [f"{node_type}:{node_id}"] *)
Definition cache_key (node_type node_id : string) : string :=
  String.append node_type (String.append ":" node_id).

Definition update_node_access_timestamp (node_id : string) : M unit :=
  db_execute_query QTouch [("node_id", VStr node_id)].

Definition get_node_with_cache (now : Z) (node_id node_type : string)
  : M (option Obj) :=
  let key := cache_key node_type node_id in
  cached_node <~ node_cache_get now key ;;
  match cached_node with
  | Some v => _ <~ update_node_access_timestamp node_id ;; retM (Some v)
  | None =>
      cached_node <~ redis_get key ;;
      match cached_node with
      | Some v =>
          _ <~ node_cache_set now key v ;;
          _ <~ update_node_access_timestamp node_id ;;
          retM (Some v)
      | None =>
          node_data_list <~ db_get_node node_type node_id ;;
          match node_data_list with
          | node_data :: _ =>
              _ <~ node_cache_set now key node_data ;;
              _ <~ redis_set key node_data (Some (4 * 3600)) ;;
              _ <~ update_node_access_timestamp node_id ;;
              retM (Some node_data)
          | [] => retM None
          end
      end
  end.

Definition get_embedding_with_cache (now : Z) (text : string) : M Vec :=
  let text_hash := py_str (VInt (py_hash text)) in
  cached_embedding <~ embedding_cache_get now text_hash ;;
  match cached_embedding with
  | Some v => retM v
  | None =>
      _ <~ emit (EvGenerateEmbedding text) ;;
      embedding <~ liftM (generate_embedding text) ;;
      _ <~ embedding_cache_set now text_hash embedding ;;
      retM embedding
  end.

Definition get_operation_cache (key : string) : M (option Obj) :=
  redis_get key.

Definition set_operation_cache (key : string) (v : Obj) (ttl : option Z)
  : M unit :=
  redis_set key v ttl.

Definition invalidate_node_cache (node_id node_type : string) : M unit :=
  let key := cache_key node_type node_id in
  _ <~ node_cache_delete key ;;
  redis_delete key.

Definition invalidate_related_query_cache (node_id : string) : M unit :=
  redis_flush.

(** [properties.get('relationships')] as a condition *)
Definition has_relationships (properties : dict) : bool :=
  match dict_get properties "relationships" with
  | Some v => truthy v
  | None => false
  end.

Definition update_node_with_cache (node_id node_type : string)
    (properties : dict) : M Obj :=
  result <~ db_update_node node_id properties ;;
  _ <~ invalidate_node_cache node_id node_type ;;
  _ <~ (if has_relationships properties
        then invalidate_related_query_cache node_id else retM tt) ;;
  retM result.

Definition create_relationship_with_cache
    (source_id source_type target_id target_type rel_type : string)
    (properties : dict) : M Obj :=
  result <~ db_create_relationship source_id target_id rel_type properties ;;
  _ <~ invalidate_node_cache source_id source_type ;;
  _ <~ invalidate_node_cache target_id target_type ;;
  _ <~ invalidate_related_query_cache source_id ;;
  _ <~ invalidate_related_query_cache target_id ;;
  retM result.

(** The body of [for node_id in node_batch] in [archive_nodes]; the result
    says whether the node was written. [if not node_data: continue] skips
    [None] and a falsy object. *)
Definition archive_node (now : Z) (node_id entity_type : string) : M bool :=
  node_data <~ get_node_with_cache now node_id entity_type ;;
  match node_data with
  | Some v =>
      if obj_truthy v then
        archive_reference <~ liftM (store_in_cold_storage v) ;;
        _ <~ db_execute_query
               (QArchive (String.eqb entity_type "Message"))
               [("node_id", VStr node_id);
                ("archive_reference", VStr archive_reference)] ;;
        _ <~ invalidate_node_cache node_id entity_type ;;
        retM true
      else retM false
  | None => retM false
  end.

Fixpoint archive_nodes (now : Z) (node_batch : list string)
    (entity_type : string) : M unit :=
  match node_batch with
  | [] => retM tt
  | node_id :: rest =>
      _ <~ archive_node now node_id entity_type ;;
      archive_nodes now rest entity_type
  end.

(** [GraphRAGEngine.semantic_search]; [filters] is not used. *)
Definition semantic_search (self : engine) (now : Z) (query_text : string)
    (filters : value) : M (list hit) :=
  query_embedding <~ get_embedding_with_cache now query_text ;;
  _ <~ emit (EvSearchVectors (collection_name self) (max_results self)) ;;
  vector_results <~ liftM (search_vectors (collection_name self)
                             query_embedding (max_results self)) ;;
  retM (List.filter
          (fun r => Qle_bool (similarity_threshold self) (hit_score r))
          vector_results).

(** [f"hybrid_search:{query_text}:{filters}:{max_hops}"] *)
Definition op_key (query_text : string) (filters : value) (max_hops : Z)
  : string :=
  String.append "hybrid_search:"
    (String.append query_text
       (String.append ":"
          (String.append (py_str filters)
             (String.append ":" (py_str (VInt max_hops)))))).

(** [task_context[key] = tasks] *)
Fixpoint assoc_set (d : list (string * list Graph.node)) (key : string)
    (tasks : list Graph.node) : list (string * list Graph.node) :=
  match d with
  | [] => [(key, tasks)]
  | (k, v) :: d' =>
      if String.eqb k key then (k, tasks) :: d'
      else (k, v) :: assoc_set d' key tasks
  end.

(** The [for node in graph_context["nodes"]] loop of [hybrid_search]. *)
Fixpoint collect_tasks (g : Graph.graph) (ns : list Graph.node)
    (task_context : list (string * list Graph.node))
  : M (list (string * list Graph.node)) :=
  match ns with
  | [] => retM task_context
  | node :: rest =>
      _ <~ emit (EvFindRelatedTasks (Graph.n_id node)) ;;
      tasks <~ liftM (GraphTraversal.find_related_tasks run_pasted g
                        (Graph.n_id node)
                        (Some ["pending"; "in_progress"])) ;;
      match tasks with
      | [] => collect_tasks g rest task_context
      | _ => collect_tasks g rest
               (assoc_set task_context (Graph.n_id node) tasks)
      end
  end.

(** [GraphRAGEngine.hybrid_search]; [g] is the graph behind
    [self.graph_db], read by [self.graph_traversal]. *)
Definition hybrid_search (self : engine) (g : Graph.graph) (now : Z)
    (query_text : string) (filters : value) (max_hops : Z) : M Obj :=
  let key := op_key query_text filters max_hops in
  cached_result <~ get_operation_cache key ;;
  match cached_result with
  | Some v => retM v
  | None =>
      vector_results <~ semantic_search self now query_text filters ;;
      let seed_node_ids := map hit_id vector_results in
      match seed_node_ids with
      | [] =>
          let result :=
            of_result (mkHybrid [] (GraphTraversal.mkResult [] []) []) in
          _ <~ set_operation_cache key result (Some 600) ;;
          retM result
      | _ =>
          _ <~ emit (EvTraverse seed_node_ids max_hops) ;;
          graph_context <~ liftM (GraphTraversal.traverse_result g
                                    seed_node_ids max_hops 25 None None) ;;
          task_context <~ collect_tasks g
                            (GraphTraversal.nodes graph_context) [] ;;
          let combined_results :=
            of_result (mkHybrid vector_results graph_context task_context) in
          _ <~ set_operation_cache key combined_results (Some 600) ;;
          retM combined_results
      end
  end.

End Engine.

Arguments mkWorld {Obj Gdb Vec}.
Arguments node_cache {Obj Gdb Vec}.
Arguments embedding_cache {Obj Gdb Vec}.
Arguments graph_db {Obj Gdb Vec}.
Arguments events {Obj Gdb Vec}.
Arguments retM {Obj Gdb Vec A}.
Arguments bindM {Obj Gdb Vec A B}.
Arguments liftM {Obj Gdb Vec A}.
Arguments emit {Obj Gdb Vec}.
Arguments with_node_cache {Obj Gdb Vec}.
Arguments with_embedding_cache {Obj Gdb Vec}.
Arguments with_graph_db {Obj Gdb Vec}.
Arguments node_cache_get {Obj Gdb Vec}.
Arguments node_cache_set {Obj Gdb Vec}.
Arguments node_cache_delete {Obj Gdb Vec}.
Arguments embedding_cache_get {Obj Gdb Vec}.
Arguments embedding_cache_set {Obj Gdb Vec}.
Arguments redis_get {Obj Gdb Vec}.
Arguments redis_set {Obj Gdb Vec}.
Arguments redis_delete {Obj Gdb Vec}.
Arguments redis_flush {Obj Gdb Vec}.
Arguments db_get_node {Obj Gdb} gdb_get_node {Vec}.
Arguments db_update_node {Obj Gdb} gdb_update_node {Vec}.
Arguments db_create_relationship {Obj Gdb} gdb_create_relationship {Vec}.
Arguments db_execute_query {Obj Gdb} gdb_execute_query {Vec}.
Arguments update_node_access_timestamp {Obj Gdb} gdb_execute_query {Vec}.
Arguments get_node_with_cache {Obj Gdb} gdb_get_node gdb_execute_query {Vec}.
Arguments invalidate_node_cache {Obj Gdb Vec}.
Arguments invalidate_related_query_cache {Obj Gdb Vec}.
Arguments update_node_with_cache {Obj Gdb} gdb_update_node {Vec}.
Arguments create_relationship_with_cache {Obj Gdb} gdb_create_relationship {Vec}.
Arguments archive_node {Obj} obj_truthy {Gdb} gdb_get_node gdb_execute_query
  store_in_cold_storage {Vec}.
Arguments archive_nodes {Obj} obj_truthy {Gdb} gdb_get_node gdb_execute_query
  store_in_cold_storage {Vec}.
Arguments get_embedding_with_cache {Obj Gdb Vec}.
Arguments semantic_search {Obj Gdb Vec}.
Arguments hybrid_search {Obj} of_result {Gdb Vec}.
Arguments collect_tasks {Obj Gdb Vec}.
Arguments get_operation_cache {Obj Gdb Vec}.
Arguments set_operation_cache {Obj Gdb Vec}.

End RagEngine.

(** ** Entity resolution ([engine/entity_resolution.py])

    The engine reads and writes the graph through [graph_db.run_query];
    each Cypher statement it sends is a function on [Graph.graph]. The
    fuzzy matcher ([thefuzz.process.extractBests]), the embedding service,
    the vector store and [datetime.fromisoformat] are parameters. *)

Module EntityResolution.

Import Py Graph.

(** A row of [vector_db.search]: [result["score"]], [result["payload"]]. *)
Record vhit : Type := mkVhit {
  score : Q;
  payload : dict
}.

(** [self.similarity_threshold], [self.fuzzy_match_threshold] *)
Record engine : Type := mkEngine {
  similarity_threshold : Q;
  fuzzy_match_threshold : Z
}.

Inductive strategy : Type :=
| newer_wins
| source_wins
| target_wins
| other_strategy.

Section Engine.

Variable extractBests : value -> list value -> Z -> nat -> exc (list (value * Z)).
Variable Vec : Type.
Variable get_embedding : value -> exc Vec.
Variable Vdb : Type.
Variable vdb_search : Vdb -> string -> Vec -> Z -> exc (list vhit).
Variable vdb_upsert : Vdb -> string -> string -> Vec -> dict -> Vdb * exc unit.
Variable fromisoformat : string -> option Z.

Variable self : engine.

(** [_normalize_phone(phone: str)] and [_normalize_url(url: str)] on a
    value of the record: a value that is not a [str] has no [lower], and
    is taken not to be iterable into characters either. *)
Definition normalize_phone_value (v : value) : exc value :=
  match v with
  | VStr s => ret (VStr (Normalize._normalize_phone s))
  | _ => raise TypeError
  end.

Definition normalize_url_value (v : value) : exc value :=
  match v with
  | VStr s => ret (VStr (Normalize._normalize_url s))
  | _ => raise AttributeError
  end.

(** [for k, v in x.items()] *)
Definition items_of (v : value) : exc dict :=
  match v with
  | VDict d => ret d
  | _ => raise AttributeError
  end.

(** The list [identifiers] that [_match_by_identifiers] builds. *)
Definition identifiers_of (entity_data : dict) (entity_type : string)
  : exc (list (string * value)) :=
  if String.eqb entity_type "Person" then
    let l1 := match dict_get entity_data "email" with
              | Some v => [("email", v)]
              | None => []
              end in
    l2 <- match dict_get entity_data "phone" with
          | Some v => p <- normalize_phone_value v ;; ret [("phone", p)]
          | None => ret []
          end ;;
    l3 <- match dict_get entity_data "social_handles" with
          | Some v =>
              d <- items_of v ;;
              ret (map (fun kv =>
                          (String.append "social_handles." (fst kv), snd kv)) d)
          | None => ret []
          end ;;
    ret (l1 ++ l2 ++ l3)
  else if String.eqb entity_type "Organization" then
    l1 <- match dict_get entity_data "website" with
          | Some v => u <- normalize_url_value v ;; ret [("website", u)]
          | None => ret []
          end ;;
    let l2 := match dict_get entity_data "domain" with
              | Some v => [("domain", v)]
              | None => []
              end in
    let l3 := match dict_get entity_data "tax_id" with
              | Some v => [("tax_id", v)]
              | None => []
              end in
    ret (l1 ++ l2 ++ l3)
  else if String.eqb entity_type "Location" then
    let l1 := match dict_get entity_data "coordinates" with
              | Some v => [("coordinates", v)]
              | None => []
              end in
    let l2 := match dict_get entity_data "address",
                    dict_get entity_data "postal_code" with
              | Some a, Some p => [("address", a); ("postal_code", p)]
              | _, _ => []
              end in
    ret (l1 ++ l2)
  else ret [].

(** [MATCH (e:T) WHERE e.prop = $value RETURN e LIMIT 1] *)
Definition query_by_property (g : graph) (entity_type prop : string)
    (v : value) : list node :=
  take 1 (List.filter (fun n => has_label entity_type n && prop_is n prop v)
            (g_nodes g)).

(** The [for property_name, value in identifiers] loop. *)
Fixpoint first_identified (g : graph) (entity_type : string)
    (identifiers : list (string * value)) : option node :=
  match identifiers with
  | [] => None
  | (property_name, v) :: rest =>
      if negb (truthy v) then first_identified g entity_type rest
      else match query_by_property g entity_type property_name v with
           | e :: _ => Some e
           | [] => first_identified g entity_type rest
           end
  end.

Definition _match_by_identifiers (g : graph) (entity_data : dict)
    (entity_type : string) : exc (option node) :=
  identifiers <- identifiers_of entity_data entity_type ;;
  ret (first_identified g entity_type identifiers).

(** ["name" if "name" in entity_data else "text"] *)
Definition name_field_of (entity_data : dict) : string :=
  if dict_mem entity_data "name" then "name" else "text".

(** [MATCH (e:T) RETURN e.id AS id, e.f AS name LIMIT 100] *)
Definition query_names (g : graph) (entity_type name_field : string)
  : list (value * option value) :=
  map (fun n => (VStr (n_id n), node_prop n name_field))
    (take 100 (List.filter (has_label entity_type) (g_nodes g))).

(** [[(c["id"], c["name"]) for c in candidates if c["name"]]] *)
Definition named (candidates : list (value * option value))
  : list (value * value) :=
  flat_map (fun c => match snd c with
                     | Some nm => if truthy nm then [(fst c, nm)] else []
                     | None => []
                     end) candidates.

(** [for c_id, c_name in candidate_names: if c_name == best: ... break] *)
Definition id_of_name (candidate_names : list (value * value)) (best : value)
  : option value :=
  option_map fst (List.find (fun c => value_eqb (snd c) best) candidate_names).

Definition _match_by_fuzzy_name (g : graph) (entity_data : dict)
    (entity_type : string) : exc (option node) :=
  let name_field := name_field_of entity_data in
  match dict_get entity_data name_field with
  | None => ret None
  | Some entity_name =>
      let candidates := query_names g entity_type name_field in
      match candidates with
      | [] => ret None
      | _ =>
          let candidate_names := named candidates in
          match candidate_names with
          | [] => ret None
          | _ =>
              matches <- extractBests entity_name (map snd candidate_names)
                           (fuzzy_match_threshold self) 3 ;;
              match matches with
              | [] => ret None
              | (best_match_name, _) :: _ =>
                  match id_of_name candidate_names best_match_name with
                  | None => ret None
                  | Some best_match_id =>
                      match match_by_id g entity_type best_match_id with
                      | e :: _ => ret (Some e)
                      | [] => ret None
                      end
                  end
              end
          end
      end
  end.

(** The [for result in search_results] loop of [_match_by_embedding]. *)
Fixpoint first_similar (g : graph) (entity_type : string)
    (search_results : list vhit) : exc (option node) :=
  match search_results with
  | [] => ret None
  | result :: rest =>
      if Qle_bool (similarity_threshold self) (score result) then
        entity_id <- dict_item (payload result) "id" ;;
        match match_by_id g entity_type entity_id with
        | e :: _ => ret (Some e)
        | [] => first_similar g entity_type rest
        end
      else first_similar g entity_type rest
  end.

(** [text += " " + description] *)
Definition with_description (text : value) (d : dict) : exc value :=
  match dict_get d "description" with
  | Some desc => t <- str_add (VStr " ") desc ;; str_add text t
  | None => ret text
  end.

Definition _match_by_embedding (g : graph) (vdb : Vdb) (entity_data : dict)
    (entity_type : string) : exc (option node) :=
  let name_field := name_field_of entity_data in
  match dict_get entity_data name_field with
  | None => ret None
  | Some entity_text =>
      entity_text <- with_description entity_text entity_data ;;
      entity_embedding <- get_embedding entity_text ;;
      search_results <- vdb_search vdb entity_type entity_embedding 5 ;;
      first_similar g entity_type search_results
  end.

(** [for x in v]: the elements of a list, the keys of a dict, the
    characters of a string. *)
Definition iter_value (v : value) : exc (list value) :=
  match v with
  | VList l => ret l
  | VDict d => ret (map (fun kv => VStr (fst kv)) d)
  | VStr s =>
      ret (map (fun c => VStr (String c EmptyString)) (list_ascii_of_string s))
  | _ => raise TypeError
  end.

(** [if "target_id" in rel: related_entities.append(rel["target_id"])] for
    one element [rel]: a dict gives its entry; a string or a list that
    holds ["target_id"] cannot be indexed by it. *)
Definition target_of (rel : value) : exc (list value) :=
  match rel with
  | VDict d => match dict_get d "target_id" with
               | Some t => ret [t]
               | None => ret []
               end
  | VStr s => match index 0 "target_id" s with
              | Some _ => raise TypeError
              | None => ret []
              end
  | VList l => if existsb (value_eqb (VStr "target_id")) l
               then raise TypeError else ret []
  | _ => raise TypeError
  end.

Fixpoint targets_of (rels : list value) : exc (list value) :=
  match rels with
  | [] => ret []
  | rel :: rest =>
      t <- target_of rel ;;
      ts <- targets_of rest ;;
      ret (t ++ ts)
  end.

Definition id_in (id : string) (related_ids : list value) : bool :=
  existsb (value_eqb (VStr id)) related_ids.

(** [count(other)] for one [e] in
    [MATCH (e:T)-[]-(other) WHERE other.id IN $related_ids]: one row per
    relationship at [e] whose other end is listed. *)
Definition shared_count (g : graph) (related_ids : list value) (e : node)
  : nat :=
  length (List.filter (fun r =>
    if String.eqb (r_src r) (n_id e) then
      match find_node g (r_dst r) with
      | Some other => id_in (n_id other) related_ids
      | None => false
      end
    else if String.eqb (r_dst r) (n_id e) then
      match find_node g (r_src r) with
      | Some other => id_in (n_id other) related_ids
      | None => false
      end
    else false) (g_rels g)).

(** [ORDER BY shared_count DESC LIMIT 1] over the rows that passed
    [WHERE shared_count >= 2]: the first row with the largest count. *)
Fixpoint best_shared (rows : list (node * nat)) (best : option (node * nat))
  : option (node * nat) :=
  match rows with
  | [] => best
  | (e, c) :: rest =>
      match best with
      | Some (_, c0) =>
          if (c0 <? c)%nat then best_shared rest (Some (e, c))
          else best_shared rest best
      | None => best_shared rest (Some (e, c))
      end
  end.

Definition query_shared (g : graph) (entity_type : string)
    (related_ids : list value) : option node :=
  let rows :=
    flat_map (fun e =>
      if has_label entity_type e then
        let c := shared_count g related_ids e in
        if (2 <=? c)%nat then [(e, c)] else []
      else []) (g_nodes g) in
  option_map fst (best_shared rows None).

Definition _match_by_relationships (g : graph) (entity_data : dict)
    (entity_type : string) : exc (option node) :=
  match dict_get entity_data "relationships" with
  | None => ret None
  | Some rels =>
      if negb (truthy rels) then ret None
      else
        elems <- iter_value rels ;;
        related_entities <- targets_of elems ;;
        match related_entities with
        | [] => ret None
        | _ => ret (query_shared g entity_type related_entities)
        end
  end.

(** [if x: return x] for a node that a strategy returned *)
Definition hit (m : option node) : option node :=
  match m with
  | Some e => if node_truthy e then Some e else None
  | None => None
  end.

Definition resolve_entity (g : graph) (vdb : Vdb) (entity_data : dict)
    (entity_type : string) : exc (option node) :=
  exact_match <- _match_by_identifiers g entity_data entity_type ;;
  match hit exact_match with
  | Some e => ret (Some e)
  | None =>
      fuzzy_match <- _match_by_fuzzy_name g entity_data entity_type ;;
      match hit fuzzy_match with
      | Some e => ret (Some e)
      | None =>
          semantic_match <- _match_by_embedding g vdb entity_data entity_type ;;
          match hit semantic_match with
          | Some e => ret (Some e)
          | None =>
              relationship_match <-
                _match_by_relationships g entity_data entity_type ;;
              match hit relationship_match with
              | Some e => ret (Some e)
              | None => ret None
              end
          end
      end
  end.

(** [isinstance(d, str)] then [datetime.fromisoformat(d)] *)
Definition to_date (d : value) : exc value :=
  match d with
  | VStr s => match fromisoformat s with
              | Some t => ret (VDate t)
              | None => raise ValueError
              end
  | _ => ret d
  end.

Definition reserved (key : string) : bool := str_in key ["id"; "labels"].

(** One turn of [for key, value in source_entity.items()]. *)
Definition merge_key (source_entity : dict) (merge_strategy : strategy)
    (merged : dict) (key : string) (v : value) : exc dict :=
  if reserved key then ret merged
  else
    match dict_get merged key with
    | None => ret (dict_set merged key v)
    | Some current =>
        match merge_strategy with
        | newer_wins =>
            if endswith key "_at" || String.eqb key "timestamp" then
              let source_date :=
                match dict_get source_entity key with
                | Some d => d
                | None => VNone
                end in
              let target_date := current in
              if truthy source_date && truthy target_date then
                source_date <- to_date source_date ;;
                target_date <- to_date target_date ;;
                newer <- py_gt source_date target_date ;;
                ret (dict_set merged key
                       (if newer then source_date else target_date))
              else ret merged
            else if String.eqb key "confidence" then
              m <- py_max v current ;;
              ret (dict_set merged key m)
            else if negb (truthy current) && truthy v
            then ret (dict_set merged key v)
            else ret merged
        | source_wins => ret (dict_set merged key v)
        | target_wins => ret merged
        | other_strategy => ret merged
        end
    end.

Fixpoint merge_keys (source_entity : dict) (merge_strategy : strategy)
    (merged : dict) (items : dict) : exc dict :=
  match items with
  | [] => ret merged
  | (key, v) :: rest =>
      merged <- merge_key source_entity merge_strategy merged key v ;;
      merge_keys source_entity merge_strategy merged rest
  end.

(** [(target_entity.get("merged_count", 0) or 0) + 1] *)
Definition next_merged_count (target_entity : dict) : exc value :=
  let c := match dict_get target_entity "merged_count" with
           | Some v => v
           | None => VInt 0
           end in
  let c := if truthy c then c else VInt 0 in
  match as_number c with
  | Some z => ret (VInt (z + 1))
  | None => raise TypeError
  end.

Definition _merge_properties (source_entity target_entity : dict)
    (merge_strategy : strategy) : exc dict :=
  let merged :=
    fold_left (fun m kv =>
                 if reserved (fst kv) then m else dict_set m (fst kv) (snd kv))
      target_entity [] in
  merged <- merge_keys source_entity merge_strategy merged source_entity ;;
  c <- next_merged_count target_entity ;;
  ret (dict_set merged "merged_count" c).

(** [{k: v for k, v in rel["rel"].items()
      if k not in ["id", "source", "target", "type"]}] *)
Definition carried_props (r : rel) : dict :=
  List.filter (fun kv => negb (str_in (fst kv) ["id"; "source"; "target"; "type"]))
    (r_props r).

Definition labelled (g : graph) (label id : string) : bool :=
  match find_node g id with
  | Some n => has_label label n
  | None => false
  end.

Definition present (g : graph) (id : string) : bool :=
  match find_node g id with
  | Some _ => true
  | None => false
  end.

(** [MATCH (source:T)-[r]->(target) WHERE source.id = $source_id
     RETURN type(r) AS rel_type, r AS rel, target] *)
Definition outgoing_rels (g : graph) (entity_type source_id : string)
  : list (rel * node) :=
  flat_map (fun r =>
    if String.eqb (r_src r) source_id && labelled g entity_type (r_src r) then
      match find_node g (r_dst r) with
      | Some target => [(r, target)]
      | None => []
      end
    else []) (g_rels g).

(** [MATCH (source)-[r]->(target:T) WHERE target.id = $source_id
     RETURN type(r) AS rel_type, r AS rel, source] *)
Definition incoming_rels (g : graph) (entity_type source_id : string)
  : list (rel * node) :=
  flat_map (fun r =>
    if String.eqb (r_dst r) source_id && labelled g entity_type (r_dst r) then
      match find_node g (r_src r) with
      | Some source => [(r, source)]
      | None => []
      end
    else []) (g_rels g).

(** [MATCH (source:T)-[r:rel_type]->(target)
     WHERE source.id = $source_id AND target.id = $target_id
     RETURN count(r) AS rel_count] *)
Definition count_outgoing (g : graph) (entity_type rel_type a b : string)
  : nat :=
  length (List.filter (fun r =>
    String.eqb (r_type r) rel_type && String.eqb (r_src r) a
    && String.eqb (r_dst r) b && labelled g entity_type a && present g b)
    (g_rels g)).

(** The same with the label on the target: [(source)-[r:rel_type]->(target:T)] *)
Definition count_incoming (g : graph) (entity_type rel_type a b : string)
  : nat :=
  length (List.filter (fun r =>
    String.eqb (r_type r) rel_type && String.eqb (r_src r) a
    && String.eqb (r_dst r) b && present g a && labelled g entity_type b)
    (g_rels g)).

(** [MATCH (source:T), (target) WHERE source.id = $source_id AND
     target.id = $target_id CREATE (source)-[r:rel_type $props]->(target)]:
    one relationship for every pair of matched nodes. *)
Definition create_outgoing (g : graph) (entity_type rel_type a b : string)
    (props : dict) : graph :=
  let pairs := (length (match_by_id g entity_type (VStr a))
                * length (match_any_by_id g (VStr b)))%nat in
  mkGraph (g_nodes g) (g_rels g ++ repeat (mkRel rel_type a b props) pairs).

(** [MATCH (source), (target:T) WHERE ... CREATE ...] *)
Definition create_incoming (g : graph) (entity_type rel_type a b : string)
    (props : dict) : graph :=
  let pairs := (length (match_any_by_id g (VStr a))
                * length (match_by_id g entity_type (VStr b)))%nat in
  mkGraph (g_nodes g) (g_rels g ++ repeat (mkRel rel_type a b props) pairs).

(** One turn of [for rel in outgoing_rels]. *)
Definition transfer_outgoing (entity_type target_id : string) (g : graph)
    (row : rel * node) : graph :=
  let rel_type := r_type (fst row) in
  let target_node := snd row in
  let rel_exists :=
    (0 <? count_outgoing g entity_type rel_type target_id (n_id target_node))%nat in
  if negb rel_exists
  then create_outgoing g entity_type rel_type target_id (n_id target_node)
         (carried_props (fst row))
  else g.

(** One turn of [for rel in incoming_rels]. *)
Definition transfer_incoming (entity_type target_id : string) (g : graph)
    (row : rel * node) : graph :=
  let rel_type := r_type (fst row) in
  let source_node := snd row in
  let rel_exists :=
    (0 <? count_incoming g entity_type rel_type (n_id source_node) target_id)%nat in
  if negb rel_exists
  then create_incoming g entity_type rel_type (n_id source_node) target_id
         (carried_props (fst row))
  else g.

(** Both lists are read before the first relationship is written. *)
Definition _transfer_relationships (g : graph)
    (source_id target_id entity_type : string) : graph :=
  let outgoing := outgoing_rels g entity_type source_id in
  let incoming := incoming_rels g entity_type source_id in
  let g := fold_left (transfer_outgoing entity_type target_id) outgoing g in
  fold_left (transfer_incoming entity_type target_id) incoming g.

(** [text_to_embed[:100]] *)
Definition first_100 (text : value) : exc value :=
  match text with
  | VStr s => ret (VStr (substring 0 100 s))
  | VList l => ret (VList (take 100 l))
  | _ => raise TypeError
  end.

Definition _update_entity_embedding (vdb : Vdb) (entity_id entity_type : string)
    (entity_properties : dict) : Vdb * exc unit :=
  let name := match dict_get entity_properties "name" with
              | Some v => v
              | None => VStr ""
              end in
  let text_to_embed :=
    if truthy name then name
    else match dict_get entity_properties "text" with
         | Some v => v
         | None => VStr ""
         end in
  match with_description text_to_embed entity_properties with
  | inl e => (vdb, inl e)
  | inr text_to_embed =>
      if negb (truthy text_to_embed) then (vdb, ret tt)
      else
        match get_embedding text_to_embed with
        | inl e => (vdb, inl e)
        | inr embedding =>
            match first_100 text_to_embed with
            | inl e => (vdb, inl e)
            | inr short =>
                vdb_upsert vdb entity_type entity_id embedding
                  [("id", VStr entity_id); ("text", short);
                   ("type", VStr entity_type)]
            end
        end
  end.

(** [MATCH (e:T) WHERE e.id = $id
     SET e.merged = true, e.merged_into = $target_id, e.merged_at = $merged_at];
    [merged_at] is [datetime.now().isoformat()]. *)
Definition mark_merged (g : graph) (entity_type source_id target_id : string)
    (merged_at : string) : graph :=
  update_by_id g entity_type (VStr source_id)
    [("merged", VBool true); ("merged_into", VStr target_id);
     ("merged_at", VStr merged_at)].

Definition merge_entities (g : graph) (vdb : Vdb) (merged_at : string)
    (source_id target_id entity_type : string) (merge_strategy : strategy)
  : graph * Vdb * exc node :=
  let source_result := match_by_id g entity_type (VStr source_id) in
  let target_result := match_by_id g entity_type (VStr target_id) in
  match source_result, target_result with
  | source_entity :: _, target_entity :: _ =>
      match _merge_properties (node_items source_entity)
              (node_items target_entity) merge_strategy with
      | inl e => (g, vdb, inl e)
      | inr merged_properties =>
          let g := update_by_id g entity_type (VStr target_id)
                     merged_properties in
          let g := _transfer_relationships g source_id target_id entity_type in
          let g := mark_merged g entity_type source_id target_id merged_at in
          match _update_entity_embedding vdb target_id entity_type
                  merged_properties with
          | (vdb, inl e) => (g, vdb, inl e)
          | (vdb, inr _) =>
              match match_by_id g entity_type (VStr target_id) with
              | e :: _ => (g, vdb, ret e)
              | [] => (g, vdb, raise IndexError)
              end
          end
      end
  | _, _ => (g, vdb, raise ValueError)
  end.

End Engine.

End EntityResolution.

(** ** More of Python's [str]: whitespace, [split], [strip], [upper] *)

Module Text.

Import Py.

(** [str.isspace] on the code points below 256: U+0009..U+000D,
    U+001C..U+001F, the space, U+0085 and U+00A0. *)
Definition isspace (c : ascii) : bool :=
  let n := nat_of_ascii c in
  ((9 <=? n) && (n <=? 13))%nat || ((28 <=? n) && (n <=? 32))%nat
  || Nat.eqb n 133 || Nat.eqb n 160.

(** [s.split()]: the maximal runs of characters that are not whitespace;
    [word] is the run being read, its characters in reverse. *)
Fixpoint split_from (s : string) (word : list ascii) : list string :=
  match s with
  | EmptyString =>
      match word with
      | [] => []
      | _ => [string_of_list_ascii (rev word)]
      end
  | String c s' =>
      if isspace c then
        match word with
        | [] => split_from s' []
        | _ => string_of_list_ascii (rev word) :: split_from s' []
        end
      else split_from s' (c :: word)
  end.

Definition split (s : string) : list string := split_from s [].

(** [s.lstrip()] *)
Fixpoint lstrip (s : string) : string :=
  match s with
  | EmptyString => EmptyString
  | String c s' => if isspace c then lstrip s' else s
  end.

(** [s.rstrip(chars)] for the characters that [drop] accepts. *)
Fixpoint rstrip_if (drop : ascii -> bool) (s : string) : string :=
  match s with
  | EmptyString => EmptyString
  | String c s' =>
      match rstrip_if drop s' with
      | EmptyString => if drop c then EmptyString else String c EmptyString
      | t => String c t
      end
  end.

(** [s.strip()] *)
Definition strip (s : string) : string := rstrip_if isspace (lstrip s).

(** [sep.join(parts)] *)
Fixpoint join (sep : string) (parts : list string) : string :=
  match parts with
  | [] => EmptyString
  | [p] => p
  | p :: rest => String.append p (String.append sep (join sep rest))
  end.

(** [s.startswith((p1, p2, ...))] *)
Definition startswith_any (s : string) (prefixes : list string) : bool :=
  existsb (startswith s) prefixes.

(** [str.upper], as code points: [a]-[z] and U+00E0..U+00FE (U+00F7
    excepted) move down by 32; the sharp s becomes [SS], the micro sign
    U+039C and the y with diaeresis U+0178, which lie above 255. *)
Definition upper_char (c : ascii) : list nat :=
  let n := nat_of_ascii c in
  if ((97 <=? n) && (n <=? 122))%nat
     || ((224 <=? n) && (n <=? 254) && negb (Nat.eqb n 247))%nat
  then [(n - 32)%nat]
  else if Nat.eqb n 223 then [83; 83]%nat
  else if Nat.eqb n 181 then [924%nat]
  else if Nat.eqb n 255 then [376%nat]
  else [n].

Definition upper (s : string) : list nat :=
  flat_map upper_char (list_ascii_of_string s).

Fixpoint starts_with (needle hay : list nat) : bool :=
  match needle, hay with
  | [], _ => true
  | x :: needle', y :: hay' => Nat.eqb x y && starts_with needle' hay'
  | _ :: _, [] => false
  end.

(** [needle in hay] on strings given as code points. *)
Fixpoint contains (needle hay : list nat) : bool :=
  starts_with needle hay
  || match hay with
     | [] => false
     | _ :: hay' => contains needle hay'
     end.

Definition code_points (s : string) : list nat :=
  map nat_of_ascii (list_ascii_of_string s).

End Text.

(** ** The name normaliser ([EntityResolutionEngine._normalize_name]) *)

Module NormalizeName.

Import Py.

Definition prefixes : list string := ["mr."; "mrs."; "ms."; "dr."; "prof."].

Definition suffixes : list string := ["jr."; "sr."; "phd"; "md"; "dds"; "esq"].

(** [w.rstrip(".")] *)
Definition rstrip_dot (w : string) : string :=
  Text.rstrip_if (fun c => Ascii.eqb c ".") w.

(** [name_parts[-1]] of a non-empty list *)
Fixpoint last_part (parts : list string) : option string :=
  match parts with
  | [] => None
  | [p] => Some p
  | _ :: rest => last_part rest
  end.

Definition _normalize_name (name : string) : string :=
  let name := Normalize.lower name in
  let name_parts := Text.split name in
  let name_parts :=
    match name_parts with
    | first :: rest =>
        if str_in (rstrip_dot first) prefixes then rest else name_parts
    | [] => name_parts
    end in
  let name_parts :=
    match last_part name_parts with
    | Some l =>
        if str_in (rstrip_dot l) suffixes then removelast name_parts
        else name_parts
    | None => name_parts
    end in
  Text.join " " name_parts.

End NormalizeName.

(** ** The batch write queue ([engine/rag_engine.py], class [WriteQueue]) *)

Module WriteQueue.

Import Py.

Section WithOp.

Variable Op : Type.

Record t : Type := mk {
  queue : list Op;
  max_size : Z
}.

(** [WriteQueue(max_size)] *)
Definition init (max_size : Z) : t := mk [] max_size.

(** [process_batch]: the stub drops what is queued. *)
Definition process_batch (q : t) : t := mk [] (max_size q).

Definition push (q : t) (op : Op) : t :=
  let q := mk (queue q ++ [op]) (max_size q) in
  if Z.of_nat (length (queue q)) >=? max_size q then process_batch q else q.

End WithOp.

Arguments mk {Op}.
Arguments queue {Op}.
Arguments max_size {Op}.
Arguments init {Op}.
Arguments process_batch {Op}.
Arguments push {Op}.

(** [queue_write_operation]: [timestamp] is [time.time()]. *)
Definition queue_write_operation (write_queue : t dict)
    (operation_type data timestamp : value) : t dict :=
  push write_queue
    [("type", operation_type); ("data", data); ("timestamp", timestamp)].

End WriteQueue.

(** ** Cached Cypher queries ([execute_query_with_cache] and its helpers) *)

Module QueryCache.

Import Py RagEngine.

Definition cypher_keywords : list string :=
  ["match"; "call"; "with"; "unwind"; "create"; "merge"; "set"; "delete";
   "remove"; "return"; "optional"].

(** [query.strip().lower().startswith((...))] *)
Definition is_cypher (query : string) : bool :=
  Text.startswith_any (Normalize.lower (Text.strip query)) cypher_keywords.

(** [query.strip().lower().startswith("match")] *)
Definition is_cacheable_query (query : string) : bool :=
  startswith (Normalize.lower (Text.strip query)) "match".

(** [3600 if "LIMIT" in query.upper() else 600] *)
Definition calculate_ttl (query : string) : Z :=
  if Text.contains (Text.code_points "LIMIT") (Text.upper query)
  then 3600 else 600.

Section Layer.

Variable Obj : Type.
Variable Gdb : Type.
Variable Vec : Type.

(** [graph_db.run_query(query, parameters)] *)
Variable gdb_run_query : Gdb -> string -> value -> Gdb * exc Obj.
(** [pickle.dumps(parameters).hex()], [hash] and [str]; [hash] is the
    interpreter's own, one function for the calls of one process. *)
Variable pickle_hex : value -> exc string.
Variable py_str : value -> string.
Variable py_hash : string -> Z.

Local Notation "x <~ m ;; k" := (bindM m (fun x => k))
  (at level 100, m at next level, right associativity).

Definition db_run_query (query : string) (parameters : value)
  : M Obj Gdb Vec Obj :=
  fun w => let '(d, r) := gdb_run_query (graph_db w) query parameters in
           (with_graph_db w d, r).

(** [f"cypher_query:{str(hash(query + hex))}"] *)
Definition query_key (query hex : string) : string :=
  String.append "cypher_query:"
    (py_str (VInt (py_hash (String.append query hex)))).

Definition execute_query_with_cache (query : string) (parameters : value)
  : M Obj Gdb Vec Obj :=
  if negb (is_cypher query) then liftM (raise ValueError)
  else
    hex <~ liftM (pickle_hex parameters) ;;
    let cache_key := query_key query hex in
    cached_result <~ redis_get cache_key ;;
    match cached_result with
    | Some v => retM v
    | None =>
        result <~ db_run_query query parameters ;;
        _ <~ (if is_cacheable_query query
              then redis_set cache_key result (Some (calculate_ttl query))
              else retM tt) ;;
        retM result
    end.

End Layer.

Arguments db_run_query {Obj Gdb Vec}.
Arguments execute_query_with_cache {Obj Gdb Vec}.

End QueryCache.

(** ** Formatted results ([engine/rag_engine.py], [_format_results])

    The relationships of a traversal are the driver's relationship
    objects: [rel.get("source")] and [conn["source"]] both read a property
    of the relationship and give [None] when it has none of that name.
    The debugging [print]s are left out. *)

Module FormatResults.

Import Py Graph RagEngine.

(** [{"node": node_map[other_id], "relationship": conn}] *)
Record connection : Type := mkConnection {
  conn_node : node;
  conn_relationship : rel
}.

(** [{"document": result, "connections": connected_nodes}] *)
Record enriched : Type := mkEnriched {
  document : hit;
  connections : list connection
}.

(** [{"results": ..., "graph_summary": {"total_nodes": ...,
      "total_relationships": ...}}] *)
Record formatted : Type := mkFormatted {
  enriched_results : list enriched;
  total_nodes : nat;
  total_relationships : nat
}.

(** [node_map[key] = node] *)
Fixpoint node_map_set (m : list (string * node)) (key : string) (n : node)
  : list (string * node) :=
  match m with
  | [] => [(key, n)]
  | (k, v) :: m' =>
      if String.eqb k key then (k, n) :: m'
      else (k, v) :: node_map_set m' key n
  end.

(** [{node["id"]: node for node in graph_context.get("nodes", [])}] *)
Definition node_map_of (nodes : list node) : list (string * node) :=
  fold_left (fun m n => node_map_set m (n_id n) n) nodes [].

Fixpoint node_map_get (m : list (string * node)) (key : string)
  : option node :=
  match m with
  | [] => None
  | (k, v) :: m' => if String.eqb k key then Some v else node_map_get m' key
  end.

(** [rel.get(key) == result_id] *)
Definition end_is (r : rel) (key result_id : string) : bool :=
  match dict_get (r_props r) key with
  | Some v => value_eqb v (VStr result_id)
  | None => false
  end.

(** [rel.get("source") == result_id or rel.get("target") == result_id] *)
Definition mentions (result_id : string) (r : rel) : bool :=
  end_is r "source" result_id || end_is r "target" result_id.

(** [conn[key]] on the driver's relationship: [None] for a property that
    the relationship does not have (no [KeyError]). *)
Definition item (conn : rel) (key : string) : value :=
  match dict_get (r_props conn) key with
  | Some v => v
  | None => VNone
  end.

(** [conn["target"] if conn["source"] == result_id else conn["source"]] *)
Definition other_end (conn : rel) (result_id : string) : value :=
  if value_eqb (item conn "source") (VStr result_id)
  then item conn "target"
  else item conn "source".

(** [if other_id in node_map: connected_nodes.append(...)]: a list or a
    map cannot be hashed; a value that is not a string is no key of the
    map. *)
Definition connect (node_map : list (string * node)) (conn : rel)
    (other_id : value) (connected_nodes : list connection)
  : exc (list connection) :=
  match other_id with
  | VStr s =>
      match node_map_get node_map s with
      | Some n => ret (connected_nodes ++ [mkConnection n conn])
      | None => ret connected_nodes
      end
  | VList _ | VDict _ => raise TypeError
  | _ => ret connected_nodes
  end.

(** [for conn in connections] *)
Fixpoint connect_all (node_map : list (string * node)) (result_id : string)
    (conns : list rel) (connected_nodes : list connection)
  : exc (list connection) :=
  match conns with
  | [] => ret connected_nodes
  | conn :: rest =>
      bind (connect node_map conn (other_end conn result_id) connected_nodes)
        (fun connected_nodes =>
      connect_all node_map result_id rest connected_nodes)
  end.

(** The body of [for result in vector_results]. *)
Definition enrich (node_map : list (string * node)) (rels : list rel)
    (result : hit) : exc enriched :=
  let result_id := hit_id result in
  let conns := List.filter (mentions result_id) rels in
  bind (connect_all node_map result_id conns []) (fun connected_nodes =>
  ret (mkEnriched result connected_nodes)).

Fixpoint enrich_all (node_map : list (string * node)) (rels : list rel)
    (vector_results : list hit) (enriched_results : list enriched)
  : exc (list enriched) :=
  match vector_results with
  | [] => ret enriched_results
  | result :: rest =>
      bind (enrich node_map rels result) (fun e =>
      enrich_all node_map rels rest (enriched_results ++ [e]))
  end.

Definition _format_results (hybrid_results : hybrid_result) : exc formatted :=
  let vector_results := results hybrid_results in
  let graph_context := context hybrid_results in
  let node_map := node_map_of (GraphTraversal.nodes graph_context) in
  bind (enrich_all node_map (GraphTraversal.relationships graph_context)
          vector_results [])
    (fun enriched_results =>
  ret (mkFormatted enriched_results
         (length (GraphTraversal.nodes graph_context))
         (length (GraphTraversal.relationships graph_context)))).

End FormatResults.

(** ** Batch resolution ([engine/entity_resolution.py],
    [batch_resolve_entities] and the similarity scores)

    The scores are floats. Their arithmetic is a parameter of the model:
    the type [F] with the literals, the operations and the comparison
    that the code uses, and [fuzz.token_sort_ratio]. Counting and
    control flow are the code's. *)

Module BatchResolution.

Import Py Graph.

(** [MATCH (e)-[r]-(other) WHERE e.id = $entity_id
     RETURN other.id AS related_id] *)
Definition related_ids (g : graph) (entity_id : string) : list string :=
  flat_map (fun r =>
    (if String.eqb (r_src r) entity_id then
       match find_node g (r_src r), find_node g (r_dst r) with
       | Some _, Some other => [n_id other]
       | _, _ => []
       end
     else [])
    ++
    (if String.eqb (r_dst r) entity_id then
       match find_node g (r_dst r), find_node g (r_src r) with
       | Some _, Some other => [n_id other]
       | _, _ => []
       end
     else [])) (g_rels g).

Definition important_props : list string :=
  ["email"; "phone"; "title"; "role"; "company"; "website"; "address";
   "description"].

(** [entity.get(prop)] *)
Definition get_or_none (entity : dict) (prop : string) : value :=
  match dict_get entity prop with
  | Some v => v
  | None => VNone
  end.

Definition is_none (v : value) : bool :=
  match v with
  | VNone => true
  | _ => false
  end.

(** The body of [for prop in important_props], on [(matches, total)]. *)
Definition count_prop (entity1 entity2 : dict) (counts : nat * nat)
    (prop : string) : nat * nat :=
  let val1 := get_or_none entity1 prop in
  let val2 := get_or_none entity2 prop in
  if is_none val1 && is_none val2 then counts
  else
    let total := S (snd counts) in
    if truthy val1 && truthy val2 && value_eqb val1 val2
    then (S (fst counts), total)
    else (fst counts, total).

Definition count_props (entity1 entity2 : dict) : nat * nat :=
  fold_left (count_prop entity1 entity2) important_props (0%nat, 0%nat).

(** [tuple(sorted([id1, id2]))] *)
Definition pair_key (id1 id2 : string) : string * string :=
  if String.ltb id2 id1 then (id2, id1) else (id1, id2).

Definition key_eqb (a b : string * string) : bool :=
  String.eqb (fst a) (fst b) && String.eqb (snd a) (snd b).

(** [pair_key in processed_pairs] *)
Definition key_in (key : string * string)
    (processed_pairs : list (string * string)) : bool :=
  existsb (key_eqb key) processed_pairs.

(** [NOT exists(e.merged) OR e.merged = false] *)
Definition unmerged (e : node) : bool :=
  match node_prop e "merged" with
  | None | Some VNone => true
  | Some v => value_eqb v (VBool false)
  end.

(** [MATCH (e:T) WHERE NOT exists(e.merged) OR e.merged = false
     RETURN e LIMIT $limit]; a negative limit is refused by the store. *)
Definition query_unmerged (g : graph) (entity_type : string) (limit : Z)
  : exc (list node) :=
  if limit <? 0 then raise StoreError
  else ret (take (Z.to_nat limit)
              (List.filter (fun e => has_label entity_type e && unmerged e)
                 (g_nodes g))).

Section Scores.

Variable F : Type.
(** [0.0], [a / b] on two counts, [ratio / 100.0], [*], [+] and [>=];
    the weights [0.6], [0.3] and [0.1]. *)
Variable f_zero : F.
Variable f_div : nat -> nat -> F.
Variable f_percent : Z -> F.
Variable f_mul : F -> F -> F.
Variable f_add : F -> F -> F.
Variable f_ge : F -> F -> bool.
Variable w_name : F.
Variable w_relationships : F.
Variable w_properties : F.
(** [fuzz.token_sort_ratio(text1, text2)] *)
Variable token_sort_ratio : value -> value -> exc Z.

(** [{"source_id": ..., "target_id": ..., "match_score": ...,
      "entity_type": ...}] *)
Record candidate : Type := mkCandidate {
  source_id : string;
  target_id : string;
  match_score : F;
  cand_entity_type : string
}.

Definition _calculate_relationship_overlap (g : graph)
    (entity1_id entity2_id : string) : F :=
  let related1 := related_ids g entity1_id in
  let related2 := related_ids g entity2_id in
  match related1, related2 with
  | [], _ | _, [] => f_zero
  | _, _ =>
      let related_ids1 : gset string := list_to_set related1 in
      let related_ids2 : gset string := list_to_set related2 in
      let intersection := size (related_ids1 ∩ related_ids2) in
      let union := size (related_ids1 ∪ related_ids2) in
      if Nat.eqb union 0 then f_zero else f_div intersection union
  end.

Definition _calculate_property_similarity (entity1 entity2 : dict) : F :=
  let '(matches, total) := count_props entity1 entity2 in
  if Nat.eqb total 0 then f_zero else f_div matches total.

Definition _calculate_entity_similarity (g : graph) (entity1 entity2 : node)
  : exc F :=
  let d1 := node_items entity1 in
  let d2 := node_items entity2 in
  let text_field := if dict_mem d1 "name" then "name" else "text" in
  if negb (dict_mem d1 text_field) || negb (dict_mem d2 text_field)
  then ret f_zero
  else
    bind (dict_item d1 text_field) (fun text1 =>
    bind (dict_item d2 text_field) (fun text2 =>
    bind (token_sort_ratio text1 text2) (fun ratio =>
    let name_similarity := f_percent ratio in
    let relationship_similarity :=
      _calculate_relationship_overlap g (n_id entity1) (n_id entity2) in
    let property_similarity := _calculate_property_similarity d1 d2 in
    ret (f_add
           (f_add (f_mul w_name name_similarity)
              (f_mul w_relationships relationship_similarity))
           (f_mul w_properties property_similarity))))).

(** The loop variables [processed_pairs] and [merge_candidates]. *)
Record state : Type := mkState {
  processed_pairs : list (string * string);
  merge_candidates : list candidate
}.

(** [for j in range(i + 1, len(entities))] *)
Fixpoint pair_with (g : graph) (entity_type : string) (match_threshold : F)
    (entity1_data : node) (later : list node) (st : state) : exc state :=
  match later with
  | [] => ret st
  | entity2_data :: rest =>
      let key := pair_key (n_id entity1_data) (n_id entity2_data) in
      if key_in key (processed_pairs st)
      then pair_with g entity_type match_threshold entity1_data rest st
      else
        let processed := processed_pairs st ++ [key] in
        bind (_calculate_entity_similarity g entity1_data entity2_data)
          (fun score =>
        pair_with g entity_type match_threshold entity1_data rest
          (mkState processed
             (if f_ge score match_threshold
              then merge_candidates st
                   ++ [mkCandidate (n_id entity1_data) (n_id entity2_data)
                         score entity_type]
              else merge_candidates st)))
  end.

(** [for i, entity1 in enumerate(entities)] *)
Fixpoint pair_all (g : graph) (entity_type : string) (match_threshold : F)
    (entities : list node) (st : state) : exc state :=
  match entities with
  | [] => ret st
  | entity1_data :: later =>
      bind (pair_with g entity_type match_threshold entity1_data later st)
        (fun st => pair_all g entity_type match_threshold later st)
  end.

Definition batch_resolve_entities (g : graph) (entity_type : string)
    (match_threshold : F) (limit : Z) : exc (list candidate) :=
  bind (query_unmerged g entity_type limit) (fun entities =>
  bind (pair_all g entity_type match_threshold entities (mkState [] []))
    (fun st => ret (merge_candidates st))).

End Scores.

Arguments mkCandidate {F}.
Arguments source_id {F}.
Arguments target_id {F}.
Arguments match_score {F}.
Arguments cand_entity_type {F}.
Arguments mkState {F}.
Arguments processed_pairs {F}.
Arguments merge_candidates {F}.
Arguments _calculate_relationship_overlap {F}.
Arguments _calculate_property_similarity {F}.
Arguments _calculate_entity_similarity {F}.
Arguments pair_with {F}.
Arguments pair_all {F}.
Arguments batch_resolve_entities {F}.

End BatchResolution.

(** * Part II: the properties *)

(** Shared proof steps. *)

Ltac break_if :=
  match goal with
  | |- context [if ?b then _ else _] => destruct b eqn:?
  | H : context [if ?b then _ else _] |- _ => destruct b eqn:?
  end.

Ltac break_match :=
  match goal with
  | |- context [match ?x with _ => _ end] => destruct x eqn:?
  | H : context [match ?x with _ => _ end] |- _ => destruct x eqn:?
  end.

Ltac invert H := inversion H; subst; clear H.

Create HintDb graphrag.

(** ** Dictionaries and strings *)

Module PyFacts.

Import Py.

Lemma dict_get_set_eq d k v : dict_get (dict_set d k v) k = Some v.
Proof.
  induction d as [|[k' v'] d IH]; simpl.
  - now rewrite String.eqb_refl.
  - destruct (String.eqb k' k) eqn:E; simpl; rewrite E; auto.
Qed.

Lemma dict_get_set_ne d k k' v :
  k <> k' -> dict_get (dict_set d k v) k' = dict_get d k'.
Proof.
  intros Hne. induction d as [|[k0 v0] d IH]; simpl.
  - destruct (String.eqb k k') eqn:E; auto.
    apply String.eqb_eq in E. contradiction.
  - destruct (String.eqb k0 k) eqn:E; simpl.
    + apply String.eqb_eq in E. subst k0.
      destruct (String.eqb k k') eqn:E'; auto.
      apply String.eqb_eq in E'. contradiction.
    + now rewrite IH.
Qed.

Lemma str_in_In s l : str_in s l = true <-> In s l.
Proof.
  unfold str_in. rewrite existsb_exists. split.
  - intros (x & Hx & E). apply String.eqb_eq in E. now subst.
  - intros H. exists s. split; auto. apply String.eqb_refl.
Qed.

Lemma append_inj_r a b c : String.append a b = String.append a c -> b = c.
Proof.
  induction a as [|x a IH]; simpl; auto.
  intros H. inversion H. auto.
Qed.

End PyFacts.


(** ** The phone normaliser *)

Module NormalizeFacts.

Import Normalize.

Section Filter.

Variable keep : ascii -> bool.

Lemma join_if_all s : all_chars keep (join_if keep s) = true.
Proof.
  induction s as [|c s IH]; simpl; auto.
  destruct (keep c) eqn:E; simpl; auto. now rewrite E.
Qed.

Lemma join_if_fixed s : all_chars keep s = true -> join_if keep s = s.
Proof.
  induction s as [|c s IH]; simpl; auto.
  intros H. apply andb_prop in H as [Hc Hs].
  rewrite Hc. f_equal. auto.
Qed.

End Filter.

(** C10. [_normalize_phone] is digit-pure and idempotent: its result holds
    only characters for which [isdigit] is true, normalising twice is
    normalising once, and a string of digits comes back unchanged. *)
Theorem normalize_phone_digit_pure_idempotent (s : string) :
  all_chars isdigit (_normalize_phone s) = true
  /\ _normalize_phone (_normalize_phone s) = _normalize_phone s
  /\ (all_chars isdigit s = true -> _normalize_phone s = s).
Proof.
  unfold _normalize_phone. split; [apply join_if_all|]. split.
  - apply join_if_fixed, join_if_all.
  - apply join_if_fixed.
Qed.

Lemma normalize_phone_witness :
  all_chars isdigit "15550109999" = true
  /\ _normalize_phone "15550109999" = "15550109999"
  /\ _normalize_phone "+1 (555) 010-9999" = "15550109999".
Proof.
  split; [reflexivity|]. split; [|reflexivity].
  apply (proj2 (proj2 (normalize_phone_digit_pure_idempotent "15550109999"))).
  reflexivity.
Defined.

End NormalizeFacts.

(** ** The in-process cache *)

Module LRUCacheFacts.

Import Py LRUCache.

Section WithValue.

Context {V : Type}.

Implicit Types (l : list (string * (V * Z))) (c : t V).

Lemma lookup_remove_eq l key : lookup (remove l key) key = None.
Proof.
  induction l as [|[k e] l IH]; simpl; auto.
  destruct (String.eqb k key) eqn:E; simpl; auto. now rewrite E.
Qed.

Lemma lookup_remove_ne l key key' :
  key <> key' -> lookup (remove l key) key' = lookup l key'.
Proof.
  intros Hne. induction l as [|[k e] l IH]; simpl; auto.
  destruct (String.eqb k key) eqn:E; simpl.
  - apply String.eqb_eq in E. subst k.
    destruct (String.eqb key key') eqn:E'; auto.
    apply String.eqb_eq in E'. contradiction.
  - now rewrite IH.
Qed.

Lemma lookup_app l l' key :
  lookup (l ++ l') key =
  match lookup l key with
  | Some e => Some e
  | None => lookup l' key
  end.
Proof.
  induction l as [|[k e] l IH]; simpl; auto.
  destruct (String.eqb k key); auto.
Qed.

Lemma lookup_last l key e :
  lookup l key = None -> lookup (l ++ [(key, e)]) key = Some e.
Proof.
  intros H. rewrite lookup_app, H. simpl. now rewrite String.eqb_refl.
Qed.

Lemma length_remove_le l key : (length (remove l key) <= length l)%nat.
Proof.
  induction l as [|[k e] l IH]; simpl; auto.
  destruct (String.eqb k key); simpl; lia.
Qed.

Lemma length_remove_lt l key e :
  lookup l key = Some e -> (length (remove l key) < length l)%nat.
Proof.
  induction l as [|[k e'] l IH]; simpl; [discriminate|].
  destruct (String.eqb k key); simpl; intros H.
  - pose proof (length_remove_le l key). lia.
  - apply IH in H. lia.
Qed.

(** After a [set] that returns, the key holds the value with the deadline
    [now + ttl]. *)
Lemma lookup_set c now key v c' :
  set now key v c = (c', ret tt) ->
  lookup (cache c') key = Some (v, now + ttl c) /\ ttl c' = ttl c
  /\ max_size c' = max_size c.
Proof.
  unfold set. destruct (lookup (cache c) key) eqn:L.
  - intros H. invert H. simpl. split; auto.
    apply lookup_last, lookup_remove_eq.
  - destruct (Z.of_nat (length (cache c)) >=? max_size c).
    + destruct (cache c) as [|[k0 e0] rest] eqn:C; intros H; [discriminate|].
      invert H. simpl. split; auto. apply lookup_last.
      simpl in L. destruct (String.eqb k0 key); [discriminate|auto].
    + intros H. invert H. simpl. split; auto. now apply lookup_last.
Qed.

End WithValue.

(** The spec's words: the entry that [set] wrote the longest ago. Every
    [set] stamps its entry with [time + ttl], so it is the entry with the
    least deadline. *)
Definition oldest_inserted {V} (c : t V) (key : string) : Prop :=
  exists v e, lookup (cache c) key = Some (v, e)
    /\ forall key' v' e', lookup (cache c) key' = Some (v', e') -> e <= e'.

(** A cache of two entries: [set a] at 0, [set b] at 1, [get a] at 2. *)
Definition read_between_writes : t Z :=
  fst (get 2 "a" (fst (set 1 "b" 20 (fst (set 0 "a" 10 (init 2 100)))))).

(** C9, as stated, fails: the cache is full, ["a"] is the oldest-inserted
    entry, and a [set] of the new key ["c"] evicts ["b"] and keeps ["a"],
    because the [get] of ["a"] moved it behind ["b"]. *)
Lemma eviction_is_not_oldest_inserted :
  lookup (cache read_between_writes) "c" = None
  /\ Z.of_nat (length (cache read_between_writes)) = max_size read_between_writes
  /\ oldest_inserted read_between_writes "a"
  /\ keys (fst (set 3 "c" 30 read_between_writes)) = ["a"; "c"].
Proof.
  split; [reflexivity|]. split; [reflexivity|]. split; [|reflexivity].
  exists 10, 100. split; [reflexivity|].
  intros key' v' e' H.
  change (lookup [("b", (20, 101)); ("a", (10, 100))] key' = Some (v', e')) in H.
  cbn [lookup] in H.
  destruct (String.eqb "b" key'); [invert H; lia|].
  destruct (String.eqb "a" key'); [invert H; lia|discriminate].
Qed.

(** *** The order of use *)

(** A call of the cache at a time: [set(key, value)] or [get(key)]. *)
Inductive use (V : Type) : Type :=
| USet (now : Z) (key : string) (value : V)
| UGet (now : Z) (key : string).

Arguments USet {V}.
Arguments UGet {V}.

(** The cache after a call, and the key that the call used: the key of a
    [set] that returns, and the key of a [get] that returns its value. *)
Definition apply_use {V} (c : t V) (u : use V) : t V * option string :=
  match u with
  | USet now key value =>
      match set now key value c with
      | (c', inr _) => (c', Some key)
      | (c', inl _) => (c', None)
      end
  | UGet now key =>
      match get now key c with
      | (c', Some _) => (c', Some key)
      | (c', None) => (c', None)
      end
  end.

(** The cache after the calls [us], and the keys used, the latest first. *)
Fixpoint run {V} (c : t V) (log : list string) (us : list (use V))
  : t V * list string :=
  match us with
  | [] => (c, log)
  | u :: us' =>
      match apply_use c u with
      | (c', Some key) => run c' (key :: log) us'
      | (c', None) => run c' log us'
      end
  end.

(** The number of uses since the last use of [key]. *)
Fixpoint since (log : list string) (key : string) : option nat :=
  match log with
  | [] => None
  | k :: log' =>
      if String.eqb k key then Some 0%nat else option_map S (since log' key)
  end.

(** Both keys were used, and the last use of [a] is older than the last
    use of [b]. *)
Definition used_before (log : list string) (a b : string) : Prop :=
  exists i j, since log a = Some i /\ since log b = Some j /\ (j < i)%nat.

(** Every key of the list is older, by [R], than the keys after it: the
    head is the oldest. *)
Fixpoint ordered (R : string -> string -> Prop) (l : list string) : Prop :=
  match l with
  | [] => True
  | a :: l' => Forall (R a) l' /\ ordered R l'
  end.

Section Order.

Context {V : Type}.

Implicit Types (l : list (string * (V * Z))) (c : t V).

Lemma since_cons_ne log k a :
  k <> a -> since (k :: log) a = option_map S (since log a).
Proof. intros H. simpl. now destruct (String.eqb_spec k a). Qed.

Lemma used_before_cons log k a b :
  a <> k -> b <> k -> used_before log a b -> used_before (k :: log) a b.
Proof.
  intros Ha Hb (i & j & Hi & Hj & Hlt). exists (S i), (S j).
  rewrite !since_cons_ne, Hi, Hj by congruence. simpl.
  split; [reflexivity|]. split; [reflexivity|lia].
Qed.

Lemma used_before_new log k a :
  a <> k -> since log a <> None -> used_before (k :: log) a k.
Proof.
  intros Ha Hs. destruct (since log a) as [i|] eqn:E; [|congruence].
  exists (S i), 0%nat. rewrite since_cons_ne, E by congruence. simpl.
  rewrite String.eqb_refl. split; [reflexivity|]. split; [reflexivity|lia].
Qed.

Lemma ordered_impl (R R' : string -> string -> Prop) ks :
  (forall a b, In a ks -> In b ks -> R a b -> R' a b) ->
  ordered R ks -> ordered R' ks.
Proof.
  induction ks as [|a ks IH]; intros H; simpl; [auto|].
  intros [Hall Ho]. split.
  - rewrite List.Forall_forall in *. intros b Hb.
    apply H; [now left|now right|auto].
  - apply IH; [|exact Ho]. intros x y Hx Hy. apply H; now right.
Qed.

Lemma ordered_snoc (R : string -> string -> Prop) ks k :
  ordered R ks -> Forall (fun a => R a k) ks -> ordered R (ks ++ [k]).
Proof.
  induction ks as [|a ks IH]; simpl; [auto|].
  intros [Hall Ho] Hk. apply Forall_cons in Hk as [Hak Hk]. split.
  - apply Forall_app. split; [exact Hall|]. constructor; [exact Hak|constructor].
  - now apply IH.
Qed.

Lemma keys_remove_In l key a :
  In a (map fst (remove l key)) -> a <> key /\ In a (map fst l).
Proof.
  induction l as [|[k e] l IH]; simpl; [tauto|].
  destruct (String.eqb_spec k key) as [->|Hne]; simpl.
  - intros H. apply IH in H. tauto.
  - intros [<-|H]; [auto|]. apply IH in H. tauto.
Qed.

Lemma keys_remove_ordered (R : string -> string -> Prop) l key :
  ordered R (map fst l) -> ordered R (map fst (remove l key)).
Proof.
  induction l as [|[k e] l IH]; simpl; [auto|].
  intros [Hall Ho]. destruct (String.eqb k key); simpl; [auto|].
  split; [|auto]. rewrite List.Forall_forall in *. intros b Hb.
  apply Hall. now apply keys_remove_In in Hb.
Qed.

Lemma lookup_none_keys l key :
  lookup l key = None -> forall a, In a (map fst l) -> a <> key.
Proof.
  induction l as [|[k e] l IH]; simpl; [tauto|].
  destruct (String.eqb_spec k key) as [->|Hne]; [discriminate|].
  intros H a [<-|Ha]; auto.
Qed.

(** The entries are in the order of their last use. *)
Definition in_order_of_use (log : list string) (ks : list string) : Prop :=
  ordered (used_before log) ks /\ Forall (fun k => since log k <> None) ks.

(** A key that goes to the back of the order as it is used. *)
Lemma use_to_the_back log ks key :
  in_order_of_use log ks -> (forall a, In a ks -> a <> key) ->
  in_order_of_use (key :: log) (ks ++ [key]).
Proof.
  intros [Ho Hs] Hne. rewrite List.Forall_forall in Hs. split.
  - apply ordered_snoc.
    + eapply ordered_impl; [|exact Ho]. intros a b Ha Hb.
      apply used_before_cons; auto.
    + apply List.Forall_forall. intros a Ha. apply used_before_new; auto.
  - apply Forall_app. split.
    + apply List.Forall_forall. intros a Ha.
      rewrite since_cons_ne by (intros E; now apply (Hne a Ha)).
      specialize (Hs a Ha). now destruct (since log a).
    + constructor; [|constructor]. simpl. now rewrite String.eqb_refl.
Qed.

Lemma order_without log l key :
  in_order_of_use log (map fst l) ->
  in_order_of_use log (map fst (remove l key)).
Proof.
  intros [Ho Hs]. split; [now apply keys_remove_ordered|].
  rewrite List.Forall_forall in *. intros a Ha.
  apply Hs. now apply keys_remove_In in Ha.
Qed.

Lemma apply_use_order c u log :
  in_order_of_use log (keys c) ->
  match apply_use c u with
  | (c', Some key) => in_order_of_use (key :: log) (keys c')
  | (c', None) => in_order_of_use log (keys c')
  end.
Proof.
  intros Hin. unfold keys in *. destruct u as [now key v|now key]; simpl.
  - unfold set. destruct (lookup (cache c) key) as [e|] eqn:L.
    + simpl. rewrite map_app. simpl. apply use_to_the_back.
      * now apply order_without.
      * intros a Ha. now apply keys_remove_In in Ha.
    + destruct (Z.of_nat (length (cache c)) >=? max_size c).
      * destruct (cache c) as [|[k0 e0] rest] eqn:C; simpl;
          [rewrite C; exact Hin|].
        rewrite map_app. simpl. apply use_to_the_back.
        -- destruct Hin as [[_ Ho] Hs]. apply Forall_cons in Hs as [_ Hs].
           split; assumption.
        -- intros a Ha. apply (lookup_none_keys _ _ L). now right.
      * simpl. rewrite map_app. simpl. apply use_to_the_back; [exact Hin|].
        apply (lookup_none_keys _ _ L).
  - unfold get. destruct (lookup (cache c) key) as [[v e]|] eqn:L;
      [|exact Hin].
    destruct (e >? now); simpl.
    + rewrite map_app. simpl. apply use_to_the_back.
      * now apply order_without.
      * intros a Ha. now apply keys_remove_In in Ha.
    + now apply order_without.
Qed.

Lemma run_order us : forall c log,
  in_order_of_use log (keys c) ->
  in_order_of_use (snd (run c log us)) (keys (fst (run c log us))).
Proof.
  induction us as [|u us IH]; intros c log Hin; [exact Hin|].
  simpl. pose proof (apply_use_order c u log Hin) as Hstep.
  destruct (apply_use c u) as [c' [key|]]; now apply IH.
Qed.

End Order.

(** C9, amended. The cache is a bounded map with per-key expiry whose
    order is the order of use.
    (1) After any sequence of [set] and [get] calls on a new cache, the
    entries are in the order of their last use, the head being the entry
    least recently written by a [set] or read by a [get] that returned
    it: every key was last used before each key that follows it.
    (2) [set] puts its key at the back of the order, whether the key is
    present (no entry is evicted), new below the bound, or new on a full
    cache, where the entry at the head is the one evicted; a cache
    within its bound stays within it.
    (3) A [get] of an unexpired key returns the stored value and moves
    the entry to the back of the order; expiry is checked on read: a
    [get] of a key whose deadline has passed returns [None] and drops
    the entry, and a [get] of an absent key returns [None].
    (4) The deadline of an entry is the time of its [set] plus [ttl]. *)
Theorem lru_cache_eviction_and_expiry {V} :
  (forall (size life : Z) (us : list (use V)),
      in_order_of_use (snd (run (init size life) [] us))
        (keys (fst (run (init size life) [] us))))
  /\ (forall (c : t V) (now : Z) (key : string) (v : V),
      (forall e,
          lookup (cache c) key = Some e ->
          set now key v c
          = (with_cache c (remove (cache c) key ++ [(key, (v, now + ttl c))]),
             ret tt))
      /\ (lookup (cache c) key = None ->
          Z.of_nat (length (cache c)) < max_size c ->
          set now key v c
          = (with_cache c (cache c ++ [(key, (v, now + ttl c))]), ret tt))
      /\ (forall k0 e0 rest,
          lookup (cache c) key = None ->
          Z.of_nat (length (cache c)) >= max_size c ->
          cache c = (k0, e0) :: rest ->
          set now key v c
          = (with_cache c (rest ++ [(key, (v, now + ttl c))]), ret tt))
      /\ (forall c',
          Z.of_nat (length (cache c)) <= max_size c ->
          set now key v c = (c', ret tt) ->
          Z.of_nat (length (cache c')) <= max_size c'))
  /\ (forall (c : t V) (now : Z) (key : string),
      (forall v e,
          lookup (cache c) key = Some (v, e) -> e > now ->
          get now key c =
            (with_cache c (remove (cache c) key ++ [(key, (v, e))]), Some v))
      /\ (forall v e,
          lookup (cache c) key = Some (v, e) -> e <= now ->
          get now key c = (with_cache c (remove (cache c) key), None))
      /\ (lookup (cache c) key = None -> get now key c = (c, None)))
  /\ (forall (c : t V) (now : Z) (key : string) v c' later,
      set now key v c = (c', ret tt) ->
      (later < now + ttl c -> snd (get later key c') = Some v)
      /\ (now + ttl c <= later -> snd (get later key c') = None)).
Proof.
  split; [|split; [|split]].
  - intros size life us. apply run_order. split; constructor.
  - intros c now key v. repeat split.
    + intros e L. unfold set. now rewrite L.
    + intros L Hlt. unfold set. rewrite L.
      destruct (Z.geb_spec (Z.of_nat (length (cache c))) (max_size c));
        [lia|reflexivity].
    + intros k0 e0 rest L Hfull C. unfold set. rewrite L.
      destruct (Z.geb_spec (Z.of_nat (length (cache c))) (max_size c)); [|lia].
      now rewrite C.
    + intros c' Hle. unfold set.
      destruct (lookup (cache c) key) as [e|] eqn:L.
      * intros H. invert H. simpl. rewrite length_app. simpl.
        pose proof (length_remove_lt _ _ _ L). lia.
      * destruct (Z.geb_spec (Z.of_nat (length (cache c))) (max_size c))
          as [Hge|Hlt].
        -- destruct (cache c) as [|p rest] eqn:C; intros H; [discriminate|].
           invert H. simpl in *. rewrite length_app. simpl. lia.
        -- intros H. invert H. simpl. rewrite length_app. simpl. lia.
  - intros c now key. repeat split.
    + intros v e L He. unfold get. rewrite L.
      destruct (Z.gtb_spec e now); [reflexivity|lia].
    + intros v e L He. unfold get. rewrite L.
      destruct (Z.gtb_spec e now); [lia|reflexivity].
    + intros L. unfold get. now rewrite L.
  - intros c now key v c' later H.
    apply lookup_set in H as (L & _ & _). unfold get. rewrite L. split.
    + intros Hlt.
      destruct (Z.gtb_spec (now + ttl c) later); [reflexivity|lia].
    + intros Hge.
      destruct (Z.gtb_spec (now + ttl c) later); [lia|reflexivity].
Qed.

(** The calls of [read_between_writes], then the test of the repository
    ([test_lru_cache_basic]): capacity 2, the third [set] evicts ["a"];
    ["b"] is read back before its deadline and is gone after it. *)
Definition written_and_read : list (use Z) :=
  [USet 0 "a" 10; USet 1 "b" 20; UGet 2 "a"].

Lemma lru_cache_witness :
  (fst (run (init 2 100) [] written_and_read) = read_between_writes
   /\ keys read_between_writes = ["b"; "a"]
   /\ in_order_of_use ["a"; "b"; "a"] ["b"; "a"])
  /\ (let c := fst (set 1 "b" 2 (fst (set 0 "a" 1 (init 2 2)))) in
      set 2 "c" 3 c = (with_cache c [("b", (2, 3)); ("c", (3, 4))], ret tt)
      /\ snd (get 2 "b" c) = Some 2
      /\ snd (get 3 "b" c) = None).
Proof.
  pose proof (@lru_cache_eviction_and_expiry Z)
    as (Horder & Hset & _ & Hlife).
  split.
  - split; [reflexivity|]. split; [reflexivity|].
    exact (Horder 2 100 written_and_read).
  - cbv zeta.
    destruct (Hset (fst (set 1 "b" 2 (fst (set 0 "a" 1 (init 2 2))))) 2 "c" 3)
      as (_ & _ & Hevict & _).
    split.
    + apply (Hevict "a" (1, 2) [("b", (2, 3))]);
        [reflexivity|simpl; lia|reflexivity].
    + specialize (Hlife (fst (set 0 "a" 1 (init 2 2))) 1 "b" 2 _ 2 eq_refl)
        as Hlive.
      specialize (Hlife (fst (set 0 "a" 1 (init 2 2))) 1 "b" 2 _ 3 eq_refl)
        as Hdead.
      split; [apply Hlive; simpl; lia|apply Hdead; simpl; lia].
Defined.

End LRUCacheFacts.

(** ** The graph store adapter *)

Module Neo4jWrapperFacts.

Import Py Neo4jWrapper.

(** What the schema refuses for a node. *)
Definition bad_node (label : string) (properties : dict) : Prop :=
  match Schema.assoc Schema.NODE_TYPES label with
  | None => True
  | Some allowed => exists prop, In prop (keys properties)
                                 /\ ~ In prop (map fst allowed)
  end.

(** What the schema refuses for a relationship. *)
Definition bad_relationship (from_label to_label rel_type : string)
    (props : dict) : Prop :=
  match Schema.assoc Schema.RELATIONSHIP_TYPES rel_type with
  | None => True
  | Some sch =>
      ~ In from_label (Schema.valid_sources sch)
      \/ ~ In to_label (Schema.valid_targets sch)
      \/ exists prop, In prop (keys props)
                      /\ ~ In prop (Schema.properties sch)
  end.

Lemma forallb_str_in_false (l allowed : list string) :
  (exists prop, In prop l /\ ~ In prop allowed) ->
  forallb (fun prop => str_in prop allowed) l = false.
Proof.
  intros (prop & Hin & Hnot).
  destruct (forallb (fun prop => str_in prop allowed) l) eqn:E; auto.
  rewrite forallb_forall in E. apply E in Hin.
  apply PyFacts.str_in_In in Hin. contradiction.
Qed.

Lemma str_in_false s l : ~ In s l -> str_in s l = false.
Proof.
  intros H. destruct (str_in s l) eqn:E; auto.
  apply PyFacts.str_in_In in E. contradiction.
Qed.

Lemma check_node_refuses label properties :
  bad_node label properties -> check_node label properties = raise ValueError.
Proof.
  unfold bad_node, check_node.
  destruct (Schema.assoc Schema.NODE_TYPES label) as [allowed|]; auto.
  intros H. now rewrite forallb_str_in_false.
Qed.

Lemma check_relationship_refuses from_label to_label rel_type props :
  bad_relationship from_label to_label rel_type props ->
  check_relationship from_label to_label rel_type props = raise ValueError.
Proof.
  unfold bad_relationship, check_relationship.
  destruct (Schema.assoc Schema.RELATIONSHIP_TYPES rel_type) as [sch|]; auto.
  intros [H|[H|H]].
  - now rewrite (str_in_false _ _ H).
  - rewrite (str_in_false _ _ H). now rewrite orb_true_r.
  - destruct (negb _ || negb _); auto. now rewrite forallb_str_in_false.
Qed.

(** The four validating methods fail fast: on input that the schema
    refuses they raise [ValueError] and issue no statement. *)
Lemma validating_methods_fail_fast (st : store) :
  (forall label properties,
      bad_node label properties ->
      create_node st label properties = (st, raise ValueError)
      /\ merge_node st label properties = (st, raise ValueError))
  /\ (forall from_label to_label rel_type from_props to_props rel_props,
      bad_relationship from_label to_label rel_type (or_empty rel_props) ->
      create_relationship st from_label to_label rel_type from_props to_props
        rel_props = (st, raise ValueError)
      /\ merge_relationship st from_label to_label rel_type from_props
           to_props rel_props = (st, raise ValueError)).
Proof.
  split.
  - intros label properties H. unfold create_node, merge_node.
    now rewrite (check_node_refuses _ _ H).
  - intros fl tl rt fp tp rp H. unfold create_relationship, merge_relationship.
    now rewrite (check_relationship_refuses _ _ _ _ H).
Qed.

(** [update_node] has no such check: whatever the label and the
    properties, the statement goes to the store. *)
Lemma update_node_always_runs st label match_props update_props :
  exists c, update_node st label match_props update_props = (st ++ [c], ret tt).
Proof. unfold update_node, run. eauto. Qed.

(** C4 at the failing input: the label ["Alien"] is not in the schema and
    ["foo"] is not a property of ["Person"]; [create_node] refuses both
    with [ValueError] and leaves the store alone, [update_node] sends both
    to the store. *)
Theorem update_node_is_not_validated :
  bad_node "Alien" [("id", VStr "a1")]
  /\ bad_node "Person" [("foo", VStr "bar")]
  /\ create_node [] "Alien" [("id", VStr "a1")] = ([], raise ValueError)
  /\ create_node [] "Person" [("id", VStr "p2"); ("foo", VStr "bar")]
     = ([], raise ValueError)
  /\ update_node [] "Alien" [("id", VStr "a1")] [("name", VStr "x")]
     = ([RunUpdateNode "Alien" ["id"] ["name"]
           [("id", VStr "a1"); ("update_name", VStr "x")]], ret tt)
  /\ update_node [] "Person" [("id", VStr "p2")] [("foo", VStr "bar")]
     = ([RunUpdateNode "Person" ["id"] ["foo"]
           [("id", VStr "p2"); ("update_foo", VStr "bar")]], ret tt).
Proof.
  split; [exact I|]. split.
  - exists "foo". split; [now left|].
    vm_compute. intros H. repeat (destruct H as [H|H]; [discriminate|]).
    exact H.
  - repeat split; reflexivity.
Qed.

End Neo4jWrapperFacts.

(** ** Entity resolution: the order of the strategies *)

Module ResolveFacts.

Import Py Graph EntityResolution.

Lemma node_always_truthy (n : node) : node_truthy n = true.
Proof. reflexivity. Qed.

Lemma hit_id (m : option node) : hit m = m.
Proof. now destruct m. Qed.

Section Priority.

Context (extractBests : value -> list value -> Z -> nat -> exc (list (value * Z)))
        {Vec : Type} (get_embedding : value -> exc Vec)
        {Vdb : Type} (vdb_search : Vdb -> string -> Vec -> Z -> exc (list vhit))
        (self : engine).

Local Abbreviation by_identifiers := _match_by_identifiers.
Local Abbreviation by_fuzzy_name := (_match_by_fuzzy_name extractBests self).
Local Abbreviation by_embedding :=
  (_match_by_embedding Vec get_embedding Vdb vdb_search self).
Local Abbreviation by_relationships := _match_by_relationships.
Local Abbreviation resolve :=
  (resolve_entity extractBests Vec get_embedding Vdb vdb_search self).

(** C1. [resolve_entity] tries the identifier, fuzzy-name, embedding and
    relationship-overlap strategies in this order and returns the result
    of the first one that returns a node: a hit of the identifier strategy
    is returned whatever the later strategies would find; a later
    strategy's hit is returned when all the earlier ones returned [None];
    and when all four return [None] the result is [None]. *)
Theorem resolve_entity_priority (g : graph) (vdb : Vdb) (entity_data : dict)
    (entity_type : string) :
  (forall e,
      by_identifiers g entity_data entity_type = ret (Some e) ->
      resolve g vdb entity_data entity_type = ret (Some e))
  /\ (forall e,
      by_identifiers g entity_data entity_type = ret None ->
      by_fuzzy_name g entity_data entity_type = ret (Some e) ->
      resolve g vdb entity_data entity_type = ret (Some e))
  /\ (forall e,
      by_identifiers g entity_data entity_type = ret None ->
      by_fuzzy_name g entity_data entity_type = ret None ->
      by_embedding g vdb entity_data entity_type = ret (Some e) ->
      resolve g vdb entity_data entity_type = ret (Some e))
  /\ (forall e,
      by_identifiers g entity_data entity_type = ret None ->
      by_fuzzy_name g entity_data entity_type = ret None ->
      by_embedding g vdb entity_data entity_type = ret None ->
      by_relationships g entity_data entity_type = ret (Some e) ->
      resolve g vdb entity_data entity_type = ret (Some e))
  /\ (by_identifiers g entity_data entity_type = ret None ->
      by_fuzzy_name g entity_data entity_type = ret None ->
      by_embedding g vdb entity_data entity_type = ret None ->
      by_relationships g entity_data entity_type = ret None ->
      resolve g vdb entity_data entity_type = ret None).
Proof.
  unfold resolve_entity.
  repeat split; intros.
  all: repeat match goal with
         | H : _ = ret _ |- _ => rewrite H; clear H; cbn [bind ret hit]
         end.
  all: rewrite ?node_always_truthy; reflexivity.
Qed.

End Priority.

(** *** A store with two people and stand-ins for the collaborators *)

(** A matcher that scores an equal string 100 and anything else 0. *)
Definition exact_extractBests (query : value) (choices : list value)
    (score_cutoff : Z) (limit : nat) : exc (list (value * Z)) :=
  ret (take limit
         (flat_map (fun c =>
            if value_eqb c query && (score_cutoff <=? 100)
            then [(c, 100)] else []) choices)).

(** An embedding service that knows one vector, a vector store that is
    the list of its rows, and a clock-free date parser. *)
Definition unit_embedding (text : value) : exc unit := ret tt.

Definition list_search (vdb : list vhit) (collection : string) (v : unit)
    (limit : Z) : exc (list vhit) :=
  ret (take (Z.to_nat limit) vdb).

Definition list_upsert (vdb : list vhit) (collection id : string) (v : unit)
    (payload : dict) : list vhit * exc unit :=
  (vdb ++ [mkVhit 1 payload], ret tt).

Definition no_dates (s : string) : option Z := None.

Definition default_engine : engine := mkEngine (85 # 100) 85.

Definition alice : node :=
  mkNode "p1" ["Person"]
    [("name", VStr "Alice Smith"); ("email", VStr "alice@x.com")].

Definition alicia : node :=
  mkNode "p2" ["Person"] [("name", VStr "Alicia")].

Definition two_people : graph := mkGraph [alice; alicia] [].

(** The candidate carries Alice's e-mail and Alicia's name. *)
Definition candidate : dict :=
  [("name", VStr "Alicia"); ("email", VStr "alice@x.com")].

Lemma resolve_entity_priority_witness :
  _match_by_fuzzy_name exact_extractBests default_engine two_people candidate
    "Person" = ret (Some alicia)
  /\ resolve_entity exact_extractBests unit unit_embedding (list vhit)
       list_search default_engine two_people [] candidate "Person"
     = ret (Some alice).
Proof.
  split; [reflexivity|].
  apply (proj1 (resolve_entity_priority exact_extractBests unit_embedding
                  list_search default_engine two_people [] candidate "Person")).
  reflexivity.
Defined.

End ResolveFacts.

(** ** Merging: the transfer of relationships *)

Module TransferFacts.

Import Py Graph EntityResolution.

(** A relationship of type [ty] from [a] to [b]. *)
Definition same_edge (a ty b : string) (r : rel) : bool :=
  String.eqb (r_type r) ty && String.eqb (r_src r) a && String.eqb (r_dst r) b.

Definition count_edges (rels : list rel) (a ty b : string) : nat :=
  length (List.filter (same_edge a ty b) rels).

(** What one turn of a transfer loop asks for: an edge and its properties. *)
Definition edge : Type := (string * string * string * dict)%type.

Definition add_edge (rels : list rel) (it : edge) : list rel :=
  let '(a, ty, b, props) := it in
  if (0 <? count_edges rels a ty b)%nat then rels
  else rels ++ [mkRel ty a b props].

(** The store invariants the engine relies on: ids are unique and every
    relationship joins two nodes of the store. *)
Definition unique_ids (g : graph) : Prop := List.NoDup (map n_id (g_nodes g)).

Definition no_dangling (g : graph) : Prop :=
  forall r, In r (g_rels g) ->
    present g (r_src r) = true /\ present g (r_dst r) = true.

Lemma count_edges_app rels rels' a ty b :
  count_edges (rels ++ rels') a ty b
  = (count_edges rels a ty b + count_edges rels' a ty b)%nat.
Proof. unfold count_edges. now rewrite List.filter_app, length_app. Qed.

Lemma count_edges_pos rels a ty b :
  (0 < count_edges rels a ty b)%nat <->
  exists r, In r rels /\ r_src r = a /\ r_type r = ty /\ r_dst r = b.
Proof.
  unfold count_edges. split.
  - intros H. destruct (List.filter (same_edge a ty b) rels) as [|r l] eqn:E;
      [simpl in H; lia|].
    assert (Hin : In r (List.filter (same_edge a ty b) rels))
      by (rewrite E; now left).
    apply List.filter_In in Hin as [Hin Hs]. unfold same_edge in Hs.
    apply andb_prop in Hs as [Hs Hd]. apply andb_prop in Hs as [Ht Hs].
    apply String.eqb_eq in Ht, Hs, Hd. eauto.
  - intros (r & Hin & Hs & Ht & Hd).
    assert (Hf : In r (List.filter (same_edge a ty b) rels)).
    { apply List.filter_In. split; auto. unfold same_edge.
      subst. now rewrite !String.eqb_refl. }
    destruct (List.filter (same_edge a ty b) rels); [contradiction|simpl; lia].
Qed.

Lemma add_edge_prefix rels it : exists extra, add_edge rels it = rels ++ extra.
Proof.
  destruct it as [[[a ty] b] props]. unfold add_edge.
  destruct (0 <? count_edges rels a ty b)%nat.
  - exists []. now rewrite app_nil_r.
  - eauto.
Qed.

Lemma fold_add_edge_prefix items : forall rels,
  exists extra, fold_left add_edge items rels = rels ++ extra.
Proof.
  induction items as [|it items IH]; intros rels; simpl.
  - exists []. now rewrite app_nil_r.
  - destruct (add_edge_prefix rels it) as [x Hx].
    destruct (IH (add_edge rels it)) as [y Hy].
    exists (x ++ y). now rewrite Hy, Hx, app_assoc.
Qed.

Lemma add_edge_present rels a ty b props :
  (0 < count_edges (add_edge rels (a, ty, b, props)) a ty b)%nat.
Proof.
  unfold add_edge.
  destruct (Nat.ltb_spec 0 (count_edges rels a ty b)); auto.
  rewrite count_edges_app. unfold count_edges at 2, same_edge. simpl.
  rewrite !String.eqb_refl. simpl. lia.
Qed.

Lemma add_edge_bound rels it a ty b :
  (count_edges (add_edge rels it) a ty b
   <= Nat.max (count_edges rels a ty b) 1)%nat.
Proof.
  destruct it as [[[a' ty'] b'] props]. unfold add_edge.
  destruct (Nat.ltb_spec 0 (count_edges rels a' ty' b')); [lia|].
  rewrite count_edges_app. unfold count_edges at 2. simpl.
  destruct (same_edge a ty b (mkRel ty' a' b' props)) eqn:E; simpl; [|lia].
  unfold same_edge in E. simpl in E.
  apply andb_prop in E as [E Hd]. apply andb_prop in E as [Ht Hs].
  apply String.eqb_eq in Ht, Hs, Hd. subst. lia.
Qed.

(** After the loop every requested edge is there. *)
Lemma fold_add_edge_present items : forall rels a ty b props,
  In (a, ty, b, props) items ->
  (0 < count_edges (fold_left add_edge items rels) a ty b)%nat.
Proof.
  induction items as [|it items IH]; intros rels a ty b props Hin;
    [contradiction|]. simpl. destruct Hin as [->|Hin].
  - destruct (fold_add_edge_prefix items (add_edge rels (a, ty, b, props)))
      as [x ->].
    rewrite count_edges_app. pose proof (add_edge_present rels a ty b props).
    lia.
  - eauto.
Qed.

(** The loop never makes a second edge where there is one. *)
Lemma fold_add_edge_bound items : forall rels a ty b,
  (count_edges (fold_left add_edge items rels) a ty b
   <= Nat.max (count_edges rels a ty b) 1)%nat.
Proof.
  induction items as [|it items IH]; intros rels a ty b; simpl; [lia|].
  pose proof (IH (add_edge rels it) a ty b).
  pose proof (add_edge_bound rels it a ty b). lia.
Qed.

(** *** From the Cypher statements to [add_edge] *)

Lemma prop_is_id (n : node) (a : string) :
  prop_is n "id" (VStr a) = String.eqb (n_id n) a.
Proof. reflexivity. Qed.

Lemma find_node_id g a n : find_node g a = Some n -> n_id n = a.
Proof.
  unfold find_node. intros H. apply List.find_some in H as [_ H].
  now apply String.eqb_eq.
Qed.

Lemma find_node_In g a n : find_node g a = Some n -> In n (g_nodes g).
Proof. unfold find_node. intros H. now apply List.find_some in H. Qed.

Lemma filter_unique (f : node -> bool) (a : string) (ns : list node) n :
  List.NoDup (map n_id ns) ->
  List.find (fun n => String.eqb (n_id n) a) ns = Some n ->
  List.filter (fun n => f n && String.eqb (n_id n) a) ns
  = if f n then [n] else [].
Proof.
  induction ns as [|m ns IH]; simpl; [discriminate|].
  intros Hnd Hf. apply List.NoDup_cons_iff in Hnd as [Hnot Hnd].
  destruct (String.eqb (n_id m) a) eqn:E.
  - invert Hf. apply String.eqb_eq in E.
    assert (Hrest : List.filter (fun n0 => f n0 && String.eqb (n_id n0) a) ns
                    = []).
    { clear IH. induction ns as [|x ns IHn]; simpl; auto.
      simpl in Hnot. apply List.NoDup_cons_iff in Hnd as [_ Hnd].
      destruct (String.eqb (n_id x) a) eqn:Ex.
      - apply String.eqb_eq in Ex. exfalso. apply Hnot. left. congruence.
      - rewrite andb_false_r. apply IHn; auto. }
    rewrite Hrest, andb_true_r. now destruct (f n).
  - rewrite andb_false_r. auto.
Qed.

Lemma match_by_id_one g ty a :
  unique_ids g -> labelled g ty a = true ->
  length (match_by_id g ty (VStr a)) = 1%nat.
Proof.
  unfold unique_ids, labelled, match_by_id. intros Hnd Hl.
  destruct (find_node g a) as [n|] eqn:F; [|discriminate].
  erewrite List.filter_ext; [|intros x; rewrite prop_is_id; reflexivity].
  rewrite (filter_unique (has_label ty) a _ n Hnd F). now rewrite Hl.
Qed.

Lemma match_any_by_id_one g a :
  unique_ids g -> present g a = true ->
  length (match_any_by_id g (VStr a)) = 1%nat.
Proof.
  unfold unique_ids, present, match_any_by_id. intros Hnd Hp.
  destruct (find_node g a) as [n|] eqn:F; [|discriminate].
  erewrite List.filter_ext;
    [|intros x; rewrite prop_is_id;
      rewrite <- (andb_true_l (String.eqb (n_id x) a)); reflexivity].
  now rewrite (filter_unique (fun _ => true) a _ n Hnd F).
Qed.

Lemma count_outgoing_edges g ty rt a b :
  labelled g ty a = true -> present g b = true ->
  count_outgoing g ty rt a b = count_edges (g_rels g) a rt b.
Proof.
  intros Hl Hp. unfold count_outgoing, count_edges. f_equal.
  apply List.filter_ext. intros r. unfold same_edge.
  now rewrite Hl, Hp, !andb_true_r.
Qed.

Lemma count_incoming_edges g ty rt a b :
  present g a = true -> labelled g ty b = true ->
  count_incoming g ty rt a b = count_edges (g_rels g) a rt b.
Proof.
  intros Hp Hl. unfold count_incoming, count_edges. f_equal.
  apply List.filter_ext. intros r. unfold same_edge.
  now rewrite Hl, Hp, !andb_true_r.
Qed.

Definition outgoing_edge (target_id : string) (row : rel * node) : edge :=
  (target_id, r_type (fst row), n_id (snd row), carried_props (fst row)).

Definition incoming_edge (target_id : string) (row : rel * node) : edge :=
  (n_id (snd row), r_type (fst row), target_id, carried_props (fst row)).

Lemma transfer_outgoing_add_edge ty t g row :
  unique_ids g -> labelled g ty t = true ->
  present g (n_id (snd row)) = true ->
  transfer_outgoing ty t g row
  = mkGraph (g_nodes g) (add_edge (g_rels g) (outgoing_edge t row)).
Proof.
  intros Hu Hl Hp. unfold transfer_outgoing, outgoing_edge, add_edge.
  rewrite (count_outgoing_edges _ _ _ _ _ Hl Hp).
  destruct (0 <? count_edges (g_rels g) t (r_type (fst row)) (n_id (snd row)))%nat;
    simpl; [now destruct g|].
  unfold create_outgoing.
  now rewrite (match_by_id_one _ _ _ Hu Hl), (match_any_by_id_one _ _ Hu Hp).
Qed.

Lemma transfer_incoming_add_edge ty t g row :
  unique_ids g -> labelled g ty t = true ->
  present g (n_id (snd row)) = true ->
  transfer_incoming ty t g row
  = mkGraph (g_nodes g) (add_edge (g_rels g) (incoming_edge t row)).
Proof.
  intros Hu Hl Hp. unfold transfer_incoming, incoming_edge, add_edge.
  rewrite (count_incoming_edges _ _ _ _ _ Hp Hl).
  destruct (0 <? count_edges (g_rels g) (n_id (snd row)) (r_type (fst row)) t)%nat;
    simpl; [now destruct g|].
  unfold create_incoming.
  now rewrite (match_by_id_one _ _ _ Hu Hl), (match_any_by_id_one _ _ Hu Hp).
Qed.

(** The loops only add relationships: the nodes stay, and with them the
    answers of [labelled] and [present]. *)
Lemma fold_transfer_outgoing ty t rows : forall ns rels,
  List.NoDup (map n_id ns) ->
  labelled (mkGraph ns rels) ty t = true ->
  (forall row, In row rows -> present (mkGraph ns rels) (n_id (snd row)) = true) ->
  fold_left (transfer_outgoing ty t) rows (mkGraph ns rels)
  = mkGraph ns (fold_left add_edge (map (outgoing_edge t) rows) rels).
Proof.
  induction rows as [|row rows IH]; intros ns rels Hu Hl Hp; simpl; auto.
  rewrite transfer_outgoing_add_edge; auto; [|apply Hp; now left].
  simpl. apply IH; auto. intros row' Hin. apply (Hp row'). now right.
Qed.

Lemma fold_transfer_incoming ty t rows : forall ns rels,
  List.NoDup (map n_id ns) ->
  labelled (mkGraph ns rels) ty t = true ->
  (forall row, In row rows -> present (mkGraph ns rels) (n_id (snd row)) = true) ->
  fold_left (transfer_incoming ty t) rows (mkGraph ns rels)
  = mkGraph ns (fold_left add_edge (map (incoming_edge t) rows) rels).
Proof.
  induction rows as [|row rows IH]; intros ns rels Hu Hl Hp; simpl; auto.
  rewrite transfer_incoming_add_edge; auto; [|apply Hp; now left].
  simpl. apply IH; auto. intros row' Hin. apply (Hp row'). now right.
Qed.

Lemma outgoing_row g ty s r :
  In r (g_rels g) -> r_src r = s -> labelled g ty s = true ->
  present g (r_dst r) = true ->
  exists target, In (r, target) (outgoing_rels g ty s)
                 /\ n_id target = r_dst r.
Proof.
  intros Hin Hs Hl Hp. unfold present in Hp.
  destruct (find_node g (r_dst r)) as [target|] eqn:F; [|discriminate].
  exists target. split; [|eapply find_node_id; eauto].
  unfold outgoing_rels. apply in_flat_map. exists r. split; auto.
  rewrite Hs, String.eqb_refl, Hl, F. now left.
Qed.

Lemma incoming_row g ty s r :
  In r (g_rels g) -> r_dst r = s -> labelled g ty s = true ->
  present g (r_src r) = true ->
  exists source, In (r, source) (incoming_rels g ty s)
                 /\ n_id source = r_src r.
Proof.
  intros Hin Hs Hl Hp. unfold present in Hp.
  destruct (find_node g (r_src r)) as [source|] eqn:F; [|discriminate].
  exists source. split; [|eapply find_node_id; eauto].
  unfold incoming_rels. apply in_flat_map. exists r. split; auto.
  rewrite Hs, String.eqb_refl, Hl, F. now left.
Qed.

Lemma outgoing_rows_present g ty s row :
  In row (outgoing_rels g ty s) -> present g (n_id (snd row)) = true.
Proof.
  unfold outgoing_rels. intros H. apply in_flat_map in H as (r & _ & H).
  destruct (String.eqb (r_src r) s && labelled g ty (r_src r)); [|contradiction].
  destruct (find_node g (r_dst r)) as [n|] eqn:F; [|contradiction].
  destruct H as [<-|[]]. simpl. unfold present.
  now rewrite (find_node_id _ _ _ F), F.
Qed.

Lemma incoming_rows_present g ty s row :
  In row (incoming_rels g ty s) -> present g (n_id (snd row)) = true.
Proof.
  unfold incoming_rels. intros H. apply in_flat_map in H as (r & _ & H).
  destruct (String.eqb (r_dst r) s && labelled g ty (r_dst r)); [|contradiction].
  destruct (find_node g (r_src r)) as [n|] eqn:F; [|contradiction].
  destruct H as [<-|[]]. simpl. unfold present.
  now rewrite (find_node_id _ _ _ F), F.
Qed.

(** [_transfer_relationships] as two runs of [add_edge]. *)
Lemma transfer_relationships_edges ns rels s t ty :
  List.NoDup (map n_id ns) ->
  labelled (mkGraph ns rels) ty t = true ->
  _transfer_relationships (mkGraph ns rels) s t ty
  = mkGraph ns
      (fold_left add_edge
         (map (incoming_edge t) (incoming_rels (mkGraph ns rels) ty s))
         (fold_left add_edge
            (map (outgoing_edge t) (outgoing_rels (mkGraph ns rels) ty s))
            rels)).
Proof.
  intros Hu Hl. unfold _transfer_relationships.
  rewrite fold_transfer_outgoing; auto;
    [|intros row; apply outgoing_rows_present].
  rewrite fold_transfer_incoming; auto.
  intros row Hin. apply incoming_rows_present in Hin. exact Hin.
Qed.

(** The transfer on a well-formed store: nothing is removed, every
    relationship of the source has its counterpart at the target, and no
    edge (same ends, same type) is made twice. *)
Lemma transfer_relationships_spec g s t ty :
  unique_ids g -> no_dangling g ->
  labelled g ty s = true -> labelled g ty t = true ->
  let g' := _transfer_relationships g s t ty in
  g_nodes g' = g_nodes g
  /\ (exists extra, g_rels g' = g_rels g ++ extra)
  /\ (forall r, In r (g_rels g) -> r_src r = s ->
        (0 < count_edges (g_rels g') t (r_type r) (r_dst r))%nat)
  /\ (forall r, In r (g_rels g) -> r_dst r = s ->
        (0 < count_edges (g_rels g') (r_src r) (r_type r) t)%nat)
  /\ (forall a rt b,
        (count_edges (g_rels g') a rt b
         <= Nat.max (count_edges (g_rels g) a rt b) 1)%nat).
Proof.
  destruct g as [ns rels]. intros Hu Hd Hs Ht. cbv zeta.
  rewrite transfer_relationships_edges; auto. simpl.
  set (outs := map (outgoing_edge t) (outgoing_rels (mkGraph ns rels) ty s)).
  set (ins := map (incoming_edge t) (incoming_rels (mkGraph ns rels) ty s)).
  destruct (fold_add_edge_prefix outs rels) as [x Hx].
  destruct (fold_add_edge_prefix ins (fold_left add_edge outs rels)) as [y Hy].
  split; [reflexivity|]. split; [|split; [|split]].
  - exists (x ++ y). now rewrite Hy, Hx, app_assoc.
  - intros r Hin Hsrc. destruct (Hd r Hin) as [_ Hp].
    destruct (outgoing_row (mkGraph ns rels) ty s r Hin Hsrc Hs Hp) as (target & Hrow & Hid).
    rewrite Hy, count_edges_app.
    assert (0 < count_edges (fold_left add_edge outs rels) t (r_type r) (r_dst r))%nat;
      [|lia].
    apply fold_add_edge_present with (props := carried_props r).
    subst outs. apply in_map_iff. exists (r, target). split; auto.
    unfold outgoing_edge. simpl. now rewrite Hid.
  - intros r Hin Hdst. destruct (Hd r Hin) as [Hp _].
    destruct (incoming_row (mkGraph ns rels) ty s r Hin Hdst Hs Hp) as (source & Hrow & Hid).
    apply fold_add_edge_present with (props := carried_props r).
    subst ins. apply in_map_iff. exists (r, source). split; auto.
    unfold incoming_edge. simpl. now rewrite Hid.
  - intros a rt b.
    pose proof (fold_add_edge_bound ins (fold_left add_edge outs rels) a rt b).
    pose proof (fold_add_edge_bound outs rels a rt b). lia.
Qed.

End TransferFacts.

(** ** Merging two entities *)

Module MergeFacts.

Import Py Graph EntityResolution TransferFacts.

(** *** Writes that keep the identity of a node *)

Definition no_id (d : dict) : Prop := Forall (fun kv => fst kv <> "id") d.

Lemma set_prop_keeps n k v :
  k <> "id" ->
  n_id (set_prop n k v) = n_id n /\ n_labels (set_prop n k v) = n_labels n.
Proof.
  intros Hk. unfold set_prop.
  destruct (String.eqb_spec k "id"); [contradiction|].
  now destruct v.
Qed.

Lemma set_props_keeps props : forall n,
  no_id props ->
  n_id (set_props n props) = n_id n
  /\ n_labels (set_props n props) = n_labels n.
Proof.
  unfold set_props. induction props as [|[k v] props IH]; intros n H; simpl; auto.
  invert H. simpl in *.
  destruct (IH (set_prop n k v)) as [Hi Hl]; auto.
  destruct (set_prop_keeps n k v) as [Hi' Hl']; auto.
  rewrite Hi, Hl. auto.
Qed.

Section Keeps.

Variable f : node -> node.
Hypothesis f_keeps : forall n, n_id (f n) = n_id n /\ n_labels (f n) = n_labels n.

Lemma map_keeps_ids ns : map n_id (map f ns) = map n_id ns.
Proof.
  rewrite map_map. apply map_ext. intros n. apply f_keeps.
Qed.

Lemma find_map_keeps ns a :
  List.find (fun n => String.eqb (n_id n) a) (map f ns)
  = option_map f (List.find (fun n => String.eqb (n_id n) a) ns).
Proof.
  induction ns as [|n ns IH]; simpl; auto.
  destruct (f_keeps n) as [-> _].
  now destruct (String.eqb (n_id n) a).
Qed.

Lemma labelled_map_keeps ns rels rels' ty a :
  labelled (mkGraph (map f ns) rels') ty a = labelled (mkGraph ns rels) ty a.
Proof.
  unfold labelled, find_node. simpl. rewrite find_map_keeps.
  destruct (List.find _ ns) as [n|]; simpl; auto.
  unfold has_label. now destruct (f_keeps n) as [_ ->].
Qed.

Lemma present_map_keeps ns rels rels' a :
  present (mkGraph (map f ns) rels') a = present (mkGraph ns rels) a.
Proof.
  unfold present, find_node. simpl. rewrite find_map_keeps.
  now destruct (List.find _ ns).
Qed.

End Keeps.

Lemma update_by_id_keeps g ty v props :
  no_id props ->
  let g' := update_by_id g ty v props in
  g_rels g' = g_rels g
  /\ map n_id (g_nodes g') = map n_id (g_nodes g)
  /\ (forall ty' a, labelled g' ty' a = labelled g ty' a)
  /\ (forall a, present g' a = present g a).
Proof.
  intros Hp. destruct g as [ns rels]. cbv zeta. unfold update_by_id. simpl.
  set (f := fun n => if has_label ty n && prop_is n "id" v
                     then set_props n props else n).
  assert (Hf : forall n, n_id (f n) = n_id n /\ n_labels (f n) = n_labels n).
  { intros n. unfold f. destruct (has_label ty n && prop_is n "id" v); auto.
    now apply set_props_keeps. }
  split; [reflexivity|]. split; [now apply map_keeps_ids|]. split.
  - intros ty' a. now apply labelled_map_keeps.
  - intros a. now apply present_map_keeps.
Qed.

(** *** [_merge_properties] never writes an [id] *)

Lemma no_id_set d k v : no_id d -> k <> "id" -> no_id (dict_set d k v).
Proof.
  unfold no_id. induction d as [|[k' v'] d IH]; simpl; intros Hd Hk.
  - constructor; auto.
  - invert Hd. destruct (String.eqb k' k); constructor; auto.
Qed.

Lemma reserved_false key : reserved key = false -> key <> "id".
Proof.
  unfold reserved, str_in. simpl. intros H ->. discriminate.
Qed.

Section WithDates.

Variable fromisoformat : string -> option Z.

Lemma merge_key_no_id source strat merged key v merged' :
  no_id merged ->
  merge_key fromisoformat source strat merged key v = ret merged' ->
  no_id merged'.
Proof.
  unfold merge_key. intros Hm.
  destruct (reserved key) eqn:R; [intros H; now invert H|].
  apply reserved_false in R.
  destruct (dict_get merged key) as [current|];
    [|intros H; invert H; now apply no_id_set].
  destruct strat; try (intros H; invert H; auto using no_id_set; fail).
  destruct (endswith key "_at" || String.eqb key "timestamp").
  - destruct (truthy _ && truthy current); [|intros H; now invert H].
    destruct (to_date fromisoformat _) as [|sd]; [discriminate|].
    destruct (to_date fromisoformat current) as [|td]; [discriminate|].
    cbn [bind]. destruct (py_gt sd td) as [|newer]; [discriminate|].
    cbn [bind]. intros H. invert H. now apply no_id_set.
  - destruct (String.eqb key "confidence").
    + destruct (py_max v current) as [|m]; [discriminate|].
      cbn [bind]. intros H. invert H. now apply no_id_set.
    + destruct (negb (truthy current) && truthy v); intros H; invert H;
        auto using no_id_set.
Qed.

Lemma merge_keys_no_id source strat items : forall merged merged',
  no_id merged ->
  merge_keys fromisoformat source strat merged items = ret merged' ->
  no_id merged'.
Proof.
  induction items as [|[key v] items IH]; intros merged merged' Hm; simpl.
  - intros H. now invert H.
  - destruct (merge_key fromisoformat source strat merged key v) as [|m] eqn:E;
      [discriminate|]. cbn [bind].
    apply IH. eapply merge_key_no_id; eauto.
Qed.

Lemma unreserved_no_id (target : dict) : forall acc,
  no_id acc ->
  no_id (fold_left (fun m kv =>
                      if reserved (fst kv) then m
                      else dict_set m (fst kv) (snd kv)) target acc).
Proof.
  induction target as [|[k v] target IH]; intros acc Hacc; simpl; auto.
  apply IH. destruct (reserved k) eqn:R; auto.
  apply no_id_set; auto. now apply reserved_false.
Qed.

Lemma merge_properties_no_id source target strat props :
  _merge_properties fromisoformat source target strat = ret props ->
  no_id props.
Proof.
  unfold _merge_properties.
  pose proof (unreserved_no_id target [] (List.Forall_nil _)) as H0.
  destruct (merge_keys fromisoformat source strat _ source) as [|m] eqn:E;
    [discriminate|]. cbn [bind].
  destruct (next_merged_count target) as [|c]; [discriminate|]. cbn [bind].
  intros H. invert H. apply no_id_set; [|discriminate].
  eapply merge_keys_no_id; eauto.
Qed.

End WithDates.

Lemma fold_transfer_outgoing_nodes ty t rows : forall g,
  g_nodes (fold_left (transfer_outgoing ty t) rows g) = g_nodes g.
Proof.
  induction rows as [|row rows IH]; intros g; simpl; auto.
  rewrite IH. unfold transfer_outgoing. now destruct (negb _).
Qed.

Lemma fold_transfer_incoming_nodes ty t rows : forall g,
  g_nodes (fold_left (transfer_incoming ty t) rows g) = g_nodes g.
Proof.
  induction rows as [|row rows IH]; intros g; simpl; auto.
  rewrite IH. unfold transfer_incoming. now destruct (negb _).
Qed.

Lemma transfer_relationships_nodes g s t ty :
  g_nodes (_transfer_relationships g s t ty) = g_nodes g.
Proof.
  unfold _transfer_relationships.
  now rewrite fold_transfer_incoming_nodes, fold_transfer_outgoing_nodes.
Qed.

Lemma merged_mark_no_id t at' :
  no_id [("merged", VBool true); ("merged_into", VStr t); ("merged_at", VStr at')].
Proof. repeat constructor; discriminate. Qed.

Lemma found_labelled g ty a n rest :
  unique_ids g -> match_by_id g ty (VStr a) = n :: rest ->
  labelled g ty a = true.
Proof.
  unfold unique_ids, match_by_id, labelled, find_node. intros Hu Hm.
  assert (Hin : In n (List.filter (fun n => has_label ty n && prop_is n "id" (VStr a))
                        (g_nodes g))) by (rewrite Hm; now left).
  apply List.filter_In in Hin as [Hin Hc]. rewrite prop_is_id in Hc.
  apply andb_prop in Hc as [Hl Hi].
  destruct (List.find _ (g_nodes g)) as [m|] eqn:F.
  - apply List.find_some in F as [Hm' Hi'].
    apply String.eqb_eq in Hi, Hi'.
    assert (m = n); [|now subst].
    clear - Hu Hin Hm' Hi Hi'. induction (g_nodes g) as [|x ns IH]; [contradiction|].
    simpl in Hu. apply List.NoDup_cons_iff in Hu as [Hnot Hu].
    destruct Hin as [->|Hin], Hm' as [->|Hm']; auto.
    + exfalso. apply Hnot. apply in_map_iff. exists m. split; [congruence|auto].
    + exfalso. apply Hnot. apply in_map_iff. exists n. split; [congruence|auto].
  - exfalso. eapply List.find_none in F; eauto. simpl in F. congruence.
Qed.

Section Merge.

Context {Vec : Type} (get_embedding : value -> exc Vec)
        {Vdb : Type}
        (vdb_upsert : Vdb -> string -> string -> Vec -> dict -> Vdb * exc unit)
        (fromisoformat : string -> option Z).

Local Abbreviation merge :=
  (merge_entities Vec get_embedding Vdb vdb_upsert fromisoformat).

(** A merge that returns has found both nodes, merged their properties,
    and left the graph of the three writes. *)
Lemma merge_entities_graph g vdb merged_at s t ty strat g' vdb' e :
  merge g vdb merged_at s t ty strat = (g', vdb', ret e) ->
  exists src rest1 tgt rest2 props,
    match_by_id g ty (VStr s) = src :: rest1
    /\ match_by_id g ty (VStr t) = tgt :: rest2
    /\ _merge_properties fromisoformat (node_items src) (node_items tgt) strat
       = ret props
    /\ g' = mark_merged
              (_transfer_relationships (update_by_id g ty (VStr t) props) s t ty)
              ty s t merged_at.
Proof.
  unfold merge_entities.
  destruct (match_by_id g ty (VStr s)) as [|src rest1]; [discriminate|].
  destruct (match_by_id g ty (VStr t)) as [|tgt rest2]; [discriminate|].
  destruct (_merge_properties _ _ _ _) as [|props] eqn:Em; [discriminate|].
  destruct (_update_entity_embedding _ _ _ _ _ _ _ _) as [vdb2 [|u]];
    [discriminate|].
  destruct (match_by_id _ ty (VStr t)) as [|e' rest]; [discriminate|].
  intros H. invert H. exists src, rest1, tgt, rest2, props. auto.
Qed.

(** C5. After [merge_entities(A, B, type)] has returned on a store with
    unique ids and no dangling relationship, every relationship that left
    [A] has a counterpart leaving [B] with the same type and the same
    target, every relationship that entered [A] has a counterpart entering
    [B] with the same type and the same source, and no duplicate is made:
    where [B] already had a relationship of that type with that other end
    their number is unchanged, and no edge at all is made twice. *)
Theorem merge_entities_transfers_relationships
    g vdb merged_at s t ty strat g' vdb' e :
  unique_ids g -> no_dangling g ->
  merge g vdb merged_at s t ty strat = (g', vdb', ret e) ->
  (forall r, In r (g_rels g) -> r_src r = s ->
     exists r', In r' (g_rels g') /\ r_src r' = t
                /\ r_type r' = r_type r /\ r_dst r' = r_dst r)
  /\ (forall r, In r (g_rels g) -> r_dst r = s ->
     exists r', In r' (g_rels g') /\ r_src r' = r_src r
                /\ r_type r' = r_type r /\ r_dst r' = t)
  /\ (forall rt x, (0 < count_edges (g_rels g) t rt x)%nat ->
     count_edges (g_rels g') t rt x = count_edges (g_rels g) t rt x)
  /\ (forall rt x, (0 < count_edges (g_rels g) x rt t)%nat ->
     count_edges (g_rels g') x rt t = count_edges (g_rels g) x rt t)
  /\ (forall a rt b,
     (count_edges (g_rels g') a rt b
      <= Nat.max (count_edges (g_rels g) a rt b) 1)%nat).
Proof.
  intros Hu Hd Hm.
  apply merge_entities_graph in Hm
    as (src & rest1 & tgt & rest2 & props & Hs & Ht & Hp & ->).
  apply merge_properties_no_id in Hp.
  pose proof (found_labelled _ _ _ _ _ Hu Hs) as Hls.
  pose proof (found_labelled _ _ _ _ _ Hu Ht) as Hlt.
  destruct (update_by_id_keeps g ty (VStr t) props Hp) as (Hr & Hi & Hl & Hpr).
  set (g1 := update_by_id g ty (VStr t) props) in *.
  assert (Hu1 : unique_ids g1) by (unfold unique_ids; now rewrite Hi).
  assert (Hd1 : no_dangling g1).
  { intros r Hin. rewrite Hr in Hin. rewrite !Hpr. now apply Hd. }
  destruct (transfer_relationships_spec g1 s t ty Hu1 Hd1)
    as (_ & (extra & Hx) & Hout & Hin & Hb); [now rewrite Hl..|].
  assert (Hrels : g_rels (mark_merged (_transfer_relationships g1 s t ty) ty s t
                            merged_at)
                  = g_rels (_transfer_relationships g1 s t ty)) by reflexivity.
  rewrite Hrels. rewrite Hr in *.
  assert (Hmono : forall a rt b,
             (count_edges (g_rels g) a rt b
              <= count_edges (g_rels (_transfer_relationships g1 s t ty)) a rt b)%nat).
  { intros a rt b. rewrite Hx, count_edges_app. lia. }
  repeat split.
  - intros r Hr' Hsrc. specialize (Hout r Hr' Hsrc).
    apply count_edges_pos in Hout as (r' & ? & ? & ? & ?). exists r'. auto.
  - intros r Hr' Hdst. specialize (Hin r Hr' Hdst).
    apply count_edges_pos in Hin as (r' & ? & ? & ? & ?). exists r'. auto.
  - intros rt x Hpos. specialize (Hb t rt x). specialize (Hmono t rt x). lia.
  - intros rt x Hpos. specialize (Hb x rt t). specialize (Hmono x rt t). lia.
  - apply Hb.
Qed.

End Merge.

(** *** A store with a duplicate person *)

Import ResolveFacts.

(** [A] and [B] are the same person; both wrote message [m1], user [u1]
    knows [A], and [A] is connected to [B]. *)
Definition office : graph :=
  mkGraph
    [ mkNode "A" ["Person"]
        [("name", VStr "Alice A."); ("email", VStr "a@x.com")];
      mkNode "B" ["Person"]
        [("name", VStr "Alice B."); ("email", VStr "b@x.com")];
      mkNode "m1" ["Message"] [("content", VStr "hello")];
      mkNode "u1" ["User"] [("name", VStr "Uma")] ]
    [ mkRel "AUTHORED" "A" "m1" [("channel_id", VStr "c1")];
      mkRel "AUTHORED" "B" "m1" [("channel_id", VStr "c2")];
      mkRel "USER_KNOWS" "u1" "A" [("channels", VStr "mail")];
      mkRel "CONNECTED_TO" "A" "B" [] ].

Definition merged_office : graph * list vhit * exc node :=
  merge_entities unit unit_embedding (list vhit) list_upsert no_dates
    office [] "2026-01-01T00:00:00" "A" "B" "Person" newer_wins.

Lemma office_unique_ids : unique_ids office.
Proof.
  unfold unique_ids. simpl.
  repeat (constructor; [simpl; intuition discriminate|]). constructor.
Qed.

Lemma office_no_dangling : no_dangling office.
Proof.
  intros r Hin. simpl in Hin.
  repeat (destruct Hin as [<-|Hin]; [split; reflexivity|]). contradiction.
Qed.

Lemma merge_entities_transfers_relationships_witness :
  unique_ids office /\ no_dangling office
  /\ g_rels (fst (fst merged_office))
     = g_rels office
       ++ [ mkRel "CONNECTED_TO" "B" "B" [];
            mkRel "USER_KNOWS" "u1" "B" [("channels", VStr "mail")] ]
  /\ count_edges (g_rels (fst (fst merged_office))) "B" "AUTHORED" "m1"
     = count_edges (g_rels office) "B" "AUTHORED" "m1".
Proof.
  split; [exact office_unique_ids|]. split; [exact office_no_dangling|].
  split; [reflexivity|].
  assert (Hm : merged_office
               = (fst (fst merged_office), snd (fst merged_office),
                  ret (mkNode "B" ["Person"]
                         [("name", VStr "Alice B."); ("email", VStr "b@x.com");
                          ("merged_count", VInt 1)])))
    by (vm_compute; reflexivity).
  destruct (merge_entities_transfers_relationships unit_embedding list_upsert
              no_dates office [] "2026-01-01T00:00:00" "A" "B" "Person"
              newer_wins _ _ _ office_unique_ids office_no_dangling Hm)
    as (_ & _ & Hkeep & _).
  apply Hkeep. vm_compute. lia.
Defined.

(** A merge that returns marks the source: every node of the label with
    the id of the source carries [merged = true] and
    [merged_into = target_id], and there is such a node. *)
Lemma merge_entities_marks_source {Vec Vdb : Type}
    (get_embedding : value -> exc Vec)
    (vdb_upsert : Vdb -> string -> string -> Vec -> dict -> Vdb * exc unit)
    (fromisoformat : string -> option Z)
    g vdb merged_at s t ty strat g' vdb' e :
  merge_entities Vec get_embedding Vdb vdb_upsert fromisoformat g vdb
    merged_at s t ty strat = (g', vdb', ret e) ->
  match_by_id g' ty (VStr s) <> []
  /\ forall a, In a (match_by_id g' ty (VStr s)) ->
       dict_get (n_props a) "merged" = Some (VBool true)
       /\ dict_get (n_props a) "merged_into" = Some (VStr t).
Proof.
  intros Hm.
  apply merge_entities_graph in Hm
    as (src & rest1 & tgt & rest2 & props & Hs & Ht & Hp & ->).
  apply merge_properties_no_id in Hp.
  set (g2 := _transfer_relationships (update_by_id g ty (VStr t) props) s t ty).
  set (mark := [("merged", VBool true); ("merged_into", VStr t);
                ("merged_at", VStr merged_at)]).
  set (f := fun n => if has_label ty n && prop_is n "id" (VStr s)
                     then set_props n mark else n).
  assert (Hf : forall n, n_id (f n) = n_id n /\ n_labels (f n) = n_labels n).
  { intros n. unfold f.
    destruct (has_label ty n && prop_is n "id" (VStr s)); [|auto].
    apply set_props_keeps, merged_mark_no_id. }
  assert (Hcond : forall n, has_label ty (f n) && prop_is (f n) "id" (VStr s)
                            = has_label ty n && prop_is n "id" (VStr s)).
  { intros n. rewrite !prop_is_id. unfold has_label.
    now destruct (Hf n) as [-> ->]. }
  assert (Hnodes : match_by_id (mark_merged g2 ty s t merged_at) ty (VStr s)
                   = map f (match_by_id g2 ty (VStr s))).
  { unfold match_by_id, mark_merged, update_by_id.
    cbn [g_nodes]. fold mark. fold f.
    rewrite List.filter_map_swap. f_equal.
    apply List.filter_ext. intros n. apply Hcond. }
  rewrite Hnodes. split.
  - assert (Hin : In src (match_by_id g ty (VStr s))) by (rewrite Hs; now left).
    unfold match_by_id in Hin. apply List.filter_In in Hin as [Hin Hc].
    destruct (update_by_id_keeps g ty (VStr t) props Hp) as (_ & _ & _ & _).
    assert (Hex : exists n, In n (g_nodes g2)
                            /\ has_label ty n && prop_is n "id" (VStr s) = true).
    { subst g2. rewrite transfer_relationships_nodes.
      unfold update_by_id. simpl.
      set (u := fun n => if has_label ty n && prop_is n "id" (VStr t)
                         then set_props n props else n).
      exists (u src). split; [now apply in_map|].
      assert (Hu : n_id (u src) = n_id src /\ n_labels (u src) = n_labels src).
      { unfold u. destruct (has_label ty src && prop_is src "id" (VStr t)); auto.
        now apply set_props_keeps. }
      rewrite prop_is_id in *. unfold has_label in *.
      now destruct Hu as [-> ->]. }
    destruct Hex as (n & Hn & Hc').
    intros Hnil. apply map_eq_nil in Hnil.
    assert (In n (match_by_id g2 ty (VStr s)))
      by (apply List.filter_In; auto).
    rewrite Hnil in H. contradiction.
  - intros a Ha. apply in_map_iff in Ha as (n & <- & Hn).
    apply List.filter_In in Hn as [_ Hc]. unfold f. rewrite Hc.
    unfold set_props, mark, set_prop. simpl. split.
    + rewrite PyFacts.dict_get_set_ne by discriminate.
      rewrite PyFacts.dict_get_set_ne by discriminate.
      apply PyFacts.dict_get_set_eq.
    + rewrite PyFacts.dict_get_set_ne by discriminate.
      apply PyFacts.dict_get_set_eq.
Qed.

(** C2 at the failing input. [A] is merged into [B] in [office]; the
    merge marks [A] ([merged = true], [merged_into = "B"]), and a later
    [resolve_entity] for a record with the e-mail of [A] returns the node
    [A] itself, whatever the fuzzy matcher and the vector store answer:
    the identifier query does not look at [merged]. *)
Theorem resolve_returns_merged_source :
  exists a b,
    snd merged_office = ret b
    /\ n_id a = "A"
    /\ dict_get (n_props a) "merged" = Some (VBool true)
    /\ dict_get (n_props a) "merged_into" = Some (VStr "B")
    /\ forall extractBests (Vec : Type) get_embedding (Vdb : Type) vdb_search
              self (vdb : Vdb),
         resolve_entity extractBests Vec get_embedding Vdb vdb_search self
           (fst (fst merged_office)) vdb [("email", VStr "a@x.com")] "Person"
         = ret (Some a).
Proof.
  eexists. eexists. split; [vm_compute; reflexivity|].
  split; [|split; [|split]]; cycle 3.
  - intros. unfold resolve_entity.
    change (_match_by_identifiers (fst (fst merged_office))
              [("email", VStr "a@x.com")] "Person")
      with (@ret (option node)
              (Some (mkNode "A" ["Person"]
                 [("name", VStr "Alice A."); ("email", VStr "a@x.com");
                  ("merged", VBool true); ("merged_into", VStr "B");
                  ("merged_at", VStr "2026-01-01T00:00:00")]))).
    reflexivity.
  - reflexivity.
  - reflexivity.
  - reflexivity.
Qed.

End MergeFacts.

(** ** Traversal: termination, the node budget, one turn of the loop *)

Module TraversalFacts.

Import Py Graph GraphTraversal.

Implicit Types (g : graph) (V : gset string) (rels : list rel).

(** *** How many rows an expansion can return *)

Definition count_src rels (cur : string) : nat :=
  length (List.filter (fun r => String.eqb (r_src r) cur) rels).

Definition count_dst rels (cur : string) : nat :=
  length (List.filter (fun r => String.eqb (r_dst r) cur) rels).

Lemma flat_map_length_le {A B} (f : A -> list B) (p : A -> bool) (l : list A) :
  (forall x, (length (f x) <= if p x then 1 else 0)%nat) ->
  (length (flat_map f l) <= length (List.filter p l))%nat.
Proof.
  intros H. induction l as [|x l IH]; simpl; auto.
  rewrite length_app. specialize (H x).
  destruct (p x); simpl; lia.
Qed.

Lemma filter_combine_seq {A} (p : A -> bool) (l : list A) : forall start,
  length (List.filter (fun ir => p (snd ir)) (combine (seq start (length l)) l))
  = length (List.filter p l).
Proof.
  induction l as [|x l IH]; intros start; simpl; auto.
  destruct (p x); simpl; now rewrite IH.
Qed.

Lemma expand_out_length g cur rf nf :
  (length (expand_out g cur rf nf) <= count_src (g_rels g) cur)%nat.
Proof.
  unfold expand_out, count_src, indexed_rels.
  rewrite <- (filter_combine_seq (fun r => String.eqb (r_src r) cur) (g_rels g) 0).
  apply flat_map_length_le. intros [i r]. simpl.
  destruct (String.eqb (r_src r) cur); simpl; auto.
  destruct (rel_ok rf r); simpl; auto.
  destruct (find_node g (r_src r)); simpl; auto.
  destruct (find_node g (r_dst r)) as [m|]; simpl; auto.
  destruct (node_ok nf m); simpl; auto.
Qed.

Lemma expand_in_length g cur rf nf :
  (length (expand_in g cur rf nf) <= count_dst (g_rels g) cur)%nat.
Proof.
  unfold expand_in, count_dst, indexed_rels.
  rewrite <- (filter_combine_seq (fun r => String.eqb (r_dst r) cur) (g_rels g) 0).
  apply flat_map_length_le. intros [i r]. simpl.
  destruct (String.eqb (r_dst r) cur); simpl; auto.
  destruct (rel_ok rf r); simpl; auto.
  destruct (find_node g (r_dst r)); simpl; auto.
  destruct (find_node g (r_src r)) as [m|]; simpl; auto.
  destruct (node_ok nf m); simpl; auto.
Qed.

Lemma expand_from_node_length g cur limit rf nf records :
  _expand_from_node g cur limit rf nf = ret records ->
  (length records <= count_src (g_rels g) cur + count_dst (g_rels g) cur)%nat.
Proof.
  unfold _expand_from_node. destruct (limit <? 0); [discriminate|].
  intros H. invert H. rewrite length_app.
  pose proof (expand_out_length g cur rf nf).
  pose proof (expand_in_length g cur rf nf).
  match goal with
  | |- context [List.filter ?p ?l] => pose proof (List.filter_length_le p l)
  end.
  rewrite length_take in *. lia.
Qed.

(** *** The measure that every turn of the loop lowers *)

Definition unseen_src rels V : nat :=
  length (List.filter (fun r => negb (bool_decide (r_src r ∈ V))) rels).

Definition unseen_dst rels V : nat :=
  length (List.filter (fun r => negb (bool_decide (r_dst r ∈ V))) rels).

Definition potential g (st : state) : nat :=
  (length (queue st) + unseen_src (g_rels g) (visited st)
   + unseen_dst (g_rels g) (visited st))%nat.

Lemma unseen_visit (end_of : rel -> string) rels V (cur : string) :
  cur ∉ V ->
  (length (List.filter (fun r => negb (bool_decide (end_of r ∈ {[cur]} ∪ V))) rels)
   + length (List.filter (fun r => String.eqb (end_of r) cur) rels)
   = length (List.filter (fun r => negb (bool_decide (end_of r ∈ V))) rels))%nat.
Proof.
  intros Hcur. induction rels as [|r rels IH]; simpl; auto.
  destruct (String.eqb_spec (end_of r) cur) as [E|E].
  - rewrite E. rewrite (bool_decide_eq_true_2 (cur ∈ {[cur]} ∪ V)) by set_solver.
    rewrite (bool_decide_eq_false_2 (cur ∈ V)) by assumption. simpl. lia.
  - destruct (decide (end_of r ∈ V)) as [Hin|Hin].
    + rewrite (bool_decide_eq_true_2 (end_of r ∈ {[cur]} ∪ V)) by set_solver.
      rewrite (bool_decide_eq_true_2 (end_of r ∈ V)) by assumption.
      simpl. exact IH.
    + rewrite (bool_decide_eq_false_2 (end_of r ∈ {[cur]} ∪ V))
        by (rewrite elem_of_union, elem_of_singleton; tauto).
      rewrite (bool_decide_eq_false_2 (end_of r ∈ V)) by assumption.
      simpl. lia.
Qed.

Lemma unseen_empty rels :
  unseen_src rels ∅ = length rels /\ unseen_dst rels ∅ = length rels.
Proof.
  unfold unseen_src, unseen_dst.
  split; induction rels as [|r rels IH]; simpl; auto;
    rewrite bool_decide_eq_false_2 by set_solver; simpl; now rewrite IH.
Qed.

(** *** The inner loop *)

(** A record whose node goes to the output: [m and m['id'] not in visited]. *)
Definition fresh V (rec : record) : bool :=
  node_truthy (rec_m rec) && negb (bool_decide (n_id (rec_m rec) ∈ V)).

Definition appended_nodes V (records : list record) : list node :=
  map rec_m (List.filter (fresh V) records).

Definition enqueued (hop : Z) V (records : list record) : list (string * Z) :=
  map (fun rec => (n_id (rec_m rec), hop + 1)) (List.filter (fresh V) records).

Definition appended_rels (records : list record) : list rel :=
  map rec_r (List.filter (fun rec => rel_truthy (rec_r rec)) records).

(** The inner loop handles a prefix of the records, and stops short of
    the end only when the budget is reached. *)
Lemma process_records_prefix cap hop V records : forall q ns rs,
  exists k,
    (k <= length records)%nat
    /\ process_records cap hop V records q ns rs
       = (q ++ enqueued hop V (take k records),
          ns ++ appended_nodes V (take k records),
          rs ++ appended_rels (take k records))
    /\ (k = length records
        \/ cap <= Z.of_nat (length (ns ++ appended_nodes V (take k records)))).
Proof.
  induction records as [|rec rest IH]; intros q ns rs.
  - exists 0%nat. simpl. unfold enqueued, appended_nodes, appended_rels. simpl.
    rewrite !app_nil_r. auto.
  - cbn [process_records].
    change (node_truthy (rec_m rec)
            && negb (bool_decide (n_id (rec_m rec) ∈ V))) with (fresh V rec).
    set (ns1 := if fresh V rec then ns ++ [rec_m rec] else ns).
    set (q1 := if fresh V rec then q ++ [(n_id (rec_m rec), hop + 1)] else q).
    set (rs1 := if rel_truthy (rec_r rec) then rs ++ [rec_r rec] else rs).
    assert (Hns : ns1 = ns ++ appended_nodes V [rec]).
    { unfold ns1, appended_nodes. cbn [List.filter].
      destruct (fresh V rec); cbn [map]; auto. now rewrite app_nil_r. }
    assert (Hq : q1 = q ++ enqueued hop V [rec]).
    { unfold q1, enqueued. cbn [List.filter].
      destruct (fresh V rec); cbn [map]; auto. now rewrite app_nil_r. }
    assert (Hrs : rs1 = rs ++ appended_rels [rec]).
    { unfold rs1, appended_rels. cbn [List.filter].
      destruct (rel_truthy (rec_r rec)); cbn [map]; auto.
      now rewrite app_nil_r. }
    destruct (Z.geb_spec (Z.of_nat (length ns1)) cap) as [Hge|Hlt].
    + exists 1%nat. cbn [length take]. rewrite take_0.
      split; [lia|]. split; [now rewrite Hns, Hq, Hrs|].
      right. rewrite <- Hns. lia.
    + destruct (IH q1 ns1 rs1) as (k & Hk & Heq & Hstop).
      exists (S k). cbn [length take]. split; [lia|].
      assert (Hn : forall l, appended_nodes V (rec :: l)
                             = appended_nodes V [rec] ++ appended_nodes V l).
      { intros l. unfold appended_nodes. cbn [List.filter].
        destruct (fresh V rec); reflexivity. }
      assert (He : forall l, enqueued hop V (rec :: l)
                             = enqueued hop V [rec] ++ enqueued hop V l).
      { intros l. unfold enqueued. cbn [List.filter].
        destruct (fresh V rec); reflexivity. }
      assert (Hr : forall l, appended_rels (rec :: l)
                             = appended_rels [rec] ++ appended_rels l).
      { intros l. unfold appended_rels. cbn [List.filter].
        destruct (rel_truthy (rec_r rec)); reflexivity. }
      rewrite Hn, He, Hr, !app_assoc, <- Hns, <- Hq, <- Hrs.
      split; [exact Heq|]. destruct Hstop as [->|Hstop]; auto.
Qed.

Lemma filter_length_take {A} (p : A -> bool) k (l : list A) :
  (length (List.filter p (take k l)) <= length l)%nat.
Proof.
  pose proof (List.filter_length_le p (take k l)).
  rewrite length_take in *. lia.
Qed.

(** The queue grows by at most one entry per record. *)
Lemma process_records_queue cap hop V records q ns rs q1 ns1 rs1 :
  process_records cap hop V records q ns rs = (q1, ns1, rs1) ->
  (length q1 <= length q + length records)%nat.
Proof.
  destruct (process_records_prefix cap hop V records q ns rs)
    as (k & _ & -> & _).
  intros H. invert H. rewrite length_app. unfold enqueued.
  rewrite length_map. pose proof (filter_length_take (fresh V) k records). lia.
Qed.

(** A list below the budget leaves the inner loop within the budget. *)
Lemma process_records_budget cap hop V records : forall q ns rs q1 ns1 rs1,
  Z.of_nat (length ns) < cap ->
  process_records cap hop V records q ns rs = (q1, ns1, rs1) ->
  Z.of_nat (length ns1) <= cap.
Proof.
  induction records as [|rec rest IH]; intros q ns rs q1 ns1 rs1 Hlt.
  - simpl. intros H. invert H. lia.
  - cbn [process_records].
    change (node_truthy (rec_m rec)
            && negb (bool_decide (n_id (rec_m rec) ∈ V))) with (fresh V rec).
    set (ns' := if fresh V rec then ns ++ [rec_m rec] else ns).
    assert (Hlen : Z.of_nat (length ns') <= cap).
    { unfold ns'. destruct (fresh V rec); [rewrite length_app; simpl|]; lia. }
    destruct (Z.geb_spec (Z.of_nat (length ns')) cap) as [Hge|Hlt'].
    + intros H. invert H. exact Hlen.
    + apply IH. exact Hlt'.
Qed.

(** The check follows the append: a list below [max 1 cap] leaves the
    inner loop within [max 1 cap]. *)
Lemma process_records_bound cap hop V records : forall q ns rs q1 ns1 rs1,
  Z.of_nat (length ns) < Z.max 1 cap ->
  process_records cap hop V records q ns rs = (q1, ns1, rs1) ->
  Z.of_nat (length ns1) <= Z.max 1 cap.
Proof.
  induction records as [|rec rest IH]; intros q ns rs q1 ns1 rs1 Hlt.
  - simpl. intros H. invert H. lia.
  - cbn [process_records].
    change (node_truthy (rec_m rec)
            && negb (bool_decide (n_id (rec_m rec) ∈ V))) with (fresh V rec).
    set (ns' := if fresh V rec then ns ++ [rec_m rec] else ns).
    assert (Hlen : Z.of_nat (length ns') <= Z.max 1 cap).
    { unfold ns'. destruct (fresh V rec); [rewrite length_app; simpl|]; lia. }
    destruct (Z.geb_spec (Z.of_nat (length ns')) cap) as [Hge|Hlt'].
    + intros H. invert H. exact Hlen.
    + apply IH. lia.
Qed.

(** *** The outer loop *)

Section Loop.

Variables (g : graph) (max_hops cap : Z) (rf nf : option (list string)).

Local Abbreviation loop := (traverse_loop g max_hops cap rf nf).

(** One unfolding of the loop on a non-empty queue. *)
Lemma traverse_loop_skip fuel cur hop q V ns rs :
  (hop >? max_hops) || bool_decide (cur ∈ V) = true ->
  loop (S fuel) (mkState ((cur, hop) :: q) V ns rs)
  = loop fuel (mkState q V ns rs).
Proof. intros H. cbn [traverse_loop queue visited out_nodes out_rels]. now rewrite H. Qed.

Lemma traverse_loop_expand fuel cur hop q V ns rs records q1 ns1 rs1 :
  (hop >? max_hops) || bool_decide (cur ∈ V) = false ->
  _expand_from_node g cur cap rf nf = ret records ->
  process_records cap hop ({[cur]} ∪ V) records q ns rs = (q1, ns1, rs1) ->
  loop (S fuel) (mkState ((cur, hop) :: q) V ns rs)
  = if Z.of_nat (length ns1) >=? cap then Some (ret (mkResult ns1 rs1))
    else loop fuel (mkState q1 ({[cur]} ∪ V) ns1 rs1).
Proof.
  intros H He Hp. cbn [traverse_loop queue visited out_nodes out_rels].
  rewrite H, He. unfold ret. now rewrite Hp.
Qed.

(** Fuel above the measure is never used up. *)
Lemma traverse_loop_fuel : forall fuel st,
  (potential g st < fuel)%nat -> exists out, loop fuel st = Some out.
Proof.
  induction fuel as [|fuel IH]; intros [q V ns rs] Hpot; [lia|].
  destruct q as [|[cur hop] q]; [simpl; eauto|].
  destruct ((hop >? max_hops) || bool_decide (cur ∈ V)) eqn:Hskip.
  - rewrite traverse_loop_skip by assumption. apply IH.
    unfold potential in *. simpl in *. lia.
  - destruct (_expand_from_node g cur cap rf nf) as [e|records] eqn:He.
    + cbn [traverse_loop queue visited out_nodes out_rels].
      rewrite Hskip, He. eauto.
    + destruct (process_records cap hop ({[cur]} ∪ V) records q ns rs)
        as [[q1 ns1] rs1] eqn:Hp.
      rewrite (traverse_loop_expand _ _ _ _ _ _ _ _ _ _ _ Hskip He Hp).
      destruct (Z.of_nat (length ns1) >=? cap); [eauto|].
      apply IH. apply orb_false_elim in Hskip as [_ Hv].
      apply bool_decide_eq_false in Hv.
      pose proof (process_records_queue _ _ _ _ _ _ _ _ _ _ Hp).
      pose proof (expand_from_node_length _ _ _ _ _ _ He).
      pose proof (unseen_visit r_src (g_rels g) V cur Hv).
      pose proof (unseen_visit r_dst (g_rels g) V cur Hv).
      unfold potential, unseen_src, unseen_dst, count_src, count_dst in *.
      simpl in *. lia.
Qed.

(** A non-negative budget is a limit the store accepts: nothing raises. *)
Lemma traverse_loop_returns : forall fuel st e,
  0 <= cap -> loop fuel st <> Some (inl e).
Proof.
  induction fuel as [|fuel IH]; intros [q V ns rs] e Hcap; [discriminate|].
  destruct q as [|[cur hop] q]; [discriminate|].
  destruct ((hop >? max_hops) || bool_decide (cur ∈ V)) eqn:Hskip.
  - rewrite traverse_loop_skip by assumption. now apply IH.
  - destruct (_expand_from_node g cur cap rf nf) as [e'|records] eqn:He.
    + unfold _expand_from_node in He.
      destruct (Z.ltb_spec cap 0) as [Hneg|Hpos]; [lia|discriminate].
    + destruct (process_records cap hop ({[cur]} ∪ V) records q ns rs)
        as [[q1 ns1] rs1] eqn:Hp.
      rewrite (traverse_loop_expand _ _ _ _ _ _ _ _ _ _ _ Hskip He Hp).
      destruct (Z.of_nat (length ns1) >=? cap); [discriminate|now apply IH].
Qed.

(** Below the budget at the head of the loop, within it at the end. *)
Lemma traverse_loop_budget : forall fuel st res,
  Z.of_nat (length (out_nodes st)) < cap ->
  loop fuel st = Some (ret res) ->
  Z.of_nat (length (nodes res)) <= cap.
Proof.
  induction fuel as [|fuel IH]; intros [q V ns rs] res Hlt; [discriminate|].
  destruct q as [|[cur hop] q].
  - simpl. intros H. invert H. simpl in *. lia.
  - destruct ((hop >? max_hops) || bool_decide (cur ∈ V)) eqn:Hskip.
    + rewrite traverse_loop_skip by assumption. now apply IH.
    + destruct (_expand_from_node g cur cap rf nf) as [e'|records] eqn:He.
      * cbn [traverse_loop queue visited out_nodes out_rels].
        rewrite Hskip, He. discriminate.
      * destruct (process_records cap hop ({[cur]} ∪ V) records q ns rs)
          as [[q1 ns1] rs1] eqn:Hp.
        rewrite (traverse_loop_expand _ _ _ _ _ _ _ _ _ _ _ Hskip He Hp).
        pose proof (process_records_budget _ _ _ _ _ _ _ _ _ _ Hlt Hp) as Hb.
        destruct (Z.geb_spec (Z.of_nat (length ns1)) cap) as [Hge|Hlt'].
        -- intros H. invert H. exact Hb.
        -- apply IH. simpl. lia.
Qed.

(** Below [max 1 cap] at the head of the loop, within it at the end. *)
Lemma traverse_loop_bound : forall fuel st res,
  Z.of_nat (length (out_nodes st)) < Z.max 1 cap ->
  loop fuel st = Some (ret res) ->
  Z.of_nat (length (nodes res)) <= Z.max 1 cap.
Proof.
  induction fuel as [|fuel IH]; intros [q V ns rs] res Hlt; [discriminate|].
  destruct q as [|[cur hop] q].
  - simpl. intros H. invert H. simpl in *. lia.
  - destruct ((hop >? max_hops) || bool_decide (cur ∈ V)) eqn:Hskip.
    + rewrite traverse_loop_skip by assumption. now apply IH.
    + destruct (_expand_from_node g cur cap rf nf) as [e'|records] eqn:He.
      * cbn [traverse_loop queue visited out_nodes out_rels].
        rewrite Hskip, He. discriminate.
      * destruct (process_records cap hop ({[cur]} ∪ V) records q ns rs)
          as [[q1 ns1] rs1] eqn:Hp.
        rewrite (traverse_loop_expand _ _ _ _ _ _ _ _ _ _ _ Hskip He Hp).
        pose proof (process_records_bound _ _ _ _ _ _ _ _ _ _ Hlt Hp) as Hb.
        destruct (Z.geb_spec (Z.of_nat (length ns1)) cap) as [Hge|Hlt'].
        -- intros H. invert H. exact Hb.
        -- apply IH. simpl. lia.
Qed.

End Loop.

Lemma initial_potential g seeds :
  (potential g (initial_state seeds) < fuel_for g seeds)%nat.
Proof.
  unfold potential, initial_state, fuel_for. simpl.
  destruct (unseen_empty (g_rels g)) as [-> ->].
  rewrite length_map. lia.
Qed.

(** *** A cycle, a pair of nodes that point at each other, a diamond *)

Definition cycle : graph :=
  mkGraph
    [ mkNode "a" ["Task"] []; mkNode "b" ["Task"] []; mkNode "c" ["Task"] [] ]
    [ mkRel "DEPENDS_ON" "a" "b" [("blocking", VBool true)];
      mkRel "DEPENDS_ON" "b" "c" [("blocking", VBool true)];
      mkRel "DEPENDS_ON" "c" "a" [("blocking", VBool false)] ].

Definition mutual : graph :=
  mkGraph
    [ mkNode "a" ["Person"] []; mkNode "b" ["Person"] [] ]
    [ mkRel "CONNECTED_TO" "a" "b" [("inferred_closeness", VInt 1)];
      mkRel "CONNECTED_TO" "b" "a" [("inferred_closeness", VInt 2)] ].

(** No cycle: ["a"] leads to ["d"] through ["b"] and through ["c"]. *)
Definition diamond : graph :=
  mkGraph
    [ mkNode "a" ["Task"] []; mkNode "b" ["Task"] [];
      mkNode "c" ["Task"] []; mkNode "d" ["Task"] [] ]
    [ mkRel "DEPENDS_ON" "a" "b" [("blocking", VBool true)];
      mkRel "DEPENDS_ON" "a" "c" [("blocking", VBool true)];
      mkRel "DEPENDS_ON" "b" "d" [("blocking", VBool true)];
      mkRel "DEPENDS_ON" "c" "d" [("blocking", VBool true)] ].

(** C6, as stated, fails: with [max_nodes_per_hop = 0] the traversal
    from ["a"] on [mutual] returns one node. The budget is tested after
    the node is appended, and [LIMIT] bounds only the second branch of the
    query, so the first record is handled before anything stops. *)
Lemma budget_zero_returns_a_node :
  exists res,
    traverse_from_seeds mutual ["a"] 2 0 None None = Some (ret res)
    /\ map n_id (nodes res) = ["b"]
    /\ ~ Z.of_nat (length (nodes res)) <= 0.
Proof.
  eexists. split; [vm_compute; reflexivity|]. split; [reflexivity|].
  intros H. vm_compute in H. now apply H.
Qed.

(** C6, amended. For every graph (cyclic or not), every seed list and
    every budget the traversal ends: the loop needs no more than
    [fuel_for] turns, because a node is expanded once. What it ends with
    is a result whose node list has at most [max(1, max_nodes_per_hop)]
    nodes (at most [max_nodes_per_hop] for a budget of 1 or more, and at
    most one node for a smaller budget, since the budget is tested after
    a node is appended), or, for a negative budget only, an exception
    (the store refuses the [LIMIT]). The budget stops the expansion at
    once: a turn that reaches it returns the lists as they are, whatever
    is left in the queue, and inside a hop the records after the one that
    reached it are not looked at. *)
Theorem traverse_from_seeds_terminates_within_budget
    (g : graph) (seed_node_ids : list string) (max_hops max_nodes_per_hop : Z)
    (relationship_types node_types : option (list string)) :
  (exists out,
      traverse_from_seeds g seed_node_ids max_hops max_nodes_per_hop
        relationship_types node_types = Some out
      /\ match out with
         | inr res =>
             Z.of_nat (length (nodes res)) <= Z.max 1 max_nodes_per_hop
         | inl e => max_nodes_per_hop < 0
         end)
  /\ (forall fuel cur hop q V ns rs records q1 ns1 rs1,
      (hop >? max_hops) || bool_decide (cur ∈ V) = false ->
      _expand_from_node g cur max_nodes_per_hop
        (_build_relationship_filter relationship_types)
        (_build_node_filter node_types) = ret records ->
      process_records max_nodes_per_hop hop ({[cur]} ∪ V) records q ns rs
        = (q1, ns1, rs1) ->
      max_nodes_per_hop <= Z.of_nat (length ns1) ->
      traverse_loop g max_hops max_nodes_per_hop
        (_build_relationship_filter relationship_types)
        (_build_node_filter node_types) (S fuel)
        (mkState ((cur, hop) :: q) V ns rs)
      = Some (ret (mkResult ns1 rs1)))
  /\ (forall hop V rec rest q ns rs q1 ns1 rs1,
      process_records max_nodes_per_hop hop V [rec] q ns rs = (q1, ns1, rs1) ->
      max_nodes_per_hop <= Z.of_nat (length ns1) ->
      process_records max_nodes_per_hop hop V (rec :: rest) q ns rs
        = (q1, ns1, rs1)).
Proof.
  unfold traverse_from_seeds.
  pose proof (traverse_loop_fuel g max_hops max_nodes_per_hop
                (_build_relationship_filter relationship_types)
                (_build_node_filter node_types) _ _
                (initial_potential g seed_node_ids)) as [out Hout].
  split; [|split].
  - exists out. split; [exact Hout|]. destruct out as [e|res].
    + destruct (Z.ltb_spec max_nodes_per_hop 0) as [Hneg|Hcap];
        [exact Hneg|].
      exfalso. eapply traverse_loop_returns; [|exact Hout]. exact Hcap.
    + eapply traverse_loop_bound; [|exact Hout].
      change (0 < Z.max 1 max_nodes_per_hop). lia.
  - intros fuel cur hop q V ns rs records q1 ns1 rs1 Hskip He Hp Hcap.
    rewrite (traverse_loop_expand _ _ _ _ _ _ _ _ _ _ _ _ _ _ _ _ Hskip He Hp).
    destruct (Z.geb_spec (Z.of_nat (length ns1)) max_nodes_per_hop)
      as [Hge|Hlt]; [reflexivity|lia].
  - intros hop V rec rest q ns rs q1 ns1 rs1.
    cbn [process_records node_truthy node_items andb].
    match goal with
    | |- context [Z.of_nat (length ?l) >=? _] =>
        destruct (Z.geb_spec (Z.of_nat (length l)) max_nodes_per_hop)
          as [Hge|Hlt]; [auto|]
    end.
    intros H Hc. invert H. lia.
Qed.

Lemma traverse_from_seeds_witness :
  (exists res,
      traverse_from_seeds cycle ["a"] 5 2 None None = Some (ret res)
      /\ Z.of_nat (length (nodes res)) <= Z.max 1 2)
  /\ (exists res,
      traverse_from_seeds mutual ["a"] 2 0 None None = Some (ret res)
      /\ Z.of_nat (length (nodes res)) <= Z.max 1 0)
  /\ (exists e,
      traverse_from_seeds mutual ["a"] 2 (-1) None None = Some (inl e))
  /\ process_records 1 0 ∅
       [mkRecord 0 (mkNode "b" ["Task"] [])
          (mkRel "DEPENDS_ON" "a" "b" [("blocking", VBool true)]);
        mkRecord 1 (mkNode "c" ["Task"] [])
          (mkRel "DEPENDS_ON" "a" "c" [("blocking", VBool true)])]
       [] [] []
     = ([("b", 1)], [mkNode "b" ["Task"] []],
        [mkRel "DEPENDS_ON" "a" "b" [("blocking", VBool true)]]).
Proof.
  split; [|split; [|split]].
  - destruct (traverse_from_seeds_terminates_within_budget
                cycle ["a"] 5 2 None None) as [(out & Hout & Hb) _].
    destruct out as [e|res]; [lia|eauto].
  - destruct (traverse_from_seeds_terminates_within_budget
                mutual ["a"] 2 0 None None) as [(out & Hout & Hb) _].
    destruct out as [e|res]; [lia|eauto].
  - destruct (traverse_from_seeds_terminates_within_budget
                mutual ["a"] 2 (-1) None None) as [(out & Hout & Hb) _].
    destruct out as [e|res]; [eauto|].
    vm_compute in Hout. discriminate.
  - destruct (traverse_from_seeds_terminates_within_budget
                mutual ["a"] 2 1 None None) as (_ & _ & Hstop).
    apply Hstop; [vm_compute; reflexivity|vm_compute; discriminate].
Defined.

(** C7. The output can list a node twice. The guard of the inner loop is
    [m['id'] not in visited], and [visited] holds the nodes that were
    expanded, not the nodes that were appended: a node that is reached
    again before its own turn is appended again. From the seed ["a"] on
    [mutual] the expansion of ["a"] returns ["b"] once for each of the two
    relationships; on [diamond], which has no cycle, ["d"] is reached from
    ["b"] and from ["c"] before it is expanded. *)
Theorem traversal_output_repeats_a_node :
  (exists res,
      traverse_from_seeds mutual ["a"] 2 25 None None = Some (ret res)
      /\ map n_id (nodes res) = ["b"; "b"]
      /\ ~ List.NoDup (map n_id (nodes res)))
  /\ (exists res,
      traverse_from_seeds diamond ["a"] 2 25 None None = Some (ret res)
      /\ map n_id (nodes res) = ["b"; "c"; "d"; "d"]
      /\ ~ List.NoDup (map n_id (nodes res))).
Proof.
  split.
  - eexists. split; [vm_compute; reflexivity|]. split; [reflexivity|].
    simpl. intros H. apply List.NoDup_cons_iff in H as [H _].
    apply H. now left.
  - eexists. split; [vm_compute; reflexivity|]. split; [reflexivity|].
    simpl. intros H. apply List.NoDup_cons_iff in H as [_ H].
    apply List.NoDup_cons_iff in H as [_ H].
    apply List.NoDup_cons_iff in H as [H _]. apply H. now left.
Qed.

(** *** What an expansion fetches *)

Lemma In_take {A} (x : A) n : forall l, In x (take n l) -> In x l.
Proof.
  induction n as [|n IH]; intros [|y l]; simpl; try contradiction.
  intros [->|H]; auto.
Qed.

Lemma In_indexed g i r : In (i, r) (indexed_rels g) -> In r (g_rels g).
Proof. unfold indexed_rels. apply in_combine_r. Qed.

Lemma indexed_In {A} (x : A) (l : list A) : forall start,
  In x l -> exists i, In (i, x) (combine (seq start (length l)) l).
Proof.
  induction l as [|y l IH]; intros start; [contradiction|].
  intros [->|H]; simpl.
  - exists start. now left.
  - destruct (IH (S start) H) as [i Hi]. exists i. now right.
Qed.

(** A record is a neighbour at distance 1 that passes the filters. *)
Definition neighbour g (cur : string) (rf nf : option (list string))
    (rec : record) : Prop :=
  In (rec_r rec) (g_rels g)
  /\ find_node g (n_id (rec_m rec)) = Some (rec_m rec)
  /\ rel_ok rf (rec_r rec) = true /\ node_ok nf (rec_m rec) = true
  /\ ((r_src (rec_r rec) = cur /\ n_id (rec_m rec) = r_dst (rec_r rec))
      \/ (r_dst (rec_r rec) = cur /\ n_id (rec_m rec) = r_src (rec_r rec))).

Lemma find_node_self g a m : find_node g a = Some m -> find_node g (n_id m) = Some m.
Proof.
  intros H. unfold find_node in *. pose proof (List.find_some _ _ H) as [_ E].
  apply String.eqb_eq in E. now rewrite E.
Qed.

Lemma expand_out_neighbour g cur rf nf rec :
  In rec (expand_out g cur rf nf) -> neighbour g cur rf nf rec.
Proof.
  unfold expand_out. intros H. apply in_flat_map in H as ([i r] & Hi & H).
  simpl in H. destruct (String.eqb_spec (r_src r) cur) as [Es|]; [|contradiction].
  destruct (rel_ok rf r) eqn:Er; [|contradiction]. simpl in H.
  destruct (find_node g (r_src r)); [|contradiction].
  destruct (find_node g (r_dst r)) as [m|] eqn:Fm; [|contradiction].
  destruct (node_ok nf m) eqn:En; [|contradiction].
  destruct H as [<-|[]]. unfold neighbour. simpl.
  pose proof (find_node_self _ _ _ Fm).
  pose proof (List.find_some _ _ Fm) as [_ E]. apply String.eqb_eq in E.
  repeat split; eauto using In_indexed.
Qed.

Lemma expand_in_neighbour g cur rf nf rec :
  In rec (expand_in g cur rf nf) -> neighbour g cur rf nf rec.
Proof.
  unfold expand_in. intros H. apply in_flat_map in H as ([i r] & Hi & H).
  simpl in H. destruct (String.eqb_spec (r_dst r) cur) as [Es|]; [|contradiction].
  destruct (rel_ok rf r) eqn:Er; [|contradiction]. simpl in H.
  destruct (find_node g (r_dst r)); [|contradiction].
  destruct (find_node g (r_src r)) as [m|] eqn:Fm; [|contradiction].
  destruct (node_ok nf m) eqn:En; [|contradiction].
  destruct H as [<-|[]]. unfold neighbour. simpl.
  pose proof (find_node_self _ _ _ Fm).
  pose proof (List.find_some _ _ Fm) as [_ E]. apply String.eqb_eq in E.
  repeat split; eauto using In_indexed.
Qed.

Lemma expand_from_node_neighbours g cur limit rf nf records :
  _expand_from_node g cur limit rf nf = ret records ->
  (forall rec, In rec records -> neighbour g cur rf nf rec)
  /\ (forall r m, In r (g_rels g) -> r_src r = cur -> rel_ok rf r = true ->
        find_node g cur <> None -> find_node g (r_dst r) = Some m ->
        node_ok nf m = true ->
        exists rec, In rec records /\ rec_r rec = r /\ rec_m rec = m).
Proof.
  unfold _expand_from_node. destruct (limit <? 0); [discriminate|].
  intros H. invert H. split.
  - intros rec Hin. apply in_app_or in Hin as [Hin|Hin].
    + now apply expand_out_neighbour.
    + apply List.filter_In in Hin as [Hin _]. apply In_take in Hin.
      now apply expand_in_neighbour.
  - intros r m Hr Hs Hrf Hn Hm Hnf.
    destruct (indexed_In r (g_rels g) 0 Hr) as [i Hi].
    exists (mkRecord i m r). split; [|auto].
    apply in_or_app. left. unfold expand_out. apply in_flat_map.
    exists (i, r). split; [exact Hi|]. simpl.
    rewrite Hs, String.eqb_refl, Hrf, Hm. simpl.
    destruct (find_node g cur); [|congruence]. rewrite Hnf. now left.
Qed.

End TraversalFacts.

(** ** The cache layer: what a write does *)

Module CacheFacts.

Import Py RagEngine LRUCacheFacts.

(** *** The caches, one key at a time *)

Section Tiers.

Context {V : Type}.

Implicit Types (c : LRUCache.t V) (r : RedisCache.t V).

Definition lru_absent c (key : string) : Prop :=
  LRUCache.lookup (LRUCache.cache c) key = None.

Lemma lru_absent_get c key : forall later,
  lru_absent c key -> LRUCache.get later key c = (c, None).
Proof. intros later H. unfold LRUCache.get. now rewrite H. Qed.

Lemma lru_get_frame c now key key' :
  lru_absent c key' -> lru_absent (fst (LRUCache.get now key c)) key'.
Proof.
  unfold lru_absent, LRUCache.get. intros H.
  destruct (LRUCache.lookup (LRUCache.cache c) key) as [[v e]|] eqn:L; auto.
  assert (key <> key') by congruence.
  destruct (e >? now); simpl.
  - rewrite lookup_app, lookup_remove_ne, H by assumption. simpl.
    destruct (String.eqb_spec key key'); [contradiction|reflexivity].
  - now rewrite lookup_remove_ne.
Qed.

Lemma lru_get_none c now key :
  snd (LRUCache.get now key c) = None ->
  lru_absent (fst (LRUCache.get now key c)) key.
Proof.
  unfold lru_absent, LRUCache.get.
  destruct (LRUCache.lookup (LRUCache.cache c) key) as [[v e]|] eqn:L; auto.
  destruct (e >? now); simpl; [discriminate|].
  intros _. apply lookup_remove_eq.
Qed.

Lemma lookup_tail (l : list (string * (V * Z))) p key :
  LRUCache.lookup (p :: l) key = None -> LRUCache.lookup l key = None.
Proof. destruct p as [k e]. simpl. now destruct (String.eqb k key). Qed.

Lemma lru_set_frame c now key v key' :
  key' <> key -> lru_absent c key' ->
  lru_absent (fst (LRUCache.set now key v c)) key'.
Proof.
  unfold lru_absent, LRUCache.set. intros Hne H.
  assert (Hlast : LRUCache.lookup [(key, (v, now + LRUCache.ttl c))] key' = None).
  { simpl. destruct (String.eqb_spec key key'); [congruence|reflexivity]. }
  destruct (LRUCache.lookup (LRUCache.cache c) key).
  - simpl. rewrite lookup_app, lookup_remove_ne, H by congruence. exact Hlast.
  - destruct (Z.of_nat (length (LRUCache.cache c)) >=? LRUCache.max_size c).
    + destruct (LRUCache.cache c) as [|p rest] eqn:C; simpl; [now rewrite C|].
      rewrite lookup_app, (lookup_tail _ _ _ H). exact Hlast.
    + simpl. rewrite lookup_app, H. exact Hlast.
Qed.

Lemma lru_delete_absent c key : lru_absent (LRUCache.delete key c) key.
Proof.
  unfold lru_absent, LRUCache.delete.
  destruct (LRUCache.lookup (LRUCache.cache c) key) eqn:L; auto.
  simpl. apply lookup_remove_eq.
Qed.

Lemma lru_delete_frame c key key' :
  lru_absent c key' -> lru_absent (LRUCache.delete key c) key'.
Proof.
  unfold lru_absent, LRUCache.delete. intros H.
  destruct (LRUCache.lookup (LRUCache.cache c) key) eqn:L; auto.
  simpl. rewrite lookup_remove_ne; [auto|congruence].
Qed.

Lemma redis_set_frame r now key v ttl key' later :
  key' <> key ->
  RedisCache.get later key' (RedisCache.set now key v ttl r)
  = RedisCache.get later key' r.
Proof.
  intros Hne. unfold RedisCache.get, RedisCache.set, RedisCache.t in *.
  destruct ttl as [n|]; [destruct (n =? 0)|];
    now rewrite lookup_insert_ne by congruence.
Qed.

Lemma lru_delete_lookup c key key' :
  key' <> key ->
  LRUCache.lookup (LRUCache.cache (LRUCache.delete key c)) key'
  = LRUCache.lookup (LRUCache.cache c) key'.
Proof.
  intros Hne. unfold LRUCache.delete.
  destruct (LRUCache.lookup (LRUCache.cache c) key); [|reflexivity].
  simpl. apply lookup_remove_ne. congruence.
Qed.

Lemma lru_get_keys c now key k :
  In k (LRUCache.keys (fst (LRUCache.get now key c))) ->
  In k (LRUCache.keys c).
Proof.
  unfold LRUCache.get, LRUCache.keys.
  destruct (LRUCache.lookup (LRUCache.cache c) key) as [[v e]|] eqn:L; [|auto].
  assert (Hkey : In key (map fst (LRUCache.cache c))).
  { clear -L. induction (LRUCache.cache c) as [|[k0 e0] l IH];
      [discriminate|]. simpl in *.
    destruct (String.eqb_spec k0 key); [now left|right; auto]. }
  destruct (e >? now); simpl.
  - rewrite map_app, in_app_iff. simpl.
    intros [H|[<-|[]]]; [|exact Hkey]. now apply keys_remove_In in H.
  - intros H. now apply keys_remove_In in H.
Qed.

End Tiers.

(** *** The module-level functions *)

Section Layer.

Context {Obj Gdb Vec : Type}.
Context (obj_truthy : Obj -> bool).
Context (gdb_get_node : Gdb -> string -> string -> exc (list Obj)).
Context (gdb_update_node : Gdb -> string -> dict -> Gdb * exc Obj).
Context (gdb_create_relationship :
           Gdb -> string -> string -> string -> dict -> Gdb * exc Obj).
Context (gdb_execute_query : Gdb -> query -> dict -> Gdb * exc unit).
Context (store_in_cold_storage : Obj -> exc string).

Implicit Types (w : world Obj Gdb Vec).

Local Abbreviation read := (get_node_with_cache gdb_get_node gdb_execute_query).

(** The statement of [update_node_access_timestamp]. *)
Definition touch (node_id : string) (d : Gdb) : Gdb * exc unit :=
  gdb_execute_query d QTouch [("node_id", VStr node_id)].

Lemma update_access_run w node_id :
  update_node_access_timestamp gdb_execute_query node_id w
  = (with_graph_db w (fst (touch node_id (graph_db w))),
     snd (touch node_id (graph_db w))).
Proof.
  unfold update_node_access_timestamp, db_execute_query, touch.
  now destruct (gdb_execute_query _ _ _).
Qed.

Lemma bindM_ret {A B} (m : M Obj Gdb Vec A) (k : A -> M Obj Gdb Vec B) w w' b :
  bindM m k w = (w', ret b) ->
  exists w1 a, m w = (w1, ret a) /\ k a w1 = (w', ret b).
Proof.
  unfold bindM. destruct (m w) as [w1 [e|a]]; [discriminate|]. eauto.
Qed.

(** [invalidate_node_cache]: the entry leaves the in-process cache, then
    the unbound name is met. *)
Lemma invalidate_node_cache_run w node_id node_type :
  invalidate_node_cache node_id node_type w
  = (with_node_cache w
       (LRUCache.delete (cache_key node_type node_id) (node_cache w)),
     raise NameError).
Proof. reflexivity. Qed.

(** A read that the in-process cache serves. *)
Lemma read_lru_hit (get_node : Gdb -> string -> string -> exc (list Obj))
    now w node_id node_type c v :
  LRUCache.get now (cache_key node_type node_id) (node_cache w) = (c, Some v) ->
  get_node_with_cache get_node gdb_execute_query now node_id node_type w
  = (with_graph_db (with_node_cache w c) (fst (touch node_id (graph_db w))),
     match snd (touch node_id (graph_db w)) with
     | inl e => inl e
     | inr _ => ret (Some v)
     end).
Proof.
  intros H. unfold get_node_with_cache, bindM at 1, node_cache_get.
  rewrite H. unfold ret. cbv beta iota. unfold bindM.
  rewrite update_access_run. cbn [graph_db with_node_cache].
  now destruct (snd (touch node_id (graph_db w))).
Qed.

(** A read that the in-process cache does not serve meets the unbound
    name: the store is not asked. *)
Lemma read_lru_miss (get_node : Gdb -> string -> string -> exc (list Obj))
    now w node_id node_type c :
  LRUCache.get now (cache_key node_type node_id) (node_cache w) = (c, None) ->
  get_node_with_cache get_node gdb_execute_query now node_id node_type w
  = (with_node_cache w c, raise NameError).
Proof.
  intros H. unfold get_node_with_cache, bindM at 1, node_cache_get.
  now rewrite H.
Qed.

Lemma update_node_with_cache_run w node_id node_type properties :
  update_node_with_cache gdb_update_node node_id node_type properties w
  = match gdb_update_node (graph_db w) node_id properties with
    | (d, inr _) =>
        (mkWorld
           (LRUCache.delete (cache_key node_type node_id) (node_cache w))
           (embedding_cache w) d (events w),
         raise NameError)
    | (d, inl e) => (with_graph_db w d, raise e)
    end.
Proof.
  unfold update_node_with_cache, bindM at 1, db_update_node.
  destruct (gdb_update_node (graph_db w) node_id properties) as [d [e|r]];
    reflexivity.
Qed.

Lemma create_relationship_with_cache_run w source_id source_type target_id
    target_type rel_type properties :
  create_relationship_with_cache gdb_create_relationship source_id source_type
    target_id target_type rel_type properties w
  = match gdb_create_relationship (graph_db w) source_id target_id rel_type
            properties with
    | (d, inr _) =>
        (mkWorld
           (LRUCache.delete (cache_key source_type source_id) (node_cache w))
           (embedding_cache w) d (events w),
         raise NameError)
    | (d, inl e) => (with_graph_db w d, raise e)
    end.
Proof.
  unfold create_relationship_with_cache, bindM at 1, db_create_relationship.
  destruct (gdb_create_relationship (graph_db w) source_id target_id rel_type
              properties) as [d [e|r]]; reflexivity.
Qed.

(** No turn of the loop of [archive_nodes] that archives a node returns. *)
Lemma archive_node_returns now w node_id entity_type w' b :
  archive_node obj_truthy gdb_get_node gdb_execute_query store_in_cold_storage
    now node_id entity_type w = (w', ret b) ->
  b = false.
Proof.
  unfold archive_node. intros H.
  apply bindM_ret in H as (w1 & [v|] & _ & H); [|now invert H].
  destruct (obj_truthy v); [|now invert H].
  apply bindM_ret in H as (w2 & ref & _ & H).
  apply bindM_ret in H as (w3 & u & _ & H).
  apply bindM_ret in H as (w4 & u' & H & _).
  rewrite invalidate_node_cache_run in H. discriminate.
Qed.

(** A turn of the loop of [archive_nodes] on a node that the in-process
    cache serves: the store is written, then the call raises. *)
Lemma archive_node_run now w node_id entity_type c v ref d1 d2 :
  LRUCache.get now (cache_key entity_type node_id) (node_cache w)
  = (c, Some v) ->
  obj_truthy v = true ->
  touch node_id (graph_db w) = (d1, ret tt) ->
  store_in_cold_storage v = ret ref ->
  gdb_execute_query d1 (QArchive (String.eqb entity_type "Message"))
    [("node_id", VStr node_id); ("archive_reference", VStr ref)]
  = (d2, ret tt) ->
  archive_node obj_truthy gdb_get_node gdb_execute_query store_in_cold_storage
    now node_id entity_type w
  = (mkWorld (LRUCache.delete (cache_key entity_type node_id) c)
       (embedding_cache w) d2 (events w),
     raise NameError).
Proof.
  intros Hget Hv Htouch Hcold Hq.
  unfold archive_node, bindM at 1.
  rewrite (read_lru_hit gdb_get_node now w node_id entity_type c v Hget),
    Htouch.
  unfold ret in *. cbn [fst snd]. cbv beta iota. rewrite Hv.
  unfold bindM at 1, liftM. rewrite Hcold. cbv beta iota.
  unfold bindM at 1, db_execute_query.
  cbn [graph_db with_graph_db with_node_cache]. rewrite Hq. reflexivity.
Qed.

(** C3. No write path completes, and a write can leave a stale entry
    behind. [redis_cache] is not bound in the module, so
    [invalidate_node_cache] deletes the key from the in-process cache and
    then raises [NameError].
    (1) [update_node_with_cache]: when the store takes the update, the
    store is written, the key of the node leaves the in-process cache and
    the call raises [NameError]; when the store refuses, its exception
    goes through. Either way the call does not return.
    (2) [create_relationship_with_cache]: likewise, and the call raises at
    the invalidation of the source, so only the source's key is deleted.
    (3) A turn of the loop of [archive_nodes] that returns has skipped
    its node, archiving nothing; a turn on a truthy node that the
    in-process cache serves runs the archiving statement on the store,
    deletes the key from the in-process cache and raises [NameError].
    (4) After a [create_relationship_with_cache] that the store took, a
    read of the target that the in-process cache can still serve returns
    the object cached before the write, whatever the store now holds. *)
Theorem write_paths_raise_name_error :
  (forall w node_id node_type properties,
      update_node_with_cache gdb_update_node node_id node_type properties w
      = match gdb_update_node (graph_db w) node_id properties with
        | (d, inr _) =>
            (mkWorld
               (LRUCache.delete (cache_key node_type node_id) (node_cache w))
               (embedding_cache w) d (events w),
             raise NameError)
        | (d, inl e) => (with_graph_db w d, raise e)
        end)
  /\ (forall w source_id source_type target_id target_type rel_type
             properties,
      create_relationship_with_cache gdb_create_relationship source_id
        source_type target_id target_type rel_type properties w
      = match gdb_create_relationship (graph_db w) source_id target_id
                rel_type properties with
        | (d, inr _) =>
            (mkWorld
               (LRUCache.delete (cache_key source_type source_id)
                  (node_cache w))
               (embedding_cache w) d (events w),
             raise NameError)
        | (d, inl e) => (with_graph_db w d, raise e)
        end)
  /\ (forall now w node_id entity_type w' b,
      archive_node obj_truthy gdb_get_node gdb_execute_query
        store_in_cold_storage now node_id entity_type w = (w', ret b) ->
      b = false)
  /\ (forall now w node_id entity_type c v ref d1 d2,
      LRUCache.get now (cache_key entity_type node_id) (node_cache w)
      = (c, Some v) ->
      obj_truthy v = true ->
      touch node_id (graph_db w) = (d1, ret tt) ->
      store_in_cold_storage v = ret ref ->
      gdb_execute_query d1 (QArchive (String.eqb entity_type "Message"))
        [("node_id", VStr node_id); ("archive_reference", VStr ref)]
      = (d2, ret tt) ->
      archive_node obj_truthy gdb_get_node gdb_execute_query
        store_in_cold_storage now node_id entity_type w
      = (mkWorld (LRUCache.delete (cache_key entity_type node_id) c)
           (embedding_cache w) d2 (events w),
         raise NameError))
  /\ (forall later w source_id source_type target_id target_type rel_type
             properties d r v e,
      gdb_create_relationship (graph_db w) source_id target_id rel_type
        properties = (d, ret r) ->
      cache_key target_type target_id <> cache_key source_type source_id ->
      LRUCache.lookup (LRUCache.cache (node_cache w))
        (cache_key target_type target_id) = Some (v, e) ->
      e > later ->
      snd (touch target_id d) = ret tt ->
      snd (read later target_id target_type
             (fst (create_relationship_with_cache gdb_create_relationship
                     source_id source_type target_id target_type rel_type
                     properties w)))
      = ret (Some v)).
Proof.
  split; [exact update_node_with_cache_run|].
  split; [exact create_relationship_with_cache_run|].
  split; [exact archive_node_returns|].
  split; [exact archive_node_run|].
  intros later w source_id source_type target_id target_type rel_type
    properties d r v e Hrun Hne Hl He Htouch.
  rewrite create_relationship_with_cache_run, Hrun.
  unfold ret. cbv beta iota. cbn [fst].
  set (w1 := mkWorld _ _ _ _).
  assert (Hget : exists c,
             LRUCache.get later (cache_key target_type target_id)
               (node_cache w1) = (c, Some v)).
  { unfold w1. cbn [node_cache]. unfold LRUCache.get.
    rewrite lru_delete_lookup, Hl by assumption.
    destruct (Z.gtb_spec e later); [eauto|lia]. }
  destruct Hget as [c Hget].
  rewrite (read_lru_hit gdb_get_node later w1 target_id target_type c v Hget).
  cbn [snd]. unfold w1. cbn [graph_db]. now rewrite Htouch.
Qed.

End Layer.

(** *** A store in memory, with two people in the in-process cache *)

Import Graph.

Definition memory_get_node (g : graph) (label id : string)
  : exc (list node) :=
  ret (match_by_id g label (VStr id)).

Definition memory_update_node (g : graph) (node_id : string)
    (properties : dict) : graph * exc node :=
  let g' :=
    mkGraph (map (fun n => if String.eqb (n_id n) node_id
                           then set_props n properties else n) (g_nodes g))
      (g_rels g) in
  match find_node g' node_id with
  | Some n => (g', ret n)
  | None => (g, raise KeyError)
  end.

Definition memory_create_relationship (g : graph)
    (source_id target_id rel_type : string) (properties : dict)
  : graph * exc node :=
  match find_node g source_id with
  | Some n =>
      (mkGraph
         (map (fun n => if String.eqb (n_id n) target_id
                        then set_prop n "degree" (VInt 1) else n) (g_nodes g))
         (g_rels g ++ [mkRel rel_type source_id target_id properties]),
       ret n)
  | None => (g, raise KeyError)
  end.

Definition memory_execute_query (g : graph) (q : query) (params : dict)
  : graph * exc unit :=
  match q, dict_get params "node_id" with
  | QTouch, Some (VStr id) =>
      (mkGraph (map (fun n => if String.eqb (n_id n) id
                              then set_prop n "access_count" (VInt 1) else n)
                  (g_nodes g)) (g_rels g), ret tt)
  | QArchive _, Some (VStr id) =>
      (mkGraph (map (fun n => if String.eqb (n_id n) id
                              then set_prop n "status" (VStr "archived")
                              else n)
                  (g_nodes g)) (g_rels g), ret tt)
  | _, _ => (g, raise StoreError)
  end.

Definition memory_cold_storage (n : node) : exc string :=
  ret (String.append "archive:" (n_id n)).

Definition ann : node :=
  mkNode "p1" ["Person"] [("name", VStr "Ann")].

Definition renamed_ann : node :=
  mkNode "p1" ["Person"] [("name", VStr "Ann B.")].

Definition bob : node :=
  mkNode "p2" ["Person"] [("name", VStr "Bob")].

(** The in-process cache holds [ann] and [bob], unexpired at time 100. *)
Definition warm : world node graph unit :=
  mkWorld
    (LRUCache.mk [("Person:p1", (ann, 3600)); ("Person:p2", (bob, 3600))]
       10000 1800)
    (LRUCache.init 5000 3600)
    (mkGraph [ann; bob] [])
    [].

Lemma write_paths_raise_name_error_witness :
  (exists w',
      update_node_with_cache memory_update_node "p1" "Person"
        [("name", VStr "Ann B.")] warm = (w', raise NameError)
      /\ g_nodes (graph_db w') = [renamed_ann; bob]
      /\ LRUCache.keys (node_cache w') = ["Person:p2"])
  /\ (exists w',
      create_relationship_with_cache memory_create_relationship "p1" "Person"
        "p2" "Person" "CONNECTED_TO" [] warm = (w', raise NameError)
      /\ g_rels (graph_db w') = [mkRel "CONNECTED_TO" "p1" "p2" []]
      /\ LRUCache.keys (node_cache w') = ["Person:p2"]
      /\ snd (get_node_with_cache memory_get_node memory_execute_query 100
                "p2" "Person" w') = ret (Some bob)
      /\ memory_get_node (graph_db w') "Person" "p2" <> ret [bob])
  /\ (exists w',
      archive_nodes node_truthy memory_get_node memory_execute_query
        memory_cold_storage 100 ["p1"; "p2"] "Person" warm
      = (w', raise NameError)
      /\ LRUCache.keys (node_cache w') = ["Person:p2"]
      /\ map (fun n => dict_get (n_props n) "status") (g_nodes (graph_db w'))
         = [Some (VStr "archived"); None]).
Proof.
  pose proof (write_paths_raise_name_error (Vec := unit) node_truthy
                memory_get_node memory_update_node memory_create_relationship
                memory_execute_query memory_cold_storage)
    as (Hupdate & Hcreate & _ & Harchive & Hstale).
  split; [|split].
  - eexists. split; [rewrite Hupdate; reflexivity|]. split; reflexivity.
  - eexists. split; [rewrite Hcreate; reflexivity|].
    split; [reflexivity|]. split; [reflexivity|]. split.
    + apply (Hstale 100 warm "p1" "Person" "p2" "Person" "CONNECTED_TO" []
               _ ann bob 3600 eq_refl);
        [discriminate|reflexivity|lia|reflexivity].
    + discriminate.
  - eexists. split.
    + unfold archive_nodes, bindM at 1.
      erewrite (Harchive 100 warm "p1" "Person" _ ann _ _ _);
        reflexivity.
    + split; reflexivity.
Defined.

End CacheFacts.
(** ** Hybrid search: the call to the operation cache *)

Module HybridSearchFacts.

Import Py Graph GraphTraversal RagEngine.

Section Search.

Context {Obj Gdb Vec : Type}.
Context (of_result : hybrid_result -> Obj).
Context (generate_embedding : string -> exc Vec).
Context (search_vectors : string -> Vec -> Z -> exc (list hit)).
Context (py_str : value -> string).
Context (py_hash : string -> Z).
Context (run_pasted : graph -> string -> string -> exc (list node)).
Context (self : engine).
Context (g : graph).

Implicit Types (w : world Obj Gdb Vec) (v : Obj).

Local Abbreviation embed := (get_embedding_with_cache generate_embedding py_str py_hash).
Local Abbreviation search :=
  (semantic_search generate_embedding search_vectors py_str py_hash self).
Local Abbreviation hybrid :=
  (hybrid_search of_result generate_embedding search_vectors py_str py_hash
     run_pasted self g).

Lemma bindM_run {A B} (m : M Obj Gdb Vec A) (k : A -> M Obj Gdb Vec B)
    w w1 a :
  m w = (w1, ret a) -> bindM m k w = k a w1.
Proof. unfold bindM. now intros ->. Qed.

(** Runs the first call of a sequence, given its outcome. *)
Ltac run side := erewrite bindM_run; [|side]; cbv beta iota.

(** *** The embedding cache *)

Lemma get_embedding_with_cache_hit now text w c vec :
  LRUCache.get now (py_str (VInt (py_hash text))) (embedding_cache w)
  = (c, Some vec) ->
  embed now text w = (with_embedding_cache w c, ret vec).
Proof.
  intros H. unfold get_embedding_with_cache.
  run ltac:(unfold embedding_cache_get; now rewrite H).
  reflexivity.
Qed.

Lemma get_embedding_with_cache_miss now text w c vec c' :
  LRUCache.get now (py_str (VInt (py_hash text))) (embedding_cache w)
  = (c, None) ->
  generate_embedding text = ret vec ->
  LRUCache.set now (py_str (VInt (py_hash text))) vec c = (c', ret tt) ->
  embed now text w
  = (mkWorld (node_cache w) c' (graph_db w)
       (events w ++ [EvGenerateEmbedding text]), ret vec).
Proof.
  intros H Hg Hs. unfold get_embedding_with_cache.
  run ltac:(unfold embedding_cache_get; now rewrite H).
  run ltac:(reflexivity).
  run ltac:(unfold liftM; now rewrite Hg).
  run ltac:(unfold embedding_cache_set; simpl; now rewrite Hs).
  reflexivity.
Qed.

(** *** The vector search and its filter *)

Definition relevant (hits : list hit) : list hit :=
  List.filter (fun r => Qle_bool (similarity_threshold self) (hit_score r))
    hits.

Lemma relevant_spec hits r :
  In r (relevant hits)
  <-> In r hits /\ (similarity_threshold self <= hit_score r)%Q.
Proof.
  unfold relevant. rewrite List.filter_In, Qle_bool_iff. reflexivity.
Qed.

Lemma semantic_search_spec now query_text filters w w1 vec hits :
  embed now query_text w = (w1, ret vec) ->
  search_vectors (collection_name self) vec (max_results self) = ret hits ->
  search now query_text filters w
  = (mkWorld (node_cache w1) (embedding_cache w1) (graph_db w1)
       (events w1 ++ [EvSearchVectors (collection_name self)
                        (max_results self)]),
     ret (relevant hits)).
Proof.
  intros He Hs. unfold semantic_search.
  run ltac:(exact He).
  run ltac:(reflexivity).
  run ltac:(unfold liftM; now rewrite Hs).
  reflexivity.
Qed.

(** C8. [hybrid_search] raises [NameError] at its first call and does
    nothing else. [get_operation_cache] reads the module global
    [redis_cache], which is not bound.
    (1) For every query, filters, hop count and state, the call raises
    [NameError] and leaves the state as it was: no embedding is asked for,
    the vector store and the traversal engine are not called, nothing is
    cached and no value is returned.
    (2) [set_operation_cache] raises [NameError] too, whatever the key, the
    value and the time to live.
    (3) [semantic_search], called on its own, is the first stage as
    described: it embeds the query through the embedding cache, asks the
    vector store for at most [max_results] rows of the collection and
    returns the rows whose score is at least the similarity threshold, in
    the store's order. *)
Theorem hybrid_search_raises_name_error :
  (forall now query_text filters max_hops w,
      hybrid now query_text filters max_hops w = (w, raise NameError))
  /\ (forall key v ttl w,
      set_operation_cache key v ttl w = (w, raise NameError))
  /\ (forall now query_text filters w w1 vec hits,
      embed now query_text w = (w1, ret vec) ->
      search_vectors (collection_name self) vec (max_results self)
      = ret hits ->
      search now query_text filters w
      = (mkWorld (node_cache w1) (embedding_cache w1) (graph_db w1)
           (events w1 ++ [EvSearchVectors (collection_name self)
                            (max_results self)]),
         ret (List.filter
                (fun r => Qle_bool (similarity_threshold self) (hit_score r))
                hits))).
Proof.
  split; [reflexivity|]. split; [reflexivity|].
  exact semantic_search_spec.
Qed.

End Search.

(** *** A run against stand-ins for the model and the vector store *)

(** Python's [str] on the values the run uses. *)
Definition show (v : value) : string :=
  match v with
  | VNone => "None"
  | VInt n => NilZero.string_of_int (Z.to_int n)
  | VStr s => s
  | _ => "?"
  end.

Definition length_hash (s : string) : Z := Z.of_nat (String.length s).

Definition length_embedding (text : string) : exc Z :=
  ret (Z.of_nat (String.length text)).

(** A vector store with a near row and a far row. *)
Definition two_rows (collection : string) (v : Z) (limit : Z)
  : exc (list hit) :=
  ret (take (Z.to_nat limit) [mkHit "a" (9 # 10) []; mkHit "z" (1 # 10) []]).

Definition team : graph :=
  mkGraph
    [ mkNode "a" ["Person"] [("name", VStr "Ann")];
      mkNode "t" ["Task"] [("status", VStr "pending")] ]
    [ mkRel "ASSIGNED_TO" "t" "a" [("since", VInt 1)] ].

Definition lenient : engine := mkEngine "documents" (7 # 10) 10.

Definition strict : engine := mkEngine "documents" 1 10.

(** A server that refuses every statement with a status pasted into it. *)
Definition refused (g : graph) (clause entity_id : string)
  : exc (list node) :=
  raise StoreError.

Definition cold : world hybrid_result unit Z :=
  mkWorld (LRUCache.init 10000 1800) (LRUCache.init 5000 3600) tt [].

(** [cold] after the embedding and the vector search. *)
Definition searched : world hybrid_result unit Z :=
  mkWorld (LRUCache.init 10000 1800)
    (LRUCache.mk [("10", (10, 3600))] 5000 3600) tt
    [EvGenerateEmbedding "who is ann"; EvSearchVectors "documents" 10].

Lemma hybrid_search_raises_name_error_witness :
  hybrid_search (fun r => r) length_embedding two_rows show length_hash
    refused lenient team 0 "who is ann" VNone 2 cold
  = (cold, raise NameError)
  /\ semantic_search length_embedding two_rows show length_hash lenient 0
       "who is ann" VNone cold
     = (searched, ret [mkHit "a" (9 # 10) []])
  /\ semantic_search length_embedding two_rows show length_hash strict 0
       "who is ann" VNone cold
     = (searched, ret []).
Proof.
  pose proof (hybrid_search_raises_name_error (Obj := hybrid_result)
                (Gdb := unit) (fun r => r) length_embedding two_rows show
                length_hash refused lenient team) as (Hraise & _ & Hlenient).
  pose proof (hybrid_search_raises_name_error (Obj := hybrid_result)
                (Gdb := unit) (fun r => r) length_embedding two_rows show
                length_hash refused strict team) as (_ & _ & Hstrict).
  split; [apply Hraise|].
  split; [erewrite Hlenient by reflexivity|erewrite Hstrict by reflexivity];
    reflexivity.
Defined.

End HybridSearchFacts.

(** ** Entity resolution: what the strategies return *)

Module MatchFacts.

Import Py Graph EntityResolution.

Lemma value_eqb_str w s : value_eqb w (VStr s) = true -> w = VStr s.
Proof.
  destruct w; simpl; try discriminate.
  intros H. apply String.eqb_eq in H. now subst.
Qed.

Lemma query_by_property_head g entity_type prop v e rest :
  query_by_property g entity_type prop v = e :: rest ->
  In e (g_nodes g) /\ has_label entity_type e = true
  /\ prop_is e prop v = true.
Proof.
  unfold query_by_property. intros H.
  assert (Hin : In e (List.filter
                        (fun n => has_label entity_type n && prop_is n prop v)
                        (g_nodes g))).
  { eapply TraversalFacts.In_take. rewrite H. now left. }
  apply List.filter_In in Hin as [Hin Hc].
  apply andb_true_iff in Hc as [? ?]. auto.
Qed.



Definition ann : node :=
  mkNode "p1" ["Person"] [("name", VStr "Ann"); ("phone", VStr "5550100")].

Definition dotted_ann : node :=
  mkNode "p2" ["Person"] [("name", VStr "Ann"); ("phone", VStr "555-0100")].


(** X2. The phone of the record is compared after its non-digits are
    removed, the stored phone as it is: when a Person record that carries
    a phone and neither an e-mail nor social handles is matched by
    [_match_by_identifiers], the phone stored on the node is the digit
    string of the record's phone; a node whose stored phone holds any
    other character is not matched. *)
Theorem phone_match_needs_stored_digits (g : graph) (entity_data : dict)
    (phone : string) (e : node) :
  dict_get entity_data "email" = None ->
  dict_get entity_data "social_handles" = None ->
  dict_get entity_data "phone" = Some (VStr phone) ->
  _match_by_identifiers g entity_data "Person" = ret (Some e) ->
  node_prop e "phone" = Some (VStr (Normalize._normalize_phone phone))
  /\ forall stored, node_prop e "phone" = Some (VStr stored) ->
                    Normalize.all_chars Normalize.isdigit stored = true.
Proof.
  intros He Hs Hp. unfold _match_by_identifiers, identifiers_of.
  simpl. rewrite He, Hs, Hp. simpl.
  destruct (Normalize._normalize_phone phone) as [|c digits] eqn:Np; simpl;
    [discriminate|].
  destruct (query_by_property g "Person" "phone" _) as [|e' l] eqn:Q;
    [discriminate|].
  intros H. invert H. apply query_by_property_head in Q as (_ & _ & Hq).
  unfold prop_is in Hq.
  destruct (node_prop e "phone") as [w|]; [|discriminate].
  apply value_eqb_str in Hq. subst w. split; [reflexivity|].
  intros stored H. invert H. rewrite <- Np. apply NormalizeFacts.join_if_all.
Qed.

Lemma phone_match_needs_stored_digits_witness :
  node_prop ann "phone" = Some (VStr "5550100")
  /\ _match_by_identifiers (mkGraph [dotted_ann] [])
       [("phone", VStr "555-0100")] "Person" = ret None.
Proof.
  pose proof (phone_match_needs_stored_digits (mkGraph [dotted_ann; ann] [])
                [("phone", VStr "555-0100")] "555-0100" ann
                eq_refl eq_refl eq_refl eq_refl) as [H _].
  split; [exact H|reflexivity].
Defined.

Section Resolve.

Context (extractBests : value -> list value -> Z -> nat -> exc (list (value * Z)))
        {Vec : Type} (get_embedding : value -> exc Vec)
        {Vdb : Type} (vdb_search : Vdb -> string -> Vec -> Z -> exc (list vhit))
        (self : engine).

(** X3. A record with no identifier for its type, no [name], no [text]
    and no [relationships] resolves to [None]: no strategy has anything to
    look for, and neither the fuzzy matcher, the embedding service nor the
    vector store is called (the result is the same whatever they are). *)
Theorem resolve_entity_nothing_to_match (g : graph) (vdb : Vdb)
    (entity_data : dict) (entity_type : string) :
  identifiers_of entity_data entity_type = ret [] ->
  dict_get entity_data "name" = None ->
  dict_get entity_data "text" = None ->
  dict_get entity_data "relationships" = None ->
  resolve_entity extractBests Vec get_embedding Vdb vdb_search self g vdb
    entity_data entity_type = ret None.
Proof.
  intros Hi Hn Ht Hr.
  unfold resolve_entity, _match_by_identifiers, _match_by_fuzzy_name,
    _match_by_embedding, _match_by_relationships, name_field_of, dict_mem.
  rewrite Hi, Hn, Hr. simpl. rewrite Ht. reflexivity.
Qed.

End Resolve.

Lemma resolve_entity_nothing_to_match_witness :
  resolve_entity ResolveFacts.exact_extractBests unit
    ResolveFacts.unit_embedding (list vhit) ResolveFacts.list_search
    ResolveFacts.default_engine ResolveFacts.two_people []
    [("note", VStr "met at the fair")] "Person" = ret None.
Proof.
  apply resolve_entity_nothing_to_match; reflexivity.
Defined.

End MatchFacts.

(** ** Merging: the merged properties, and what a merge leaves in place *)

Module MergeResultFacts.

Import Py Graph EntityResolution PyFacts TransferFacts MergeFacts.

(** *** [_merge_properties], key by key *)

Lemma dict_get_absent (d : dict) k : ~ In k (map fst d) -> dict_get d k = None.
Proof.
  induction d as [|[k' v] d IH]; simpl; auto.
  intros H. destruct (String.eqb_spec k' k) as [->|Hne].
  - exfalso. apply H. now left.
  - apply IH. intros Hin. apply H. now right.
Qed.

Lemma dict_get_present (d : dict) k v : dict_get d k = Some v -> In (k, v) d.
Proof.
  induction d as [|[k' v'] d IH]; simpl; [discriminate|].
  destruct (String.eqb_spec k' k) as [->|Hne].
  - intros H. invert H. now left.
  - intros H. right. auto.
Qed.

Lemma dict_get_key (d : dict) k :
  In k (map fst d) -> exists v, dict_get d k = Some v.
Proof.
  induction d as [|[k' v'] d IH]; simpl; [intros []|].
  destruct (String.eqb_spec k' k) as [->|Hne]; [eauto|].
  intros [H|H]; [contradiction|auto].
Qed.

Lemma dict_get_set (d : dict) k k' v :
  dict_get (dict_set d k v) k' = if String.eqb k k' then Some v else dict_get d k'.
Proof.
  destruct (String.eqb_spec k k') as [->|Hne].
  - apply dict_get_set_eq.
  - now apply dict_get_set_ne.
Qed.

(** The copy of the target without [id] and [labels]. *)
Definition unreserved (target_entity : dict) : dict :=
  fold_left (fun m kv =>
               if reserved (fst kv) then m else dict_set m (fst kv) (snd kv))
    target_entity [].

Lemma unreserved_get_acc (target : dict) k : forall acc,
  List.NoDup (map fst target) ->
  dict_get (fold_left (fun m kv =>
                         if reserved (fst kv) then m
                         else dict_set m (fst kv) (snd kv)) target acc) k
  = match (if reserved k then None else dict_get target k) with
    | Some v => Some v
    | None => dict_get acc k
    end.
Proof.
  induction target as [|[k0 v0] target IH]; intros acc Hu; simpl.
  - now destruct (reserved k).
  - simpl in Hu. apply List.NoDup_cons_iff in Hu as [Hnot Hu].
    rewrite IH by assumption.
    destruct (String.eqb_spec k0 k) as [->|Hne].
    + rewrite (dict_get_absent target k Hnot).
      destruct (reserved k); [reflexivity|]. apply dict_get_set_eq.
    + destruct (reserved k); [|destruct (dict_get target k); [reflexivity|]];
        (destruct (reserved k0); [reflexivity|now apply dict_get_set_ne]).
Qed.

Lemma unreserved_get (target : dict) k :
  List.NoDup (map fst target) ->
  dict_get (unreserved target) k
  = if reserved k then None else dict_get target k.
Proof.
  intros Hu. unfold unreserved. rewrite unreserved_get_acc by assumption.
  destruct (reserved k); [reflexivity|]. now destruct (dict_get target k).
Qed.

Section WithDates.

Variable fromisoformat : string -> option Z.

(** A turn of the loop for one key leaves the other keys as they are. *)
Lemma merge_key_other source strat merged key v merged' k :
  merge_key fromisoformat source strat merged key v = ret merged' ->
  key <> k -> dict_get merged' k = dict_get merged k.
Proof.
  unfold merge_key. intros H Hne.
  assert (Hset : forall x, dict_get (dict_set merged key x) k = dict_get merged k)
    by (intros x; now apply dict_get_set_ne).
  destruct (reserved key); [now invert H|].
  destruct (dict_get merged key) as [current|]; [|invert H; apply Hset].
  destruct strat; try (invert H; auto; fail).
  destruct (endswith key "_at" || String.eqb key "timestamp").
  - destruct (truthy _ && truthy current); [|now invert H].
    destruct (to_date _ _) as [|sd]; [discriminate|]. cbn [bind] in H.
    destruct (to_date _ current) as [|td]; [discriminate|]. cbn [bind] in H.
    destruct (py_gt sd td) as [|newer]; [discriminate|]. cbn [bind] in H.
    invert H. apply Hset.
  - destruct (String.eqb key "confidence").
    + destruct (py_max v current) as [|m]; [discriminate|]. cbn [bind] in H.
      invert H. apply Hset.
    + destruct (negb (truthy current) && truthy v); invert H; auto.
Qed.

Lemma merge_keys_other source strat items k : forall merged merged',
  merge_keys fromisoformat source strat merged items = ret merged' ->
  ~ In k (map fst items) -> dict_get merged' k = dict_get merged k.
Proof.
  induction items as [|[key v] items IH]; intros merged merged' H Hnot;
    simpl in H.
  - now invert H.
  - destruct (merge_key fromisoformat source strat merged key v) as [|m1] eqn:E;
      [discriminate|]. cbn [bind] in H.
    rewrite (IH _ _ H) by (intros Hin; apply Hnot; now right).
    eapply merge_key_other; eauto. intros ->. apply Hnot. now left.
Qed.

(** The turn for a key of the source decides the key's final value. *)
Lemma merge_keys_at source strat items k v : forall merged merged',
  List.NoDup (map fst items) -> In (k, v) items ->
  merge_keys fromisoformat source strat merged items = ret merged' ->
  exists m1 m2,
    merge_key fromisoformat source strat m1 k v = ret m2
    /\ dict_get m1 k = dict_get merged k
    /\ dict_get merged' k = dict_get m2 k.
Proof.
  induction items as [|[key u] items IH]; intros merged merged' Hu Hin H;
    [destruct Hin|].
  simpl in Hu. apply List.NoDup_cons_iff in Hu as [Hnot Hu]. simpl in H.
  destruct (merge_key fromisoformat source strat merged key u) as [|m1] eqn:E;
    [discriminate|]. cbn [bind] in H.
  destruct Hin as [Heq|Hin].
  - invert Heq. exists merged, m1. split; [exact E|]. split; [reflexivity|].
    eapply merge_keys_other; eauto.
  - destruct (IH _ _ Hu Hin H) as (a & b & Hk & Ha & Hb).
    exists a, b. split; [exact Hk|]. split; [|exact Hb].
    rewrite Ha. eapply merge_key_other; eauto.
    intros ->. apply Hnot. apply in_map_iff. now exists (k, v).
Qed.

(** The keys that [newer_wins] treats on their own. *)
Definition special (key : string) : bool :=
  endswith key "_at" || String.eqb key "timestamp" || String.eqb key "confidence".

(** X4. The value [_merge_properties] gives a key other than [id],
    [labels] and [merged_count], for dicts (each key once), when it
    returns: a key of one entity only keeps its value; for a key of both,
    [source_wins] takes the source's value, [target_wins] and any unknown
    strategy keep the target's, and [newer_wins], for a key that is
    neither a date ([..._at], [timestamp]) nor [confidence], keeps the
    target's value unless it is falsy and the source's is truthy. *)
Theorem merge_properties_by_key (source_entity target_entity : dict)
    (merge_strategy : strategy) (merged : dict) (key : string) :
  List.NoDup (map fst source_entity) ->
  List.NoDup (map fst target_entity) ->
  _merge_properties fromisoformat source_entity target_entity merge_strategy
  = ret merged ->
  reserved key = false -> key <> "merged_count" ->
  match dict_get target_entity key, dict_get source_entity key with
  | None, None => dict_get merged key = None
  | Some t, None => dict_get merged key = Some t
  | None, Some s => dict_get merged key = Some s
  | Some t, Some s =>
      match merge_strategy with
      | source_wins => dict_get merged key = Some s
      | target_wins | other_strategy => dict_get merged key = Some t
      | newer_wins =>
          special key = false ->
          dict_get merged key
          = Some (if negb (truthy t) && truthy s then s else t)
      end
  end.
Proof.
  intros Hs Ht Hm Hr Hc. unfold _merge_properties in Hm.
  fold (unreserved target_entity) in Hm.
  destruct (merge_keys fromisoformat source_entity merge_strategy
              (unreserved target_entity) source_entity) as [|m] eqn:E;
    [discriminate|]. cbn [bind] in Hm.
  destruct (next_merged_count target_entity) as [|c]; [discriminate|].
  cbn [bind] in Hm. invert Hm.
  rewrite dict_get_set_ne by congruence.
  pose proof (unreserved_get target_entity key Ht) as Hbase.
  rewrite Hr in Hbase.
  destruct (dict_get source_entity key) as [s|] eqn:Gs.
  - apply dict_get_present in Gs as Hin.
    destruct (merge_keys_at _ _ _ _ _ _ _ Hs Hin E) as (m1 & m2 & Hk & H1 & H2).
    rewrite H2. rewrite Hbase in H1. unfold merge_key in Hk.
    rewrite Hr, H1 in Hk.
    destruct (dict_get target_entity key) as [t|].
    + destruct merge_strategy.
      * unfold special. intros Hsp.
        apply orb_false_elim in Hsp as [Hsp Hconf].
        rewrite Hsp, Hconf in Hk.
        destruct (negb (truthy t) && truthy s); invert Hk; auto.
        apply dict_get_set_eq.
      * invert Hk. apply dict_get_set_eq.
      * now invert Hk.
      * now invert Hk.
    + invert Hk. apply dict_get_set_eq.
  - assert (Hnot : ~ In key (map fst source_entity)).
    { intros Hin. apply dict_get_key in Hin as [v' Hv]. congruence. }
    rewrite (merge_keys_other _ _ _ _ _ _ E Hnot), Hbase.
    now destruct (dict_get target_entity key).
Qed.

Lemma unreserved_reserved (target : dict) k : forall acc,
  reserved k = true ->
  dict_get (fold_left (fun m kv =>
                         if reserved (fst kv) then m
                         else dict_set m (fst kv) (snd kv)) target acc) k
  = dict_get acc k.
Proof.
  induction target as [|[k0 v0] target IH]; intros acc Hr; simpl; auto.
  rewrite IH by assumption. destruct (reserved k0) eqn:R0; [reflexivity|].
  apply dict_get_set_ne. congruence.
Qed.

Lemma merge_keys_reserved source strat items k : forall merged merged',
  reserved k = true ->
  merge_keys fromisoformat source strat merged items = ret merged' ->
  dict_get merged' k = dict_get merged k.
Proof.
  induction items as [|[key v] items IH]; intros merged merged' Hr H;
    simpl in H.
  - now invert H.
  - destruct (merge_key fromisoformat source strat merged key v) as [|m1] eqn:E;
      [discriminate|]. cbn [bind] in H.
    rewrite (IH _ _ Hr H).
    destruct (String.eqb_spec key k) as [->|Hne].
    + unfold merge_key in E. rewrite Hr in E. now invert E.
    + eapply merge_key_other; eauto.
Qed.

(** X5. The dict that [_merge_properties] returns never holds [id] or
    [labels], and its [merged_count] is the target's count plus one (one
    when the target has none, or [None] or 0 for it). *)
Theorem merge_properties_reserved_and_count (source_entity target_entity : dict)
    (merge_strategy : strategy) (merged : dict) :
  _merge_properties fromisoformat source_entity target_entity merge_strategy
  = ret merged ->
  dict_get merged "id" = None /\ dict_get merged "labels" = None
  /\ (dict_get target_entity "merged_count" = None
      \/ dict_get target_entity "merged_count" = Some VNone ->
      dict_get merged "merged_count" = Some (VInt 1))
  /\ (forall n, dict_get target_entity "merged_count" = Some (VInt n) ->
      dict_get merged "merged_count" = Some (VInt (n + 1))).
Proof.
  intros Hm. unfold _merge_properties in Hm.
  destruct (merge_keys fromisoformat source_entity merge_strategy _
              source_entity) as [|m] eqn:E; [discriminate|]. cbn [bind] in Hm.
  destruct (next_merged_count target_entity) as [|c] eqn:Ec; [discriminate|].
  cbn [bind] in Hm. invert Hm.
  assert (Hres : forall k, reserved k = true ->
                           dict_get (dict_set m "merged_count" c) k = None).
  { intros k Hr. rewrite dict_get_set_ne by (intros <-; discriminate).
    rewrite (merge_keys_reserved _ _ _ _ _ _ Hr E).
    now rewrite unreserved_reserved. }
  split; [now apply Hres|]. split; [now apply Hres|].
  rewrite dict_get_set_eq. unfold next_merged_count in Ec. split.
  - intros [H|H]; rewrite H in Ec; simpl in Ec; now invert Ec.
  - intros n H. rewrite H in Ec. simpl in Ec.
    destruct (n =? 0) eqn:En; simpl in Ec; invert Ec; [|reflexivity].
    apply Z.eqb_eq in En. now subst.
Qed.

End WithDates.

(** *** Two records of one person *)

Definition newer : dict :=
  [("id", VStr "A"); ("name", VStr "Alice A."); ("title", VStr "CTO");
   ("phone", VStr "5550100")].

Definition older : dict :=
  [("id", VStr "B"); ("name", VStr "Alice B."); ("title", VStr "");
   ("merged_count", VInt 2)].

Lemma newer_keys : List.NoDup (map fst newer).
Proof.
  simpl. repeat (constructor; [simpl; intuition discriminate|]). constructor.
Qed.

Lemma older_keys : List.NoDup (map fst older).
Proof.
  simpl. repeat (constructor; [simpl; intuition discriminate|]). constructor.
Qed.

Lemma merge_properties_by_key_witness :
  exists merged,
    _merge_properties ResolveFacts.no_dates newer older newer_wins = ret merged
    /\ dict_get merged "name" = Some (VStr "Alice B.")
    /\ dict_get merged "title" = Some (VStr "CTO")
    /\ dict_get merged "phone" = Some (VStr "5550100").
Proof.
  eexists. split; [reflexivity|].
  pose proof (fun key => merge_properties_by_key ResolveFacts.no_dates newer
                older newer_wins _ key newer_keys older_keys eq_refl) as H.
  split; [|split].
  - exact (H "name" eq_refl ltac:(discriminate) eq_refl).
  - exact (H "title" eq_refl ltac:(discriminate) eq_refl).
  - exact (H "phone" eq_refl ltac:(discriminate)).
Defined.

Lemma merge_properties_reserved_and_count_witness :
  exists merged,
    _merge_properties ResolveFacts.no_dates newer older source_wins = ret merged
    /\ dict_get merged "id" = None
    /\ dict_get merged "merged_count" = Some (VInt 3).
Proof.
  eexists. split; [reflexivity|].
  destruct (merge_properties_reserved_and_count ResolveFacts.no_dates newer
              older source_wins _ eq_refl) as (Hid & _ & _ & Hcount).
  split; [exact Hid|]. exact (Hcount 2 eq_refl).
Defined.

End MergeResultFacts.

(** ** Merging: errors, and what a merge never removes *)

Module MergeEffectFacts.

Import Py Graph EntityResolution PyFacts TransferFacts MergeFacts.




Section Merge.

Context {Vec : Type} (get_embedding : value -> exc Vec)
        {Vdb : Type}
        (vdb_upsert : Vdb -> string -> string -> Vec -> dict -> Vdb * exc unit)
        (fromisoformat : string -> option Z).

Local Abbreviation merge :=
  (merge_entities Vec get_embedding Vdb vdb_upsert fromisoformat).




Lemma merge_entities_returns_target g vdb merged_at s t ty strat g' vdb' e :
  merge g vdb merged_at s t ty strat = (g', vdb', ret e) ->
  exists rest, match_by_id g' ty (VStr t) = e :: rest.
Proof.
  unfold merge_entities.
  destruct (match_by_id g ty (VStr s)) as [|src rest1]; [discriminate|].
  destruct (match_by_id g ty (VStr t)) as [|tgt rest2]; [discriminate|].
  destruct (_merge_properties _ _ _ _) as [|props]; [discriminate|].
  destruct (_update_entity_embedding _ _ _ _ _ _ _ _) as [vdb2 [|u]];
    [discriminate|].
  destruct (match_by_id _ ty (VStr t)) as [|e' rest] eqn:M; [discriminate|].
  intros H. invert H. eauto.
Qed.

(** X8. Nothing stops a merge of an entity into itself: when
    [merge_entities(a, a, type)] returns, the node it returns is the
    entity [a], now marked [merged = true] with [merged_into = a]. *)
Theorem merge_entities_into_itself (g : graph) (vdb : Vdb)
    (merged_at id entity_type : string) (merge_strategy : strategy)
    (g' : graph) (vdb' : Vdb) (e : node) :
  merge g vdb merged_at id id entity_type merge_strategy = (g', vdb', ret e) ->
  n_id e = id
  /\ dict_get (n_props e) "merged" = Some (VBool true)
  /\ dict_get (n_props e) "merged_into" = Some (VStr id).
Proof.
  intros Hm.
  destruct (merge_entities_returns_target _ _ _ _ _ _ _ _ _ _ Hm) as [rest Hr].
  destruct (merge_entities_marks_source _ _ _ _ _ _ _ _ _ _ _ _ _ Hm)
    as [_ Hmark].
  assert (Hin : In e (match_by_id g' entity_type (VStr id)))
    by (rewrite Hr; now left).
  split; [|now apply Hmark].
  unfold match_by_id in Hin. apply List.filter_In in Hin as [_ Hc].
  apply andb_true_iff in Hc as [_ Hc]. rewrite prop_is_id in Hc.
  now apply String.eqb_eq in Hc.
Qed.

End Merge.

Import ResolveFacts.


Lemma merge_entities_into_itself_witness :
  exists g' vdb' e,
    merge_entities unit unit_embedding (list vhit) list_upsert no_dates
      office [] "2026-01-01T00:00:00" "A" "A" "Person" newer_wins
    = (g', vdb', ret e)
    /\ n_id e = "A"
    /\ dict_get (n_props e) "merged_into" = Some (VStr "A").
Proof.
  eexists. eexists. eexists. split; [vm_compute; reflexivity|].
  match goal with
  | |- n_id ?e = _ /\ _ =>
      destruct (merge_entities_into_itself unit_embedding list_upsert no_dates
                  office [] "2026-01-01T00:00:00" "A" "Person" newer_wins
                  _ _ e eq_refl) as (Hid & _ & Hinto)
  end.
  split; [exact Hid|exact Hinto].
Defined.

End MergeEffectFacts.

(** ** Traversal: what the result holds, and the edges of the hop count *)

Module TraversalResultFacts.

Import Py Graph GraphTraversal TraversalFacts.

(** A node and a relationship the traversal may report. *)
Definition reported_node g (rf nf : option (list string)) (n : node) : Prop :=
  In n (g_nodes g) /\ node_ok nf n = true
  /\ exists r, In r (g_rels g) /\ rel_ok rf r = true
               /\ (n_id n = r_src r \/ n_id n = r_dst r).

Definition reported_rel g (rf : option (list string)) (r : rel) : Prop :=
  In r (g_rels g) /\ rel_ok rf r = true.

Lemma neighbour_reported g cur rf nf rec :
  neighbour g cur rf nf rec ->
  reported_node g rf nf (rec_m rec) /\ reported_rel g rf (rec_r rec).
Proof.
  intros (Hr & Hf & Hrf & Hnf & Hend). split; [|split; assumption].
  split; [now apply TransferFacts.find_node_In in Hf|]. split; [assumption|].
  exists (rec_r rec). split; [assumption|]. split; [assumption|].
  destruct Hend as [[_ ->]|[_ ->]]; auto.
Qed.

Lemma Forall_filter_take {A B} (P : B -> Prop) (f : A -> B) (p : A -> bool)
    k (l : list A) :
  (forall x, In x l -> P (f x)) ->
  List.Forall P (map f (List.filter p (take k l))).
Proof.
  intros H. apply List.Forall_forall. intros y Hy.
  apply in_map_iff in Hy as (x & <- & Hx).
  apply List.filter_In in Hx as [Hx _]. apply In_take in Hx. auto.
Qed.

Section Loop.

Variables (g : graph) (max_hops cap : Z) (rf nf : option (list string)).

Local Abbreviation loop := (traverse_loop g max_hops cap rf nf).

Definition sound (ns : list node) (rs : list rel) : Prop :=
  List.Forall (reported_node g rf nf) ns /\ List.Forall (reported_rel g rf) rs.

Lemma traverse_loop_sound : forall fuel st res,
  sound (out_nodes st) (out_rels st) ->
  loop fuel st = Some (ret res) ->
  sound (nodes res) (relationships res).
Proof.
  induction fuel as [|fuel IH]; intros [q V ns rs] res Hinv; [discriminate|].
  destruct q as [|[cur hop] q].
  - simpl. intros H. now invert H.
  - destruct ((hop >? max_hops) || bool_decide (cur ∈ V)) eqn:Hskip.
    + rewrite traverse_loop_skip by assumption. now apply IH.
    + destruct (_expand_from_node g cur cap rf nf) as [e|records] eqn:He.
      * cbn [traverse_loop queue visited out_nodes out_rels].
        rewrite Hskip, He. discriminate.
      * destruct (process_records cap hop ({[cur]} ∪ V) records q ns rs)
          as [[q1 ns1] rs1] eqn:Hp.
        rewrite (traverse_loop_expand _ _ _ _ _ _ _ _ _ _ _ _ _ _ _ _
                   Hskip He Hp).
        assert (Hinv1 : sound ns1 rs1).
        { destruct (process_records_prefix cap hop ({[cur]} ∪ V) records
                      q ns rs) as (k & _ & Heq & _).
          rewrite Hp in Heq. invert Heq.
          apply expand_from_node_neighbours in He as [Hn _].
          destruct Hinv as [Hns Hrs]. simpl in Hns, Hrs. split.
          - apply List.Forall_app. split; [assumption|].
            apply Forall_filter_take. intros x Hx.
            now apply (neighbour_reported g cur rf nf x (Hn x Hx)).
          - apply List.Forall_app. split; [assumption|].
            apply Forall_filter_take. intros x Hx.
            now apply (neighbour_reported g cur rf nf x (Hn x Hx)). }
        destruct (Z.of_nat (length ns1) >=? cap).
        -- intros H. now invert H.
        -- now apply IH.
Qed.

(** When nothing in the queue is within the hop count, the loop ends with
    the lists as they are. *)
Lemma traverse_loop_beyond : forall q fuel V ns rs,
  List.Forall (fun e => (snd e >? max_hops) = true) q ->
  (length q < fuel)%nat ->
  loop fuel (mkState q V ns rs) = Some (ret (mkResult ns rs)).
Proof.
  induction q as [|[cur hop] q IH]; intros fuel V ns rs Hq Hf;
    (destruct fuel as [|fuel]; [simpl in Hf; lia|]).
  - reflexivity.
  - apply List.Forall_cons_iff in Hq as [Hh Hq]. simpl in Hh.
    rewrite traverse_loop_skip by (now rewrite Hh).
    apply IH; [assumption|simpl in Hf; lia].
Qed.

End Loop.

(** X9. Whatever the traversal returns comes from the graph and is within
    the filters: every node of the result is a stored node that carries
    all the labels of [node_types] and sits at an end of a stored
    relationship of one of the [relationship_types], and every
    relationship of the result is a stored relationship of one of these
    types. *)
Theorem traverse_from_seeds_sound (g : graph) (seed_node_ids : list string)
    (max_hops max_nodes_per_hop : Z)
    (relationship_types node_types : option (list string)) (res : result) :
  traverse_from_seeds g seed_node_ids max_hops max_nodes_per_hop
    relationship_types node_types = Some (ret res) ->
  (forall n, In n (nodes res) ->
     reported_node g (_build_relationship_filter relationship_types)
       (_build_node_filter node_types) n)
  /\ (forall r, In r (relationships res) ->
     reported_rel g (_build_relationship_filter relationship_types) r).
Proof.
  unfold traverse_from_seeds. intros H.
  apply traverse_loop_sound in H as [Hn Hr].
  - split; intros x Hx; [eapply List.Forall_forall in Hn|
                         eapply List.Forall_forall in Hr]; eauto.
  - split; constructor.
Qed.

Definition desk : graph :=
  mkGraph
    [ mkNode "a" ["Person"] [("name", VStr "Ann")];
      mkNode "t" ["Task"] [("status", VStr "pending")];
      mkNode "m" ["Message"] [("content", VStr "hi")] ]
    [ mkRel "ASSIGNED_TO" "t" "a" [("status", VStr "open")];
      mkRel "AUTHORED" "a" "m" [("channel_id", VStr "c")] ].

Lemma traverse_from_seeds_sound_witness :
  exists res,
    traverse_from_seeds desk ["a"] 1 25 (Some ["ASSIGNED_TO"]) None
    = Some (ret res)
    /\ map n_id (nodes res) = ["t"]
    /\ forall n, In n (nodes res) -> In n (g_nodes desk).
Proof.
  eexists. split; [reflexivity|]. split; [reflexivity|].
  intros n Hn.
  destruct (traverse_from_seeds_sound desk ["a"] 1 25 (Some ["ASSIGNED_TO"])
              None _ eq_refl) as [Hnodes _].
  now destruct (Hnodes n Hn).
Defined.

(** X10. With no seed, or with a negative [max_hops], the traversal
    returns the empty context and expands nothing: no seed is within the
    hop count. *)
Theorem traverse_from_seeds_nothing_to_expand (g : graph)
    (seed_node_ids : list string) (max_hops max_nodes_per_hop : Z)
    (relationship_types node_types : option (list string)) :
  seed_node_ids = [] \/ max_hops < 0 ->
  traverse_from_seeds g seed_node_ids max_hops max_nodes_per_hop
    relationship_types node_types = Some (ret (mkResult [] [])).
Proof.
  intros H. unfold traverse_from_seeds, initial_state, fuel_for.
  apply traverse_loop_beyond.
  - destruct H as [->|H]; [constructor|].
    apply List.Forall_forall. intros e He.
    apply in_map_iff in He as (s & <- & _). simpl. lia.
  - rewrite length_map. lia.
Qed.

Lemma traverse_from_seeds_nothing_to_expand_witness :
  traverse_from_seeds desk ["a"] (-1) 25 None None
  = Some (ret (mkResult [] [])).
Proof.
  apply traverse_from_seeds_nothing_to_expand. right. lia.
Defined.

(** X11. [max_hops] bounds the hop of the nodes that are expanded, not of
    those that are returned: with [max_hops = 0] and one seed the result
    is what the inner loop makes of the seed's own expansion, that is the
    seed's direct neighbours (up to the budget) and their relationships. *)
Theorem traverse_from_seeds_zero_hops (g : graph) (seed : string)
    (max_nodes_per_hop : Z)
    (relationship_types node_types : option (list string)) :
  0 <= max_nodes_per_hop ->
  exists records q ns rs,
    _expand_from_node g seed max_nodes_per_hop
      (_build_relationship_filter relationship_types)
      (_build_node_filter node_types) = ret records
    /\ process_records max_nodes_per_hop 0 {[seed]} records [] [] []
       = (q, ns, rs)
    /\ traverse_from_seeds g [seed] 0 max_nodes_per_hop relationship_types
         node_types = Some (ret (mkResult ns rs)).
Proof.
  intros Hcap. unfold traverse_from_seeds, initial_state, fuel_for.
  set (rf := _build_relationship_filter relationship_types).
  set (nf := _build_node_filter node_types).
  destruct (_expand_from_node g seed max_nodes_per_hop rf nf)
    as [e|records] eqn:He.
  { unfold _expand_from_node in He.
    destruct (Z.ltb_spec max_nodes_per_hop 0); [lia|discriminate]. }
  destruct (process_records max_nodes_per_hop 0 ({[seed]} ∪ ∅) records [] [] [])
    as [[q ns] rs] eqn:Hp.
  exists records, q, ns, rs. split; [reflexivity|].
  split; [now rewrite (union_empty_r_L {[seed]}) in Hp|].
  cbn [map length Nat.add].
  rewrite (traverse_loop_expand g 0 max_nodes_per_hop rf nf _ seed 0 [] ∅ [] []
             records q ns rs); [|apply orb_false_intro; [reflexivity|];
                                 apply bool_decide_eq_false_2, not_elem_of_empty
                               |exact He|exact Hp].
  destruct (Z.of_nat (length ns) >=? max_nodes_per_hop); [reflexivity|].
  apply traverse_loop_beyond.
  - destruct (process_records_prefix max_nodes_per_hop 0 ({[seed]} ∪ ∅)
                records [] [] []) as (k & _ & Heq & _).
    rewrite Hp in Heq. invert Heq. simpl.
    apply List.Forall_forall. intros x Hx. unfold enqueued in Hx.
    apply in_map_iff in Hx as (y & <- & _). reflexivity.
  - pose proof (process_records_queue _ _ _ _ _ _ _ _ _ _ Hp) as Hq.
    pose proof (expand_from_node_length _ _ _ _ _ _ He) as Hl.
    simpl in Hq. unfold count_src, count_dst in Hl.
    pose proof (List.filter_length_le
                  (fun r => String.eqb (r_src r) seed) (g_rels g)).
    pose proof (List.filter_length_le
                  (fun r => String.eqb (r_dst r) seed) (g_rels g)).
    lia.
Qed.

Lemma traverse_from_seeds_zero_hops_witness :
  0 <= 25
  /\ exists res,
       traverse_from_seeds desk ["a"] 0 25 None None = Some (ret res)
       /\ map n_id (nodes res) = ["m"; "t"].
Proof.
  split; [lia|].
  destruct (traverse_from_seeds_zero_hops desk "a" 25 None None
              ltac:(lia)) as (records & q & ns & rs & He & Hp & Hrun).
  exists (mkResult ns rs). split; [exact Hrun|].
  vm_compute in He. invert He. vm_compute in Hp. now invert Hp.
Defined.

End TraversalResultFacts.

(** ** Traversal: the tasks of an entity *)

Module TaskFacts.

Import Py Graph GraphTraversal.

Lemma distinct_nodes_spec (l : list node) : forall seen,
  List.NoDup (map n_id (distinct_nodes seen l))
  /\ forall n, In n (distinct_nodes seen l) ->
               In n l /\ ~ In (n_id n) seen.
Proof.
  induction l as [|x l IH]; intros seen; simpl.
  - split; [constructor|intros n []].
  - destruct (str_in (n_id x) seen) eqn:S.
    + destruct (IH seen) as [Hu Hin]. split; [exact Hu|].
      intros n Hn. destruct (Hin n Hn). auto.
    + destruct (IH (n_id x :: seen)) as [Hu Hin]. split.
      * simpl. constructor; [|exact Hu].
        intros Hx. apply in_map_iff in Hx as (n & Hid & Hn).
        destruct (Hin n Hn) as [_ Hnot]. apply Hnot. left. congruence.
      * intros n [<-|Hn].
        -- split; [now left|]. intros Hx.
           apply PyFacts.str_in_In in Hx. congruence.
        -- destruct (Hin n Hn) as [Hl Hnot]. split; [now right|].
           intros Hx. apply Hnot. now right.
Qed.

(** A row of either branch of the query. *)
Definition task_row g (status_filter : option (list string)) (n : node) : Prop :=
  In n (g_nodes g) /\ has_label "Task" n = true
  /\ status_ok status_filter n = true.

Lemma keep_row g status_filter id n :
  In n (match find_node g id with
        | Some task =>
            if has_label "Task" task && status_ok status_filter task
            then [task] else []
        | None => []
        end) ->
  task_row g status_filter n.
Proof.
  destruct (find_node g id) as [task|] eqn:F; [|intros []].
  destruct (has_label "Task" task && status_ok status_filter task) eqn:C;
    [|intros []].
  intros [<-|[]]. apply andb_true_iff in C as [? ?].
  split; [now apply TransferFacts.find_node_In in F|auto].
Qed.

Lemma append_assoc (a b c : string) :
  String.append (String.append a b) c = String.append a (String.append b c).
Proof.
  induction a as [|x a IH]; [reflexivity|].
  change (String x (String.append (String.append a b) c)
          = String x (String.append a (String.append b c))).
  now f_equal.
Qed.

(** The rows of [related_tasks], whatever the filter. *)
Lemma related_tasks_rows (g : graph) (entity_id : string)
    (status_filter : option (list string)) :
  List.NoDup (map n_id (related_tasks g entity_id status_filter))
  /\ (forall task, In task (related_tasks g entity_id status_filter) ->
        In task (g_nodes g) /\ has_label "Task" task = true
        /\ match status_filter with
           | Some (s :: ss) =>
               exists v, node_prop task "status" = Some (VStr v)
                         /\ In v (s :: ss)
           | _ => True
           end).
Proof.
  unfold related_tasks.
  match goal with
  | |- context [distinct_nodes [] ?l] =>
      destruct (distinct_nodes_spec l []) as [Hu Hin]; set (rows := l) in *
  end.
  split; [exact Hu|]. intros task Ht. destruct (Hin task Ht) as [Hrow _].
  assert (Hr : task_row g status_filter task).
  { subst rows. apply in_app_or in Hrow as [H|H];
      apply in_flat_map in H as (r & _ & H).
    - destruct (String.eqb (r_type r) "RELATED_TO"); [|destruct H].
      destruct (String.eqb (r_src r) entity_id);
        [now apply keep_row in H|].
      destruct (String.eqb (r_dst r) entity_id);
        [now apply keep_row in H|destruct H].
    - destruct (String.eqb (r_type r) "MENTIONED_IN"
                && String.eqb (r_dst r) entity_id); [|destruct H].
      destruct (find_node g (r_src r)) as [msg|]; [|destruct H].
      destruct (has_label "Message" msg); [|destruct H].
      apply in_flat_map in H as (r2 & _ & H).
      destruct (String.eqb (r_type r2) "EXTRACTED_FROM"
                && String.eqb (r_dst r2) (n_id msg)); [|destruct H].
      now apply keep_row in H. }
  destruct Hr as (Hg & Hl & Hs). split; [exact Hg|]. split; [exact Hl|].
  destruct status_filter as [[|s ss]|]; auto.
  unfold status_ok in Hs.
  destruct (node_prop task "status") as [[| | |v| | |]|]; try discriminate.
  exists v. split; [reflexivity|]. now apply PyFacts.str_in_In.
Qed.

(** X12. The statuses of [status_filter] are pasted between single
    quotes into the text of the query. When none of them holds a single
    quote or a backslash, [find_related_tasks] returns stored nodes
    labelled [Task], each of them once (the two branches are joined by
    [UNION]); with a non-empty [status_filter] every one of them has a
    [status] that is a string of the filter, and with [None] or an empty
    list the status is not looked at. When a status holds one of the two
    characters, what the call gives is what the server makes of the text
    with the clause [AND task.status IN ['s1', 's2']] as pasted. *)
Theorem find_related_tasks_rows
    (run_pasted : graph -> string -> string -> exc (list node))
    (g : graph) (entity_id : string) (status_filter : option (list string)) :
  (match status_filter with
   | Some l => forallb plain l = true
   | None => True
   end ->
   exists rows,
     find_related_tasks run_pasted g entity_id status_filter = ret rows
     /\ List.NoDup (map n_id rows)
     /\ forall task, In task rows ->
          In task (g_nodes g) /\ has_label "Task" task = true
          /\ match status_filter with
             | Some (s :: ss) =>
                 exists v, node_prop task "status" = Some (VStr v)
                           /\ In v (s :: ss)
             | _ => True
             end)
  /\ (forall l,
       status_filter = Some l -> forallb plain l = false ->
       find_related_tasks run_pasted g entity_id status_filter
       = run_pasted g
           (String.append "AND task.status IN ["
              (String.append
                 (String.concat ", "
                    (map (fun s => String.append "'" (String.append s "'"))
                       l))
                 "]"))
           entity_id).
Proof.
  split.
  - intros Hplain. exists (related_tasks g entity_id status_filter).
    split; [|apply related_tasks_rows].
    unfold find_related_tasks.
    destruct status_filter as [[|s ss]|]; try reflexivity.
    now rewrite Hplain.
  - intros l -> Hl. unfold find_related_tasks.
    destruct l as [|s ss]; [discriminate|]. rewrite Hl.
    unfold status_clause. do 3 f_equal.
    clear Hl. revert s. induction ss as [|s' ss IH]; intros s;
      [reflexivity|].
    change (status_list (s :: s' :: ss))
      with (String.append "'"
              (String.append s (String.append "', " (status_list (s' :: ss))))).
    rewrite IH.
    change (String.concat ", "
              (map (fun s => String.append "'" (String.append s "'"))
                 (s :: s' :: ss)))
      with (String.append (String.append "'" (String.append s "'"))
              (String.append ", "
                 (String.concat ", "
                    (map (fun s => String.append "'" (String.append s "'"))
                       (s' :: ss))))).
    rewrite !append_assoc. reflexivity.
Qed.

(** A board with a pending task and a finished task of one entity. *)
Definition board : graph :=
  mkGraph
    [ mkNode "e" ["Person"] [("name", VStr "Ann")];
      mkNode "t1" ["Task"] [("status", VStr "pending")];
      mkNode "t2" ["Task"] [("status", VStr "done")] ]
    [ mkRel "RELATED_TO" "t1" "e" []; mkRel "RELATED_TO" "e" "t2" [] ].

Lemma find_related_tasks_witness :
  forallb plain ["pending"; "in_progress"] = true
  /\ find_related_tasks (fun _ _ _ => raise StoreError) board "e"
       (Some ["pending"; "in_progress"])
     = ret [mkNode "t1" ["Task"] [("status", VStr "pending")]]
  /\ forallb plain ["it's"] = false
  /\ find_related_tasks (fun _ clause _ => raise StoreError) board "e"
       (Some ["it's"])
     = raise StoreError.
Proof.
  split; [reflexivity|].
  destruct (find_related_tasks_rows (fun _ _ _ => raise StoreError) board "e"
              (Some ["pending"; "in_progress"])) as [Hrows _].
  destruct (Hrows eq_refl) as (rows & Hrun & _).
  split; [rewrite Hrun; vm_compute in Hrun; congruence|].
  split; [reflexivity|].
  destruct (find_related_tasks_rows (fun _ _ _ => raise StoreError) board "e"
              (Some ["it's"])) as [_ Hpaste].
  now rewrite (Hpaste ["it's"] eq_refl eq_refl).
Defined.

End TaskFacts.

(** ** The caches: failure of [set], expiry in the distributed tier *)

Module CacheEdgeFacts.

Import Py.

Lemma lru_set_returns {V : Type} (c : LRUCache.t V) (now : Z) (key : string)
    (v : V) :
  LRUCache.cache c <> [] \/ 0 < LRUCache.max_size c ->
  exists c',
    LRUCache.set now key v c = (c', ret tt)
    /\ LRUCache.lookup (LRUCache.cache c') key = Some (v, now + LRUCache.ttl c)
    /\ LRUCache.max_size c' = LRUCache.max_size c.
Proof.
  intros H.
  assert (Hret : exists c', LRUCache.set now key v c = (c', ret tt)).
  { unfold LRUCache.set.
    destruct (LRUCache.lookup (LRUCache.cache c) key); [eauto|].
    destruct (Z.geb_spec (Z.of_nat (length (LRUCache.cache c)))
                (LRUCache.max_size c)) as [Hge|Hlt]; [|eauto].
    destruct (LRUCache.cache c) as [|p rest]; [|eauto].
    simpl in Hge. destruct H as [H|H]; [congruence|lia]. }
  destruct Hret as [c' Hset]. exists c'. split; [exact Hset|].
  now apply LRUCacheFacts.lookup_set in Hset as (? & _ & ?).
Qed.

(** X13. [LRUCache.set] fails in one case only: on a cache that holds
    nothing and has [max_size <= 0], where [popitem] finds no entry to
    evict; it raises [KeyError] and stores nothing. With a positive
    [max_size], or with any entry present, [set] returns and the key then
    holds the value. *)
Theorem lru_set_fails_only_when_empty {V : Type} (c : LRUCache.t V) (now : Z)
    (key : string) (v : V) :
  (LRUCache.cache c = [] /\ LRUCache.max_size c <= 0 ->
   LRUCache.set now key v c = (c, raise KeyError))
  /\ (LRUCache.cache c <> [] \/ 0 < LRUCache.max_size c ->
      exists c',
        LRUCache.set now key v c = (c', ret tt)
        /\ LRUCache.lookup (LRUCache.cache c') key
           = Some (v, now + LRUCache.ttl c)).
Proof.
  split.
  - intros [Hc Hm]. unfold LRUCache.set. rewrite Hc. simpl.
    destruct (Z.geb_spec (Z.of_nat 0) (LRUCache.max_size c)) as [Hge|Hlt];
      [reflexivity|simpl in Hlt; lia].
  - intros H. destruct (lru_set_returns c now key v H) as (c' & ? & ? & _).
    eauto.
Qed.

Lemma lru_set_fails_only_when_empty_witness :
  LRUCache.set 0 "k" 1 (LRUCache.init 0 60) = (LRUCache.init 0 60, raise KeyError)
  /\ exists c',
       LRUCache.set 0 "k" 1 (LRUCache.init 1 60) = (c', ret tt)
       /\ LRUCache.lookup (LRUCache.cache c') "k" = Some (1, 60).
Proof.
  split.
  - apply (lru_set_fails_only_when_empty (LRUCache.init 0 60) 0 "k" 1).
    split; [reflexivity|simpl; lia].
  - apply (lru_set_fails_only_when_empty (LRUCache.init 1 60) 0 "k" 1).
    right. simpl. lia.
Defined.

(** X14. [RedisCache.set] then [get] of the same key: with [ttl] absent
    or 0 the value is stored without a deadline and is read back at any
    later time ([if ttl:] treats 0 as no TTL); with a positive [ttl] it is
    read back before [now + ttl] and is gone from then on; and a [set]
    leaves the other keys as they are. *)
Theorem redis_set_then_get {V : Type} (c : RedisCache.t V) (now later : Z)
    (key : string) (v : V) :
  (forall ttl, ttl = None \/ ttl = Some 0 ->
     RedisCache.get later key (RedisCache.set now key v ttl c) = Some v)
  /\ (forall n, 0 < n ->
     RedisCache.get later key (RedisCache.set now key v (Some n) c)
     = if later <? now + n then Some v else None)
  /\ (forall ttl key', key' <> key ->
     RedisCache.get later key' (RedisCache.set now key v ttl c)
     = RedisCache.get later key' c).
Proof.
  split; [|split].
  - intros ttl [->| ->]; unfold RedisCache.get, RedisCache.set, RedisCache.t in *;
      simpl; now rewrite lookup_insert_eq.
  - intros n Hn. unfold RedisCache.get, RedisCache.set, RedisCache.t in *.
    destruct (Z.eqb_spec n 0); [lia|]. now rewrite lookup_insert_eq.
  - intros ttl key' Hne. now apply CacheFacts.redis_set_frame.
Qed.

Lemma redis_set_then_get_witness :
  RedisCache.get 1000000 "k" (RedisCache.set 0 "k" 7 (Some 0) ∅) = Some 7
  /\ RedisCache.get 599 "k" (RedisCache.set 0 "k" 7 (Some 600) ∅) = Some 7
  /\ RedisCache.get 600 "k" (RedisCache.set 0 "k" 7 (Some 600) ∅) = None.
Proof.
  destruct (redis_set_then_get (∅ : RedisCache.t Z) 0 1000000 "k" 7)
    as (Hnone & _).
  destruct (redis_set_then_get (∅ : RedisCache.t Z) 0 599 "k" 7)
    as (_ & Hlive & _).
  destruct (redis_set_then_get (∅ : RedisCache.t Z) 0 600 "k" 7)
    as (_ & Hdead & _).
  split; [apply Hnone; now right|].
  split; [exact (Hlive 600 ltac:(lia))|exact (Hdead 600 ltac:(lia))].
Defined.

End CacheEdgeFacts.
(** ** The cache layer: reads *)

Module ReadFacts.

Import Py RagEngine.

Section Reads.

Context {Obj Gdb Vec : Type}.
Context (gdb_get_node : Gdb -> string -> string -> exc (list Obj)).
Context (gdb_execute_query : Gdb -> query -> dict -> Gdb * exc unit).

Implicit Types (w : world Obj Gdb Vec).

Local Abbreviation read := (get_node_with_cache gdb_get_node gdb_execute_query).
Local Abbreviation touch := (CacheFacts.touch gdb_execute_query).

(** X15. [get_node_with_cache] serves the in-process cache or raises.
    [redis_cache] is not bound in the module, so the second look-up
    raises [NameError].
    (1) When the in-process cache holds the key, unexpired, the entry is
    moved to the back, the access-timestamp statement is run on the store
    and the cached object is returned (or the exception of that statement
    goes through). When it does not, the call raises [NameError] after the
    look-up (which drops an expired entry).
    (2) The store's [get_node] is not called: the outcome is the same with
    any other reader.
    (3) A read adds no key to the in-process cache. *)
Theorem get_node_with_cache_serves_node_cache_only (now : Z) w
    (node_id node_type : string) :
  read now node_id node_type w
  = match LRUCache.get now (cache_key node_type node_id) (node_cache w) with
    | (c, Some v) =>
        (with_graph_db (with_node_cache w c)
           (fst (touch node_id (graph_db w))),
         match snd (touch node_id (graph_db w)) with
         | inl e => inl e
         | inr _ => ret (Some v)
         end)
    | (c, None) => (with_node_cache w c, raise NameError)
    end
  /\ (forall get_node : Gdb -> string -> string -> exc (list Obj),
        get_node_with_cache get_node gdb_execute_query now node_id node_type w
        = read now node_id node_type w)
  /\ (forall k,
        In k (LRUCache.keys (node_cache (fst (read now node_id node_type w))))
        -> In k (LRUCache.keys (node_cache w))).
Proof.
  assert (H : forall get_node : Gdb -> string -> string -> exc (list Obj),
             get_node_with_cache get_node gdb_execute_query now node_id
               node_type w
             = match LRUCache.get now (cache_key node_type node_id)
                       (node_cache w) with
               | (c, Some v) =>
                   (with_graph_db (with_node_cache w c)
                      (fst (touch node_id (graph_db w))),
                    match snd (touch node_id (graph_db w)) with
                    | inl e => inl e
                    | inr _ => ret (Some v)
                    end)
               | (c, None) => (with_node_cache w c, raise NameError)
               end).
  { intros get_node.
    destruct (LRUCache.get now (cache_key node_type node_id) (node_cache w))
      as [c [v|]] eqn:G.
    - now apply CacheFacts.read_lru_hit.
    - now apply CacheFacts.read_lru_miss. }
  split; [apply H|]. split; [intros get_node; now rewrite !H|].
  intros k. rewrite H.
  pose proof (CacheFacts.lru_get_keys (node_cache w) now
                (cache_key node_type node_id) k) as Hk.
  destruct (LRUCache.get now (cache_key node_type node_id) (node_cache w))
    as [c [v|]]; exact Hk.
Qed.

End Reads.

(** *** The store in memory of the write example *)

Import Graph CacheFacts.

(** A store reader that finds nothing. *)
Definition finds_nothing (g : graph) (label id : string) : exc (list node) :=
  ret [].

Lemma get_node_with_cache_witness :
  snd (get_node_with_cache memory_get_node memory_execute_query 100 "p1"
         "Person" warm) = ret (Some ann)
  /\ snd (get_node_with_cache finds_nothing memory_execute_query 100 "p1"
            "Person" warm) = ret (Some ann)
  /\ get_node_with_cache memory_get_node memory_execute_query 3600 "p1"
       "Person" warm
     = (with_node_cache warm
          (LRUCache.mk [("Person:p2", (bob, 3600))] 10000 1800),
        raise NameError)
  /\ (In "Person:p1"
        (LRUCache.keys
           (node_cache
              (fst (get_node_with_cache memory_get_node memory_execute_query
                      100 "p1" "Person" warm))))
      -> In "Person:p1" (LRUCache.keys (node_cache warm))).
Proof.
  destruct (get_node_with_cache_serves_node_cache_only memory_get_node
              memory_execute_query 100 warm "p1" "Person")
    as (Hread & Hany & Hkeys).
  split; [now rewrite Hread|].
  split; [now rewrite Hany, Hread|].
  split; [|apply Hkeys].
  destruct (get_node_with_cache_serves_node_cache_only memory_get_node
              memory_execute_query 3600 warm "p1" "Person") as (Hlate & _).
  now rewrite Hlate.
Defined.

End ReadFacts.

(** ** The graph store adapter: what a call that runs has checked *)

Module AdapterFacts.

Import Py Neo4jWrapper.

Lemma assoc_In {A} (l : list (string * A)) k v :
  Schema.assoc l k = Some v -> In (k, v) l.
Proof.
  induction l as [|[k' v'] l IH]; simpl; [discriminate|].
  destruct (String.eqb_spec k' k) as [->|Hne].
  - intros H. invert H. now left.
  - intros H. right. auto.
Qed.

Definition declared (label : string) : bool :=
  str_in label (map fst Schema.NODE_TYPES).

(** The two tables agree: the ends of every relationship type are node
    types of [NODE_TYPES]. *)
Definition ends_declared (entry : string * Schema.rel_schema) : bool :=
  forallb declared (Schema.valid_sources (snd entry))
  && forallb declared (Schema.valid_targets (snd entry)).

Lemma relationship_types_closed :
  forallb ends_declared Schema.RELATIONSHIP_TYPES = true.
Proof. vm_compute. reflexivity. Qed.

Lemma forallb_str_in (l allowed : list string) :
  forallb (fun prop => str_in prop allowed) l = true ->
  forall prop, In prop l -> In prop allowed.
Proof.
  intros H prop Hin. rewrite forallb_forall in H.
  now apply PyFacts.str_in_In, H.
Qed.

Lemma check_relationship_passes from_label to_label rel_type props :
  check_relationship from_label to_label rel_type props = ret tt ->
  exists sch,
    Schema.assoc Schema.RELATIONSHIP_TYPES rel_type = Some sch
    /\ In from_label (Schema.valid_sources sch)
    /\ In to_label (Schema.valid_targets sch)
    /\ (forall prop, In prop (keys props) -> In prop (Schema.properties sch))
    /\ declared from_label = true /\ declared to_label = true.
Proof.
  unfold check_relationship.
  destruct (Schema.assoc Schema.RELATIONSHIP_TYPES rel_type) as [sch|] eqn:A;
    [|discriminate].
  destruct (str_in from_label (Schema.valid_sources sch)) eqn:Hs;
    [|discriminate].
  destruct (str_in to_label (Schema.valid_targets sch)) eqn:Ht;
    [|discriminate]. simpl.
  destruct (forallb _ (keys props)) eqn:Hp; [|discriminate]. intros _.
  apply PyFacts.str_in_In in Hs, Ht.
  pose proof relationship_types_closed as Hc. rewrite forallb_forall in Hc.
  specialize (Hc _ (assoc_In _ _ _ A)). unfold ends_declared in Hc. simpl in Hc.
  apply andb_true_iff in Hc as [Hcs Hct]. rewrite forallb_forall in Hcs, Hct.
  exists sch. split; [reflexivity|]. split; [assumption|].
  split; [assumption|]. split; [now apply forallb_str_in|]. auto.
Qed.

(** X18. A [create_relationship] or [merge_relationship] that returns has
    issued one statement, for a relationship type of the schema between a
    source and a target label that the type allows, both of them node
    types of [NODE_TYPES], with property names that the type declares,
    and with the [id] of each end taken from its match properties. *)
Theorem relationship_call_that_runs (st st' : store)
    (from_label to_label rel_type : string) (from_props to_props : dict)
    (rel_props : option dict) :
  create_relationship st from_label to_label rel_type from_props to_props
    rel_props = (st', ret tt)
  \/ merge_relationship st from_label to_label rel_type from_props to_props
       rel_props = (st', ret tt) ->
  (exists sch,
      Schema.assoc Schema.RELATIONSHIP_TYPES rel_type = Some sch
      /\ In from_label (Schema.valid_sources sch)
      /\ In to_label (Schema.valid_targets sch)
      /\ forall prop, In prop (keys (or_empty rel_props)) ->
                      In prop (Schema.properties sch))
  /\ In from_label (map fst Schema.NODE_TYPES)
  /\ In to_label (map fst Schema.NODE_TYPES)
  /\ exists a b call,
       dict_get from_props "id" = Some a /\ dict_get to_props "id" = Some b
       /\ st' = st ++ [call]
       /\ (call = RunCreateRelationship from_label to_label rel_type a b
                    (or_empty rel_props)
           \/ call = RunMergeRelationship from_label to_label rel_type a b
                       (or_empty rel_props)).
Proof.
  unfold create_relationship, merge_relationship, dict_item, run.
  destruct (check_relationship from_label to_label rel_type (or_empty rel_props))
    as [e|[]] eqn:C; [intros [H|H]; discriminate|].
  apply check_relationship_passes in C
    as (sch & HA & Hs & Ht & Hp & Hds & Hdt).
  apply PyFacts.str_in_In in Hds, Hdt.
  destruct (dict_get from_props "id") as [a|]; [|intros [H|H]; discriminate].
  destruct (dict_get to_props "id") as [b|]; [|intros [H|H]; discriminate].
  intros H. split; [exists sch; auto|]. split; [assumption|].
  split; [assumption|]. exists a, b.
  destruct H as [H|H]; invert H; eexists; eauto.
Qed.

Lemma relationship_call_that_runs_witness :
  exists call,
    create_relationship [] "User" "Person" "USER_KNOWS" [("id", VStr "u1")]
      [("id", VStr "p1")] (Some [("channels", VList [VStr "mail"])])
    = ([call], ret tt)
    /\ In "Person" (map fst Schema.NODE_TYPES).
Proof.
  eexists. split; [reflexivity|].
  destruct (relationship_call_that_runs [] _ "User" "Person" "USER_KNOWS"
              [("id", VStr "u1")] [("id", VStr "p1")]
              (Some [("channels", VList [VStr "mail"])])
              (or_introl eq_refl)) as (_ & _ & Hto & _).
  exact Hto.
Defined.

End AdapterFacts.

(** ** The URL normaliser *)

Module NormalizeUrlFacts.

Import Py Normalize.

(** [k] slashes. *)
Fixpoint slashes (k : nat) : string :=
  match k with
  | O => EmptyString
  | S k' => String "/" (slashes k')
  end.

Lemma substring_all (t : string) : substring 0 (String.length t) t = t.
Proof. induction t as [|c t IH]; simpl; [reflexivity|now rewrite IH]. Qed.

Lemma append_nil (t : string) : String.append EmptyString t = t.
Proof. reflexivity. Qed.

Lemma append_cons c (p t : string) :
  String.append (String c p) t = String c (String.append p t).
Proof. reflexivity. Qed.

Lemma prefix_cons a p b s :
  String.prefix (String a p) (String b s)
  = if ascii_dec a b then String.prefix p s else false.
Proof. reflexivity. Qed.

Lemma prefix_app (p t : string) : String.prefix p (String.append p t) = true.
Proof.
  induction p as [|c p IH]; [now destruct t|].
  rewrite append_cons, prefix_cons.
  destruct (ascii_dec c c); [exact IH|contradiction].
Qed.

Lemma strip_prefix_hit (p t : string) : strip_prefix p (String.append p t) = t.
Proof.
  unfold strip_prefix, startswith. rewrite prefix_app.
  induction p as [|c p IH]; simpl.
  - rewrite Nat.sub_0_r. apply substring_all.
  - exact IH.
Qed.

Lemma strip_prefix_miss (p s : string) :
  String.prefix p s = false -> strip_prefix p s = s.
Proof. unfold strip_prefix, startswith. now intros ->. Qed.

Lemma rstrip_slashes (k : nat) : rstrip_slash (slashes k) = EmptyString.
Proof. induction k as [|k IH]; simpl; [reflexivity|now rewrite IH]. Qed.

Lemma rstrip_app_slashes (h : string) (k : nat) :
  rstrip_slash (String.append h (slashes k)) = rstrip_slash h.
Proof.
  induction h as [|c h IH]; simpl; [apply rstrip_slashes|now rewrite IH].
Qed.

Lemma endswith_cons (c : ascii) (t : string) :
  endswith (String c t) "/"
  = match t with
    | EmptyString => Ascii.eqb c "/"
    | _ => endswith t "/"
    end.
Proof.
  unfold endswith. destruct t as [|d t]; simpl.
  - destruct (Ascii.eqb_spec c "/") as [->|Hne]; [reflexivity|].
    destruct (String.eqb_spec (String c "") "/") as [E|]; [|reflexivity].
    congruence.
  - now rewrite Nat.sub_0_r.
Qed.

(** The result of [rstrip] does not end with the slash. *)
Lemma rstrip_slash_end (s : string) : endswith (rstrip_slash s) "/" = false.
Proof.
  induction s as [|c s IH]; [reflexivity|]. simpl.
  destruct (rstrip_slash s) as [|d t] eqn:R.
  - destruct (Ascii.eqb_spec c "/") as [->|Hne]; [reflexivity|].
    rewrite endswith_cons. now apply Ascii.eqb_neq.
  - rewrite endswith_cons. exact IH.
Qed.

Definition no_colon (s : string) : bool :=
  all_chars (fun c => negb (Ascii.eqb c ":")) s.

(** A string of slashes starts with nothing that starts otherwise. *)
Lemma prefix_slashes c p k :
  c <> "/"%char -> String.prefix (String c p) (slashes k) = false.
Proof.
  intros Hne. destruct k as [|k]; [reflexivity|].
  cbn [slashes]. rewrite prefix_cons.
  destruct (ascii_dec c "/"); [contradiction|reflexivity].
Qed.

(** A host without a colon, followed by slashes, starts with no scheme. *)
Lemma no_scheme (h : string) (k : nat) :
  no_colon h = true ->
  String.prefix "https://" (String.append h (slashes k)) = false
  /\ String.prefix "http://" (String.append h (slashes k)) = false.
Proof.
  unfold no_colon. intros H.
  assert (Hc : forall p t, all_chars (fun c => negb (Ascii.eqb c ":")) t = true ->
               String.prefix (String ":" p) (String.append t (slashes k)) = false).
  { intros p [|c t] Ht; rewrite ?append_nil, ?append_cons;
      [apply prefix_slashes; discriminate|].
    cbn [all_chars] in Ht. apply andb_true_iff in Ht as [Hc _].
    rewrite prefix_cons.
    destruct (ascii_dec ":" c) as [<-|]; [discriminate|reflexivity]. }
  assert (Hstep : forall c p t,
             c <> "/"%char ->
             (forall t', all_chars (fun c => negb (Ascii.eqb c ":")) t' = true ->
                         String.prefix p (String.append t' (slashes k)) = false) ->
             all_chars (fun c => negb (Ascii.eqb c ":")) t = true ->
             String.prefix (String c p) (String.append t (slashes k)) = false).
  { intros c p [|d t] Hne IH Ht; rewrite ?append_nil, ?append_cons;
      [now apply prefix_slashes|].
    cbn [all_chars] in Ht. apply andb_true_iff in Ht as [_ Ht].
    rewrite prefix_cons. destruct (ascii_dec c d); [now apply IH|reflexivity]. }
  split.
  - do 5 (apply Hstep; [discriminate| |assumption]; intros ? ?).
    now apply Hc.
  - do 4 (apply Hstep; [discriminate| |assumption]; intros ? ?).
    now apply Hc.
Qed.

(** A prefix without a slash is not reached by the slashes after a host. *)
Lemma prefix_before_slashes (p : string) (k : nat) : forall h,
  all_chars (fun c => negb (Ascii.eqb c "/")) p = true ->
  String.prefix p (String.append h (slashes k)) = true ->
  String.prefix p h = true.
Proof.
  induction p as [|c p IH]; intros h Hp H; [now destruct h|].
  cbn [all_chars] in Hp. apply andb_true_iff in Hp as [Hc Hp].
  destruct h as [|d h].
  - rewrite append_nil, prefix_slashes in H; [discriminate|].
    intros ->. discriminate.
  - rewrite append_cons, prefix_cons in H. rewrite prefix_cons.
    destruct (ascii_dec c d); [now apply IH|discriminate].
Qed.

(** A host that does not start with [www.] does not either when slashes
    follow it. *)
Lemma no_www (h : string) (k : nat) :
  String.prefix "www." h = false ->
  String.prefix "www." (String.append h (slashes k)) = false.
Proof.
  intros H.
  destruct (String.prefix "www." (String.append h (slashes k))) eqn:E;
    [|reflexivity].
  apply prefix_before_slashes in E; [congruence|reflexivity].
Qed.

(** X19. [_normalize_url] gives one form to the spellings of an address:
    when the lower-cased URL is an optional [http://] or [https://], an
    optional [www.], a host (with its path) and any number of slashes,
    the result is the host, provided the host has no colon, does not
    itself start with [www.] and does not end with a slash. And no result
    of [_normalize_url] ends with a slash. *)
Theorem normalize_url_canonical :
  (forall url, endswith (_normalize_url url) "/" = false)
  /\ (forall url scheme www host k,
      In scheme [""; "http://"; "https://"] -> In www [""; "www."] ->
      lower url
      = String.append scheme
          (String.append www (String.append host (slashes k))) ->
      no_colon host = true -> startswith host "www." = false ->
      endswith host "/" = false ->
      _normalize_url url = host).
Proof.
  split; [intros url; apply rstrip_slash_end|].
  intros url scheme www host k Hs Hw Hl Hc Hp Ht.
  unfold _normalize_url. rewrite Hl. cbn [fold_left].
  destruct (no_scheme host k Hc) as [Hhttps Hhttp].
  pose proof (no_www host k Hp) as Hwww.
  assert (Hend : rstrip_slash (String.append host (slashes k)) = host).
  { rewrite rstrip_app_slashes. clear - Ht.
    induction host as [|c h IH]; [reflexivity|]. simpl.
    rewrite endswith_cons in Ht. destruct h as [|d h].
    - simpl. now rewrite Ht.
    - rewrite (IH Ht). reflexivity. }
  set (rest := String.append host (slashes k)) in *.
  destruct Hs as [<-|[<-|[<-|[]]]]; destruct Hw as [<-|[<-|[]]];
    rewrite ?append_nil.
  - rewrite (strip_prefix_miss "https://" rest) by assumption.
    rewrite (strip_prefix_miss "http://" rest) by assumption.
    rewrite (strip_prefix_miss "www." rest) by assumption. exact Hend.
  - rewrite (strip_prefix_miss "https://") by reflexivity.
    rewrite (strip_prefix_miss "http://") by reflexivity.
    now rewrite strip_prefix_hit.
  - rewrite (strip_prefix_miss "https://") by reflexivity.
    rewrite strip_prefix_hit.
    rewrite (strip_prefix_miss "www.") by assumption. exact Hend.
  - rewrite (strip_prefix_miss "https://") by reflexivity.
    rewrite strip_prefix_hit. now rewrite strip_prefix_hit.
  - rewrite strip_prefix_hit.
    rewrite (strip_prefix_miss "http://" rest) by assumption.
    rewrite (strip_prefix_miss "www." rest) by assumption. exact Hend.
  - rewrite strip_prefix_hit.
    rewrite (strip_prefix_miss "http://") by reflexivity.
    now rewrite strip_prefix_hit.
Qed.

Lemma normalize_url_canonical_witness :
  _normalize_url "HTTPS://WWW.Example.com/Team//" = "example.com/team"
  /\ _normalize_url "example.com/team" = "example.com/team".
Proof.
  destruct normalize_url_canonical as [_ H].
  split.
  - apply (H _ "https://" "www." "example.com/team" 2%nat);
      simpl; auto; reflexivity.
  - apply (H _ "" "" "example.com/team" 0%nat); simpl; auto; reflexivity.
Defined.

End NormalizeUrlFacts.

(** ** The name normaliser: what it strips *)

Module NormalizeNameFacts.

Import Py Text NormalizeName.

Lemma endswith_char (c x : ascii) (t : string) :
  endswith (String c t) (String x EmptyString)
  = match t with
    | EmptyString => Ascii.eqb c x
    | _ => endswith t (String x EmptyString)
    end.
Proof.
  unfold endswith. destruct t as [|d t].
  - change (String.eqb (String c "") (String x "") = Ascii.eqb c x).
    destruct (Ascii.eqb_spec c x) as [->|Hne]; [apply String.eqb_refl|].
    apply String.eqb_neq. congruence.
  - cbn [String.length Nat.leb Nat.sub substring]. now rewrite Nat.sub_0_r.
Qed.

(** What [rstrip] returns does not end with the character it strips. *)
Lemma rstrip_if_end (x : ascii) (s : string) :
  endswith (rstrip_if (fun c => Ascii.eqb c x) s) (String x EmptyString)
  = false.
Proof.
  induction s as [|c s IH]; [reflexivity|]. simpl.
  destruct (rstrip_if _ s) as [|d t] eqn:R.
  - destruct (Ascii.eqb_spec c x) as [->|Hne]; [reflexivity|].
    rewrite endswith_char. now apply Ascii.eqb_neq.
  - rewrite endswith_char. exact IH.
Qed.

Lemma rstrip_dot_differs (w p : string) :
  endswith p "." = true -> String.eqb (rstrip_dot w) p = false.
Proof.
  intros Hp. destruct (String.eqb_spec (rstrip_dot w) p) as [E|]; [|reflexivity].
  pose proof (rstrip_if_end "." w) as H. unfold rstrip_dot in E.
  rewrite E in H. congruence.
Qed.

(** The suffixes that can be met: the academic and professional ones. *)
Definition degrees : list string := ["phd"; "md"; "dds"; "esq"].

(** X20. [_normalize_name] never removes a title. The first word is
    compared, after [rstrip(".")], with [mr.], [mrs.], [ms.], [dr.] and
    [prof.], which all end with the dot that was just stripped, so none
    of them can be met; for the same reason [jr.] and [sr.] are never
    removed from the end. The result is the lower-cased words of the name
    joined by one space, without the last word when that word, dots
    aside, is [phd], [md], [dds] or [esq]. *)
Theorem normalize_name_keeps_titles :
  (forall w, str_in (rstrip_dot w) prefixes = false)
  /\ (forall w, str_in (rstrip_dot w) suffixes = str_in (rstrip_dot w) degrees)
  /\ (forall name,
      let parts := split (Normalize.lower name) in
      _normalize_name name
      = join " "
          (match last_part parts with
           | Some l =>
               if str_in (rstrip_dot l) degrees then removelast parts
               else parts
           | None => parts
           end)).
Proof.
  assert (Hp : forall w, str_in (rstrip_dot w) prefixes = false).
  { intros w. unfold str_in, prefixes. cbn [existsb].
    now rewrite !rstrip_dot_differs by reflexivity. }
  assert (Hs : forall w, str_in (rstrip_dot w) suffixes
                         = str_in (rstrip_dot w) degrees).
  { intros w. unfold str_in, suffixes, degrees. cbn [existsb].
    now rewrite !(rstrip_dot_differs w "jr."), !(rstrip_dot_differs w "sr.")
      by reflexivity. }
  split; [exact Hp|]. split; [exact Hs|].
  intros name. cbv zeta. unfold _normalize_name.
  destruct (split (Normalize.lower name)) as [|first rest]; [reflexivity|].
  rewrite Hp. destruct (last_part (first :: rest)) as [l|]; [|reflexivity].
  now rewrite Hs.
Qed.

Example normalize_name_examples :
  _normalize_name "Dr.  Jane   Doe,  PhD." = "dr. jane doe,"
  /\ _normalize_name "Mr. John Smith Jr." = "mr. john smith jr.".
Proof. split; reflexivity. Qed.

End NormalizeNameFacts.

(** ** The write queue: what it holds *)

Module WriteQueueFacts.

Import Py WriteQueue.

Section WithOp.

Context {Op : Type}.

Lemma fold_push_size (ops : list Op) : forall q,
  max_size (fold_left push ops q) = max_size q.
Proof.
  induction ops as [|op ops IH]; intros q; simpl; auto.
  rewrite IH. unfold push. simpl. now destruct (_ >=? _).
Qed.

Lemma mod_succ_small (n k : nat) :
  (n mod k + 1 < k)%nat -> ((n + 1) mod k = n mod k + 1)%nat.
Proof.
  intros H. symmetry.
  apply (Nat.mod_unique (n + 1) k (n / k) (n mod k + 1)); [exact H|].
  pose proof (Nat.div_mod_eq n k). lia.
Qed.

Lemma mod_succ_full (n k : nat) :
  (0 < k)%nat -> (n mod k + 1 = k)%nat -> ((n + 1) mod k = 0)%nat.
Proof.
  intros Hk H. symmetry.
  apply (Nat.mod_unique (n + 1) k (S (n / k)) 0); [exact Hk|].
  pose proof (Nat.div_mod_eq n k). lia.
Qed.

(** The queue after the operations [ops] were pushed on a new queue. *)
Lemma fold_push_queue (m : Z) (ops : list Op) :
  1 <= m ->
  queue (fold_left push ops (init m))
  = drop (length ops - length ops mod Z.to_nat m) ops.
Proof.
  intros Hm. set (k := Z.to_nat m). assert (Hk : (0 < k)%nat) by lia.
  induction ops as [|op ops IH] using rev_ind; [reflexivity|].
  rewrite fold_left_app. cbn [fold_left]. unfold push at 1.
  rewrite fold_push_size. cbn [queue max_size init]. rewrite IH.
  rewrite !length_app, length_drop. cbn [length].
  set (n := length ops) in *.
  pose proof (Nat.mod_upper_bound n k ltac:(lia)) as Hlt.
  pose proof (Nat.Div0.mod_le n k) as Hle.
  replace (n - (n - n mod k))%nat with (n mod k)%nat by lia.
  destruct (Z.geb_spec (Z.of_nat (n mod k + 1)%nat) m) as [Hge|Hless].
  - cbn [process_batch queue].
    rewrite (mod_succ_full n k) by lia.
    rewrite Nat.sub_0_r. symmetry. apply drop_ge. rewrite length_app. simpl. lia.
  - cbn [queue]. rewrite (mod_succ_small n k) by lia.
    replace (n + 1 - (n mod k + 1))%nat with (n - n mod k)%nat by lia.
    symmetry. apply drop_app_le. lia.
Qed.

(** X21. The write queue is a stub that loses what it is given: after
    the operations [ops] were pushed on a new queue with
    [max_size >= 1], the queue holds the last [len(ops) mod max_size] of
    them, fewer than [max_size]; each time the length reached
    [max_size], [process_batch] cleared the list and nothing was done
    with the operations. With [max_size <= 0] the queue is empty after
    every push. *)
Theorem write_queue_holds_the_tail (m : Z) (ops : list Op) :
  (1 <= m ->
   queue (fold_left push ops (init m))
   = drop (length ops - length ops mod Z.to_nat m) ops
   /\ Z.of_nat (length (queue (fold_left push ops (init m)))) < m)
  /\ (m <= 0 -> forall op,
      queue (push (fold_left push ops (init m)) op) = []).
Proof.
  split.
  - intros Hm. rewrite fold_push_queue by assumption. split; [reflexivity|].
    rewrite length_drop.
    pose proof (Nat.mod_upper_bound (length ops) (Z.to_nat m) ltac:(lia)).
    pose proof (Nat.Div0.mod_le (length ops) (Z.to_nat m)). lia.
  - intros Hm op.
    pose proof (fold_push_size ops (init m)) as Hsize.
    set (q := fold_left push ops (init m)) in *.
    unfold push. cbn [queue max_size]. rewrite Hsize. cbn [max_size init].
    destruct (Z.geb_spec (Z.of_nat (length (queue q ++ [op]))) m);
      [reflexivity|lia].
Qed.

End WithOp.

Lemma write_queue_holds_the_tail_witness :
  queue (fold_left push ["a"; "b"; "c"; "d"; "e"] (init 3)) = ["d"; "e"]
  /\ queue (push (fold_left push ["a"; "b"] (init 3)) "c") = [].
Proof.
  destruct (write_queue_holds_the_tail 3 ["a"; "b"; "c"; "d"; "e"])
    as [Htail _].
  destruct (Htail ltac:(lia)) as [Hq _].
  split; [exact Hq|reflexivity].
Defined.

End WriteQueueFacts.

(** ** Cypher queries through the cache layer *)

Module QueryCacheFacts.

Import Py RagEngine QueryCache.

Lemma calculate_ttl_values query :
  calculate_ttl query = 3600 \/ calculate_ttl query = 600.
Proof. unfold calculate_ttl. destruct (Text.contains _ _); auto. Qed.

Lemma cacheable_is_cypher query :
  is_cacheable_query query = true -> is_cypher query = true.
Proof.
  unfold is_cacheable_query, is_cypher, Text.startswith_any, cypher_keywords.
  intros H. cbn [existsb]. now rewrite H.
Qed.

Section Layer.

Context {Obj Gdb Vec : Type}.
Context (gdb_run_query : Gdb -> string -> value -> Gdb * exc Obj).
Context (pickle_hex : value -> exc string).
Context (py_str : value -> string).
Context (py_hash : string -> Z).

Implicit Types (w : world Obj Gdb Vec).

Local Abbreviation run :=
  (execute_query_with_cache gdb_run_query pickle_hex py_str py_hash).

(** X22. [execute_query_with_cache] runs no statement. A string that,
    stripped and lower-cased, starts with none of the Cypher keywords
    raises [ValueError]; for any other string the parameters are pickled
    (an exception of the pickling goes through) and the look-up in the
    distributed cache raises [NameError], the name [redis_cache] being
    unbound. In each case the state is as before, and the store's
    [run_query] is not called: the outcome is the same with any other
    store. *)
Theorem execute_query_with_cache_never_runs (query : string)
    (parameters : value) w :
  run query parameters w
  = (w, raise (if is_cypher query
               then match pickle_hex parameters with
                    | inl e => e
                    | inr _ => NameError
                    end
               else ValueError))
  /\ (forall run_query : Gdb -> string -> value -> Gdb * exc Obj,
        execute_query_with_cache run_query pickle_hex py_str py_hash query
          parameters w
        = run query parameters w).
Proof.
  assert (H : forall run_query : Gdb -> string -> value -> Gdb * exc Obj,
             execute_query_with_cache run_query pickle_hex py_str py_hash
               query parameters w
             = (w, raise (if is_cypher query
                          then match pickle_hex parameters with
                               | inl e => e
                               | inr _ => NameError
                               end
                          else ValueError))).
  { intros run_query. unfold execute_query_with_cache.
    destruct (is_cypher query); [|reflexivity]. simpl.
    unfold bindM at 1, liftM.
    now destruct (pickle_hex parameters) as [e|hex]. }
  split; [apply H|]. intros run_query. now rewrite !H.
Qed.

End Layer.

(** *** A store that counts the statements it runs *)

Definition counting_run (count : Z) (query : string) (parameters : value)
  : Z * exc Z :=
  (count + 1, ret (count + 1)).

Definition constant_hex (parameters : value) : exc string := ret "80".

Definition counted : world Z Z unit :=
  mkWorld (LRUCache.init 10000 1800) (LRUCache.init 5000 3600) 0 [].

Lemma execute_query_with_cache_witness :
  execute_query_with_cache counting_run constant_hex
    HybridSearchFacts.show HybridSearchFacts.length_hash
    "  SELECT * FROM nodes" VNone counted = (counted, raise ValueError)
  /\ execute_query_with_cache counting_run constant_hex
       HybridSearchFacts.show HybridSearchFacts.length_hash
       "MATCH (n) RETURN n LIMIT 5" VNone counted = (counted, raise NameError)
  /\ execute_query_with_cache counting_run constant_hex
       HybridSearchFacts.show HybridSearchFacts.length_hash
       "CREATE (n:Person)" VNone counted = (counted, raise NameError).
Proof.
  split; [|split];
    apply (execute_query_with_cache_never_runs counting_run constant_hex
             HybridSearchFacts.show HybridSearchFacts.length_hash).
Defined.

End QueryCacheFacts.

(** ** The embedding cache *)

Module EmbeddingFacts.

Import Py RagEngine.

Section Embeddings.

Context {Obj Gdb Vec : Type}.
Context (generate_embedding : string -> exc Vec).
Context (py_str : value -> string).
Context (py_hash : string -> Z).

Implicit Types (w : world Obj Gdb Vec).

Local Abbreviation embed :=
  (get_embedding_with_cache generate_embedding py_str py_hash).

(** A [get] that finds nothing to serve keeps the size and the TTL. *)
Lemma lru_get_miss_params (c c1 : LRUCache.t Vec) now key :
  LRUCache.get now key c = (c1, None) ->
  LRUCache.max_size c1 = LRUCache.max_size c
  /\ LRUCache.ttl c1 = LRUCache.ttl c.
Proof.
  unfold LRUCache.get.
  destruct (LRUCache.lookup (LRUCache.cache c) key) as [[v e]|].
  - destruct (e >? now); intros H; inversion H; subst; auto.
  - intros H; inversion H; subst; auto.
Qed.

(** X24. An embedding is computed once per text hash and TTL. The key
    of the embedding cache is [str(hash(text))] alone: after a call that
    had to compute the embedding of [text], and for the cache's TTL (an
    hour for the module's cache), a call for any text with the same hash,
    the text itself or another one, returns that embedding and asks the
    embedding service nothing, whatever the service would answer. The
    cache needs a positive [max_size]. *)
Theorem get_embedding_with_cache_once_per_hash (now : Z) w
    (text text' : string) (vec : Vec) :
  0 < LRUCache.max_size (embedding_cache w) ->
  snd (LRUCache.get now (py_str (VInt (py_hash text))) (embedding_cache w))
  = None ->
  generate_embedding text = ret vec ->
  py_hash text' = py_hash text ->
  exists w1,
    embed now text w = (w1, ret vec)
    /\ events w1 = events w ++ [EvGenerateEmbedding text]
    /\ forall (other_service : string -> exc Vec) (later : Z),
         now <= later < now + LRUCache.ttl (embedding_cache w) ->
         exists w2,
           get_embedding_with_cache other_service py_str py_hash later text' w1
           = (w2, ret vec)
           /\ events w2 = events w1.
Proof.
  intros Hsize Hmiss Hgen Hhash.
  set (key := py_str (VInt (py_hash text))) in *.
  destruct (LRUCache.get now key (embedding_cache w)) as [c o] eqn:G.
  simpl in Hmiss. subst o.
  destruct (lru_get_miss_params _ _ _ _ G) as [Hmax Httl].
  assert (Hpos : 0 < LRUCache.max_size c) by lia.
  destruct (CacheEdgeFacts.lru_set_returns c now key vec (or_intror Hpos))
    as (c1 & Hset & Hlook & _).
  rewrite (HybridSearchFacts.get_embedding_with_cache_miss generate_embedding
             py_str py_hash now text w c vec c1 G Hgen Hset).
  eexists. split; [reflexivity|]. split; [reflexivity|].
  intros other_service later Hlater.
  set (w1 := mkWorld _ c1 _ _).
  assert (Hhit : exists c2,
             LRUCache.get later (py_str (VInt (py_hash text')))
               (embedding_cache w1) = (c2, Some vec)).
  { rewrite Hhash. fold key. unfold w1. simpl. unfold LRUCache.get.
    rewrite Hlook.
    destruct (Z.gtb_spec (now + LRUCache.ttl c) later) as [_|Hle];
      [eauto|lia]. }
  destruct Hhit as [c2 Hhit].
  rewrite (HybridSearchFacts.get_embedding_with_cache_hit other_service
             py_str py_hash later text' w1 c2 vec Hhit).
  eexists. split; reflexivity.
Qed.

End Embeddings.

(** *** Two texts with one hash *)

Definition vector_of (text : string) : exc (list Z) :=
  ret [Z.of_nat (String.length text); 1].

Definition fails (text : string) : exc (list Z) := raise StoreError.

Definition no_embeddings : world unit unit (list Z) :=
  mkWorld (LRUCache.init 10000 1800) (LRUCache.init 5000 3600) tt [].

Lemma get_embedding_with_cache_once_per_hash_witness :
  exists w1,
    get_embedding_with_cache vector_of HybridSearchFacts.show
      HybridSearchFacts.length_hash 0 "alpha" no_embeddings = (w1, ret [5; 1])
    /\ events w1 = [EvGenerateEmbedding "alpha"]
    /\ exists w2,
         get_embedding_with_cache fails HybridSearchFacts.show
           HybridSearchFacts.length_hash 3599 "omega" w1 = (w2, ret [5; 1])
         /\ events w2 = events w1.
Proof.
  destruct (get_embedding_with_cache_once_per_hash vector_of
              HybridSearchFacts.show HybridSearchFacts.length_hash 0
              no_embeddings "alpha" "omega" [5; 1])
    as (w1 & Hrun & Hev & Hnext);
    [simpl; lia|reflexivity|reflexivity|reflexivity|].
  exists w1. split; [exact Hrun|]. split; [exact Hev|].
  apply Hnext. simpl. lia.
Defined.

End EmbeddingFacts.

(** ** Formatted retrieval *)

Module FormatFacts.

Import Py Graph RagEngine FormatResults.

(** No relationship type of the schema declares a property [source] or
    [target]. *)
Definition no_end_property (entry : string * Schema.rel_schema) : bool :=
  negb (str_in "source" (Schema.properties (snd entry)))
  && negb (str_in "target" (Schema.properties (snd entry))).

Lemma schema_has_no_end_property :
  forallb no_end_property Schema.RELATIONSHIP_TYPES = true.
Proof. vm_compute. reflexivity. Qed.

(** The relationship names neither end in its properties. *)
Definition endless (r : rel) : Prop :=
  dict_get (r_props r) "source" = None /\ dict_get (r_props r) "target" = None.

Lemma checked_is_endless from_label to_label (r : rel) :
  Neo4jWrapper.check_relationship from_label to_label (r_type r) (r_props r)
  = ret tt ->
  endless r.
Proof.
  intros H.
  apply AdapterFacts.check_relationship_passes in H
    as (sch & A & _ & _ & Hp & _).
  pose proof schema_has_no_end_property as Hs. rewrite forallb_forall in Hs.
  specialize (Hs _ (AdapterFacts.assoc_In _ _ _ A)).
  unfold no_end_property in Hs. simpl in Hs.
  apply andb_true_iff in Hs as [Hsrc Htgt].
  apply negb_true_iff in Hsrc, Htgt.
  split; apply MergeResultFacts.dict_get_absent; intros Hin;
    apply Hp, PyFacts.str_in_In in Hin; congruence.
Qed.

Lemma endless_unmentioned result_id (rels : list rel) :
  Forall endless rels -> List.filter (mentions result_id) rels = [].
Proof.
  induction 1 as [|r rels [Hs Ht] _ IH]; [reflexivity|].
  simpl. unfold mentions, end_is. now rewrite Hs, Ht.
Qed.

Lemma enrich_all_endless node_map (rels : list rel) :
  Forall endless rels ->
  forall vector_results acc,
    enrich_all node_map rels vector_results acc
    = ret (acc ++ map (fun r => mkEnriched r []) vector_results).
Proof.
  intros H. induction vector_results as [|r rest IH]; intros acc; simpl.
  - now rewrite app_nil_r.
  - unfold enrich. rewrite (endless_unmentioned _ _ H). simpl.
    rewrite IH, <- app_assoc. reflexivity.
Qed.

(** X25. Results over a graph written through the adapter have no
    connections. The adapter accepts only the property names that the
    schema declares for the relationship type, none of which is [source]
    or [target], and [_format_results] looks for the ends of a
    relationship in those two properties. So when every relationship of
    the context would pass the adapter's check, every result comes back
    with an empty list of connections, whatever the traversal found; the
    summary still counts the nodes and relationships. *)
Theorem format_results_without_connections (hybrid_results : hybrid_result) :
  Forall (fun r => exists from_label to_label,
            Neo4jWrapper.check_relationship from_label to_label (r_type r)
              (r_props r) = ret tt)
    (GraphTraversal.relationships (context hybrid_results)) ->
  _format_results hybrid_results
  = ret (mkFormatted
           (map (fun r => mkEnriched r []) (results hybrid_results))
           (length (GraphTraversal.nodes (context hybrid_results)))
           (length (GraphTraversal.relationships (context hybrid_results)))).
Proof.
  intros H. unfold _format_results.
  rewrite enrich_all_endless; [reflexivity|].
  eapply Forall_impl; [exact H|].
  intros r (from_label & to_label & Hc). eapply checked_is_endless; eauto.
Qed.

(** *** Relationships that name their ends *)

(** Both ends are named, by strings, or none is. *)
Definition two_ended (r : rel) : Prop :=
  endless r
  \/ exists s t, dict_get (r_props r) "source" = Some (VStr s)
                 /\ dict_get (r_props r) "target" = Some (VStr t).

(** The connection joins the result to a node of the context along a
    relationship of the context: the result is one end and the node the
    other. *)
Definition joins (h : hybrid_result) (result_id : string) (c : connection)
  : Prop :=
  In (conn_relationship c) (GraphTraversal.relationships (context h))
  /\ In (conn_node c) (GraphTraversal.nodes (context h))
  /\ exists s t,
       dict_get (r_props (conn_relationship c)) "source" = Some (VStr s)
       /\ dict_get (r_props (conn_relationship c)) "target" = Some (VStr t)
       /\ ((s = result_id /\ n_id (conn_node c) = t)
           \/ (t = result_id /\ n_id (conn_node c) = s)).

Definition keyed (nodes : list node) (m : list (string * node)) : Prop :=
  forall k n, node_map_get m k = Some n -> n_id n = k /\ In n nodes.

Lemma node_map_set_get m key n k :
  node_map_get (node_map_set m key n) k
  = if String.eqb key k then Some n else node_map_get m k.
Proof.
  induction m as [|[k0 v0] m IH]; simpl.
  - reflexivity.
  - destruct (String.eqb_spec k0 key) as [->|Hne]; simpl.
    + now destruct (String.eqb key k).
    + rewrite IH. destruct (String.eqb_spec k0 k) as [->|Hk]; [|reflexivity].
      destruct (String.eqb_spec key k); [congruence|reflexivity].
Qed.

Lemma node_map_of_keyed nodes : keyed nodes (node_map_of nodes).
Proof.
  unfold node_map_of.
  assert (G : forall l m, keyed nodes m -> incl l nodes ->
                keyed nodes (fold_left (fun m n => node_map_set m (n_id n) n) l m)).
  { induction l as [|x l IH]; intros m Hm Hl; simpl; [exact Hm|].
    apply IH.
    - intros k n. rewrite node_map_set_get.
      destruct (String.eqb_spec (n_id x) k) as [<-|Hne].
      + intros E. invert E. split; [reflexivity|]. apply Hl. now left.
      + apply Hm.
    - intros y Hy. apply Hl. now right. }
  apply G; [|apply incl_refl]. intros k n. discriminate.
Qed.

(** Neither end is a list or a map. *)
Definition hashable (v : value) : Prop :=
  match v with
  | VList _ | VDict _ => False
  | _ => True
  end.

Definition hashable_ends (r : rel) : Prop :=
  forall key v, key = "source" \/ key = "target" ->
    dict_get (r_props r) key = Some v -> hashable v.

Lemma two_ended_hashable (r : rel) : two_ended r -> hashable_ends r.
Proof.
  intros [[Hs Ht]|(s & t & Hs & Ht)] key v [-> | ->] Hv;
    rewrite ?Hs, ?Ht in Hv; try discriminate; now invert Hv.
Qed.

Lemma connect_hashable node_map conn v acc :
  hashable v ->
  connect node_map conn v acc = ret acc
  \/ exists s n, v = VStr s /\ node_map_get node_map s = Some n
                 /\ connect node_map conn v acc
                    = ret (acc ++ [mkConnection n conn]).
Proof.
  unfold connect. destruct v; simpl; try contradiction; auto.
  destruct (node_map_get node_map s) as [n|] eqn:G; [right|now left].
  exists s, n. auto.
Qed.

Section Sound.

Variable h : hybrid_result.
Variable result_id : string.

Let rels := GraphTraversal.relationships (context h).
Let nodes := GraphTraversal.nodes (context h).

(** One turn of [for conn in connections]: nothing is appended, or a
    connection that joins. *)
Lemma connect_sound node_map conn acc : keyed nodes node_map ->
  hashable_ends conn ->
  mentions result_id conn = true ->
  In conn rels ->
  connect node_map conn (other_end conn result_id) acc = ret acc
  \/ exists c, connect node_map conn (other_end conn result_id) acc
               = ret (acc ++ [c])
               /\ joins h result_id c.
Proof.
  intros Hk Hh Hmen Hrel.
  assert (Hother : hashable (other_end conn result_id)).
  { unfold other_end, item.
    destruct (dict_get (r_props conn) "source") as [sv|] eqn:Hs;
      destruct (dict_get (r_props conn) "target") as [tv|] eqn:Ht;
      repeat match goal with
             | |- context [if ?b then _ else _] => destruct b
             end;
      try exact I;
      solve [apply (Hh "source" _ (or_introl eq_refl) Hs)
            |apply (Hh "target" _ (or_intror eq_refl) Ht)]. }
  destruct (connect_hashable node_map conn _ acc Hother)
    as [Hsame|(o & n & Ho & G & Hc)]; [now left|].
  right. exists (mkConnection n conn). split; [exact Hc|].
  destruct (Hk _ _ G) as [Hid Hn].
  split; [exact Hrel|]. split; [exact Hn|]. simpl.
  unfold other_end, item in Ho. unfold mentions, end_is in Hmen.
  destruct (dict_get (r_props conn) "source") as [sv|] eqn:Hs.
  - destruct (value_eqb sv (VStr result_id)) eqn:E.
    + apply MatchFacts.value_eqb_str in E. subst sv.
      destruct (dict_get (r_props conn) "target") as [tv|] eqn:Ht;
        [|discriminate].
      subst tv. exists result_id, o. auto.
    + subst sv. simpl in Hmen.
      destruct (dict_get (r_props conn) "target") as [tv|] eqn:Ht;
        [|discriminate].
      apply MatchFacts.value_eqb_str in Hmen. subst tv.
      exists o, result_id. auto.
  - simpl in Ho. discriminate.
Qed.

Lemma connect_all_sound node_map : keyed nodes node_map ->
  forall conns acc,
    Forall hashable_ends conns ->
    Forall (fun r => mentions result_id r = true) conns ->
    incl conns rels ->
    Forall (joins h result_id) acc ->
    exists out,
      connect_all node_map result_id conns acc = ret out
      /\ Forall (joins h result_id) out.
Proof.
  intros Hk. induction conns as [|conn rest IH]; intros acc H2 Hm Hin Hacc.
  - simpl. eauto.
  - apply Forall_cons in H2 as [Hc H2]. apply Forall_cons in Hm as [Hmen Hm].
    assert (Hrel : In conn rels) by (apply Hin; now left).
    assert (Hrest : incl rest rels) by (intros y Hy; apply Hin; now right).
    simpl.
    destruct (connect_sound node_map conn acc Hk Hc Hmen Hrel)
      as [Hsame|(c & Hconn & Hj)].
    + rewrite Hsame. simpl. apply IH; auto.
    + rewrite Hconn. simpl. apply IH; auto.
      apply Forall_app. split; [assumption|]. now constructor.
Qed.

End Sound.

Lemma enrich_sound (h : hybrid_result) (result : hit) :
  Forall hashable_ends (GraphTraversal.relationships (context h)) ->
  exists e,
    enrich (node_map_of (GraphTraversal.nodes (context h)))
      (GraphTraversal.relationships (context h)) result = ret e
    /\ document e = result
    /\ Forall (joins h (hit_id result)) (connections e).
Proof.
  intros H2. unfold enrich.
  destruct (connect_all_sound h (hit_id result) _
              (node_map_of_keyed (GraphTraversal.nodes (context h)))
              (List.filter (mentions (hit_id result))
                 (GraphTraversal.relationships (context h))) [])
    as (out & Hout & Hj).
  - apply List.Forall_forall. intros r Hr. apply filter_In in Hr as [Hr _].
    rewrite List.Forall_forall in H2. auto.
  - apply List.Forall_forall. intros r Hr. now apply filter_In in Hr as [_ Hr].
  - intros r Hr. now apply filter_In in Hr as [Hr _].
  - constructor.
  - rewrite Hout. simpl. eauto.
Qed.

Definition enriched_for (h : hybrid_result) (e : enriched) : Prop :=
  Forall (joins h (hit_id (document e))) (connections e).

Lemma enrich_all_sound (h : hybrid_result) :
  Forall hashable_ends (GraphTraversal.relationships (context h)) ->
  forall vector_results acc,
    Forall (enriched_for h) acc ->
    exists out,
      enrich_all (node_map_of (GraphTraversal.nodes (context h)))
        (GraphTraversal.relationships (context h)) vector_results acc
      = ret out
      /\ map document out = map document acc ++ vector_results
      /\ Forall (enriched_for h) out.
Proof.
  intros H2. induction vector_results as [|r rest IH]; intros acc Hacc; simpl.
  - exists acc. now rewrite app_nil_r.
  - destruct (enrich_sound h r H2) as (e & He & Hd & Hj). rewrite He. simpl.
    destruct (IH (acc ++ [e])) as (out & Hout & Hdoc & Hall).
    + apply Forall_app. split; [assumption|]. constructor; [|constructor].
      unfold enriched_for. now rewrite Hd.
    + exists out. split; [exact Hout|]. split; [|exact Hall].
      rewrite Hdoc, map_app, <- app_assoc. simpl. now rewrite Hd.
Qed.

Lemma format_results_sound (hybrid_results : hybrid_result) :
  Forall hashable_ends
    (GraphTraversal.relationships (context hybrid_results)) ->
  exists f,
    _format_results hybrid_results = ret f
    /\ map document (enriched_results f) = results hybrid_results
    /\ total_nodes f
       = length (GraphTraversal.nodes (context hybrid_results))
    /\ total_relationships f
       = length (GraphTraversal.relationships (context hybrid_results))
    /\ forall e c, In e (enriched_results f) -> In c (connections e) ->
         joins hybrid_results (hit_id (document e)) c.
Proof.
  intros H2. unfold _format_results.
  destruct (enrich_all_sound hybrid_results H2 (results hybrid_results) [])
    as (out & Hout & Hdoc & Hall); [constructor|].
  rewrite Hout. simpl. eexists. split; [reflexivity|]. simpl.
  split; [exact Hdoc|]. split; [reflexivity|]. split; [reflexivity|].
  intros e c He Hc. rewrite List.Forall_forall in Hall.
  specialize (Hall e He). unfold enriched_for in Hall.
  rewrite List.Forall_forall in Hall. auto.
Qed.

(** X26. What [_format_results] returns over relationships that name
    their ends. When each relationship of the context carries both a
    [source] and a [target] property, strings, or neither, the call
    returns: one entry per vector result, in the results' order, with the
    result as its document; the summary counts the nodes and the
    relationships of the context; and every connection of an entry joins
    the result to a node of the context along a relationship of the
    context that has the result's id at one end and the node's id at the
    other. *)
Theorem format_results_connections (hybrid_results : hybrid_result) :
  Forall two_ended (GraphTraversal.relationships (context hybrid_results)) ->
  exists f,
    _format_results hybrid_results = ret f
    /\ map document (enriched_results f) = results hybrid_results
    /\ total_nodes f
       = length (GraphTraversal.nodes (context hybrid_results))
    /\ total_relationships f
       = length (GraphTraversal.relationships (context hybrid_results))
    /\ forall e c, In e (enriched_results f) -> In c (connections e) ->
         joins hybrid_results (hit_id (document e)) c.
Proof.
  intros H2. apply format_results_sound.
  eapply Forall_impl; [exact H2|]. exact two_ended_hashable.
Qed.

(** *** Relationships that lack an end *)

Lemma connect_error node_map conn v acc e :
  connect node_map conn v acc = raise e -> e = TypeError.
Proof.
  unfold connect. destruct v; try discriminate;
    try (intros H; now invert H).
  now destruct (node_map_get node_map s).
Qed.

Lemma connect_all_error node_map result_id : forall conns acc e,
  connect_all node_map result_id conns acc = raise e -> e = TypeError.
Proof.
  induction conns as [|conn rest IH]; intros acc e H; [discriminate|].
  simpl in H.
  destruct (connect node_map conn (other_end conn result_id) acc)
    as [x|acc'] eqn:C; simpl in H.
  - invert H. eapply connect_error; eauto.
  - eapply IH; eauto.
Qed.

Lemma enrich_all_error node_map rels : forall vector_results acc e,
  enrich_all node_map rels vector_results acc = raise e -> e = TypeError.
Proof.
  induction vector_results as [|r rest IH]; intros acc e H; [discriminate|].
  simpl in H. unfold enrich in H.
  destruct (connect_all _ _ _ _) as [x|conns] eqn:C; simpl in H.
  - invert H. eapply connect_all_error; eauto.
  - eapply IH; eauto.
Qed.

(** X27. A relationship that lacks an end makes no connection and no
    exception. [conn["source"]] on a relationship of the driver gives
    [None] for a property that is not there, so:
    (1) when no [source] or [target] of the context's relationships is a
    list or a map, [_format_results] returns, with one entry per vector
    result in the results' order and the summary's two counts, and every
    connection joins the result to a node of the context along a
    relationship that has both ends, one of them the result's id and the
    other the node's id; a relationship with one end only is in no
    connection;
    (2) the only exception of [_format_results] is the [TypeError] of
    looking up an unhashable end in the node map. *)
Theorem format_results_missing_end (hybrid_results : hybrid_result) :
  (Forall hashable_ends
     (GraphTraversal.relationships (context hybrid_results)) ->
   exists f,
     _format_results hybrid_results = ret f
     /\ map document (enriched_results f) = results hybrid_results
     /\ total_nodes f
        = length (GraphTraversal.nodes (context hybrid_results))
     /\ total_relationships f
        = length (GraphTraversal.relationships (context hybrid_results))
     /\ forall e c, In e (enriched_results f) -> In c (connections e) ->
          joins hybrid_results (hit_id (document e)) c
          /\ (exists s, dict_get (r_props (conn_relationship c)) "source"
                        = Some (VStr s))
          /\ (exists t, dict_get (r_props (conn_relationship c)) "target"
                        = Some (VStr t)))
  /\ (forall e, _format_results hybrid_results = raise e -> e = TypeError).
Proof.
  split.
  - intros H2.
    destruct (format_results_sound hybrid_results H2)
      as (f & Hf & Hdoc & Hn & Hr & Hj).
    exists f. repeat (split; [assumption|]).
    intros e c He Hc. specialize (Hj e c He Hc). split; [exact Hj|].
    destruct Hj as (_ & _ & s & t & Hs & Ht & _). eauto.
  - intros e. unfold _format_results.
    destruct (enrich_all _ _ _ _) as [x|out] eqn:E; [|discriminate].
    simpl. intros H. invert H. eapply enrich_all_error; eauto.
Qed.

(** *** A small context *)

Definition doc_a : hit := mkHit "a" (7 # 10) [].

Definition node_a : node := mkNode "a" ["Person"] [("name", VStr "Ann")].
Definition node_b : node := mkNode "b" ["Organization"] [("name", VStr "Acme")].

Definition affiliated : rel :=
  mkRel "AFFILIATED_WITH" "a" "b" [("inferred_role", VStr "engineer")].

Definition named_ends : rel :=
  mkRel "AFFILIATED_WITH" "a" "b"
    [("source", VStr "a"); ("target", VStr "b")].

Definition only_target : rel :=
  mkRel "AFFILIATED_WITH" "b" "a" [("target", VStr "a")].

Definition found (rels : list rel) : hybrid_result :=
  mkHybrid [doc_a] (GraphTraversal.mkResult [node_a; node_b] rels) [].

Lemma format_results_without_connections_witness :
  _format_results (found [affiliated])
  = ret (mkFormatted [mkEnriched doc_a []] 2 1).
Proof.
  apply (format_results_without_connections (found [affiliated])).
  constructor; [|constructor].
  exists "Person", "Organization". vm_compute. reflexivity.
Defined.

Lemma format_results_connections_witness :
  exists f,
    _format_results (found [named_ends]) = ret f
    /\ map document (enriched_results f) = [doc_a]
    /\ total_nodes f = 2%nat
    /\ total_relationships f = 1%nat
    /\ forall e c, In e (enriched_results f) -> In c (connections e) ->
         joins (found [named_ends]) (hit_id (document e)) c.
Proof.
  apply (format_results_connections (found [named_ends])).
  constructor; [|constructor]. right. exists "a", "b". split; reflexivity.
Defined.

Lemma hashable_strings (d : dict) :
  forallb (fun kv => match snd kv with VStr _ => true | _ => false end) d
  = true ->
  forall key v, dict_get d key = Some v -> hashable v.
Proof.
  intros H key v Hg. apply MergeResultFacts.dict_get_present in Hg.
  rewrite forallb_forall in H. specialize (H _ Hg). simpl in H.
  now destruct v.
Qed.

Lemma format_results_missing_end_witness :
  _format_results (found [named_ends; only_target])
  = ret (mkFormatted [mkEnriched doc_a [mkConnection node_b named_ends]] 2 2)
  /\ exists f,
       _format_results (found [named_ends; only_target]) = ret f
       /\ forall e c, In e (enriched_results f) -> In c (connections e) ->
            conn_relationship c <> only_target.
Proof.
  split; [reflexivity|].
  destruct (format_results_missing_end (found [named_ends; only_target]))
    as [Hreturns _].
  destruct Hreturns as (f & Hf & _ & _ & _ & Hj).
  - repeat constructor; intros key v _; now apply hashable_strings.
  - exists f. split; [exact Hf|]. intros e c He Hc Heq.
    destruct (Hj e c He Hc) as (_ & (s & Hs) & _).
    rewrite Heq in Hs. discriminate.
Defined.

End FormatFacts.

(** ** Batch resolution *)

Module BatchFacts.

Import Py Graph BatchResolution.

Lemma key_eqb_eq (a b : string * string) : key_eqb a b = true <-> a = b.
Proof.
  destruct a as [a1 a2], b as [b1 b2]. unfold key_eqb. simpl.
  rewrite andb_true_iff, !String.eqb_eq. split.
  - intros [-> ->]. reflexivity.
  - intros E. invert E. auto.
Qed.

Lemma key_in_In key l : key_in key l = true <-> In key l.
Proof.
  unfold key_in. rewrite existsb_exists. split.
  - intros (x & Hx & E). apply key_eqb_eq in E. now subst.
  - intros H. exists key. split; [assumption|]. now apply key_eqb_eq.
Qed.



Section Scores.

Context {F : Type}.
Context (f_zero : F) (f_div : nat -> nat -> F) (f_percent : Z -> F).
Context (f_mul f_add : F -> F -> F) (f_ge : F -> F -> bool).
Context (w_name w_relationships w_properties : F).
Context (token_sort_ratio : value -> value -> exc Z).

Local Abbreviation similarity :=
  (_calculate_entity_similarity f_zero f_div f_percent f_mul f_add w_name
     w_relationships w_properties token_sort_ratio).
Local Abbreviation pair_one :=
  (pair_with f_zero f_div f_percent f_mul f_add f_ge w_name w_relationships
     w_properties token_sort_ratio).
Local Abbreviation pair_every :=
  (pair_all f_zero f_div f_percent f_mul f_add f_ge w_name w_relationships
     w_properties token_sort_ratio).
Local Abbreviation batch :=
  (batch_resolve_entities f_zero f_div f_percent f_mul f_add f_ge w_name
     w_relationships w_properties token_sort_ratio).

Definition key_of (c : candidate F) : string * string :=
  pair_key (source_id c) (target_id c).

(** The candidate was scored on two of the entities, the source before
    the target, and reached the threshold. *)
Definition scored (g : graph) (entity_type : string) (match_threshold : F)
    (entities : list node) (c : candidate F) : Prop :=
  cand_entity_type c = entity_type
  /\ f_ge (match_score c) match_threshold = true
  /\ exists (i j : nat) e1 e2,
       (i < j)%nat
       /\ entities !! i = Some e1 /\ entities !! j = Some e2
       /\ n_id e1 = source_id c /\ n_id e2 = target_id c
       /\ similarity g e1 e2 = ret (match_score c).

Definition invariant (g : graph) (entity_type : string) (match_threshold : F)
    (entities : list node) (st : state F) : Prop :=
  NoDup (processed_pairs st)
  /\ sublist (map key_of (merge_candidates st)) (processed_pairs st)
  /\ Forall (scored g entity_type match_threshold entities)
       (merge_candidates st).

Lemma pair_with_invariant g entity_type match_threshold entities i e1 :
  entities !! i = Some e1 ->
  forall later (k : nat) st st',
    (forall n e2, later !! n = Some e2 ->
                  entities !! (i + 1 + k + n)%nat = Some e2) ->
    invariant g entity_type match_threshold entities st ->
    pair_one g entity_type match_threshold e1 later st = ret st' ->
    invariant g entity_type match_threshold entities st'.
Proof.
  intros He1. induction later as [|e2 rest IH]; intros k st st' Hidx Hinv H.
  - simpl in H. now invert H.
  - simpl in H.
    assert (Hrest : forall n e, rest !! n = Some e ->
                      entities !! (i + 1 + S k + n)%nat = Some e).
    { intros n e Hn. specialize (Hidx (S n) e Hn).
      now replace (i + 1 + S k + n)%nat with (i + 1 + k + S n)%nat by lia. }
    destruct (key_in _ (processed_pairs st)) eqn:K.
    + eapply (IH (S k)); eauto.
    + destruct (similarity g e1 e2) as [x|score] eqn:Hsim; [discriminate|].
      simpl in H. eapply (IH (S k)); [exact Hrest| |exact H].
      destruct Hinv as (Hnd & Hsub & Hall).
      assert (Hnew : ~ In (pair_key (n_id e1) (n_id e2)) (processed_pairs st)).
      { intros Hin. apply key_in_In in Hin. congruence. }
      split; [|split]; simpl.
      * apply NoDup_app. split; [assumption|]. split.
        -- intros x Hx Hx'. apply list_elem_of_singleton in Hx'. subst.
           apply Hnew. now apply list_elem_of_In.
        -- apply NoDup_singleton.
      * destruct (f_ge score match_threshold).
        -- rewrite map_app. simpl. apply sublist_app; [assumption|].
           reflexivity.
        -- apply sublist_inserts_r. assumption.
      * destruct (f_ge score match_threshold) eqn:G; [|assumption].
        apply Forall_app. split; [assumption|].
        constructor; [|constructor].
        split; [reflexivity|]. split; [exact G|].
        exists i, (i + 1 + k + 0)%nat, e1, e2. simpl.
        split; [lia|]. split; [assumption|].
        split; [apply Hidx; reflexivity|]. auto.
Qed.

Lemma pair_all_invariant g entity_type match_threshold entities :
  forall later (i : nat) st st',
    (forall n e, later !! n = Some e -> entities !! (i + n)%nat = Some e) ->
    invariant g entity_type match_threshold entities st ->
    pair_every g entity_type match_threshold later st = ret st' ->
    invariant g entity_type match_threshold entities st'.
Proof.
  induction later as [|e1 rest IH]; intros i st st' Hidx Hinv H.
  - simpl in H. now invert H.
  - simpl in H.
    destruct (pair_one g entity_type match_threshold e1 rest st)
      as [x|st1] eqn:P; [discriminate|]. simpl in H.
    apply (IH (S i) st1 st').
    + intros n e Hn. specialize (Hidx (S n) e Hn).
      now replace (S i + n)%nat with (i + S n)%nat by lia.
    + eapply (pair_with_invariant g entity_type match_threshold entities i e1)
        with (k := 0%nat); [| |exact Hinv|exact P].
      * specialize (Hidx 0%nat e1 eq_refl).
        now replace (i + 0)%nat with i in Hidx by lia.
      * intros n e Hn. specialize (Hidx (S n) e Hn).
        now replace (i + 1 + 0 + n)%nat with (i + S n)%nat by lia.
    + exact H.
Qed.

Definition proposed (g : graph) (entity_type : string) (match_threshold : F)
    (c : candidate F) : Prop :=
  cand_entity_type c = entity_type
  /\ f_ge (match_score c) match_threshold = true
  /\ exists e1 e2,
       In e1 (g_nodes g) /\ In e2 (g_nodes g)
       /\ has_label entity_type e1 = true /\ has_label entity_type e2 = true
       /\ unmerged e1 = true /\ unmerged e2 = true
       /\ n_id e1 = source_id c /\ n_id e2 = target_id c
       /\ similarity g e1 e2 = ret (match_score c).

Lemma batch_resolve_entities_spec (g : graph) (entity_type : string)
    (match_threshold : F) (limit : Z) (candidates : list (candidate F)) :
  batch g entity_type match_threshold limit = ret candidates ->
  Forall (proposed g entity_type match_threshold) candidates
  /\ NoDup (map key_of candidates).
Proof.
  unfold batch_resolve_entities, query_unmerged. intros H.
  destruct (limit <? 0); [discriminate|]. simpl in H.
  set (entities := take (Z.to_nat limit) _) in H.
  destruct (pair_every g entity_type match_threshold entities (mkState [] []))
    as [x|st] eqn:P; [discriminate|]. simpl in H. invert H.
  assert (Hinv : invariant g entity_type match_threshold entities st).
  { apply (pair_all_invariant g entity_type match_threshold entities entities
             0%nat (mkState [] []) st); [auto| |exact P].
    split; [apply NoDup_nil_2|]. split; [simpl; reflexivity|constructor]. }
  destruct Hinv as (Hnd & Hsub & Hall).
  split.
  - eapply Forall_impl; [exact Hall|].
    intros c (Ht & Hge & i & j & e1 & e2 & _ & Hi & Hj & H1 & H2 & Hs).
    assert (Hq : forall n e, entities !! n = Some e ->
                   In e (g_nodes g) /\ has_label entity_type e = true
                   /\ unmerged e = true).
    { intros n e Hn. apply list_elem_of_lookup_2 in Hn.
      unfold entities in Hn. apply elem_of_take in Hn as (m & Hm & _).
      apply list_elem_of_lookup_2, list_elem_of_In, filter_In in Hm
        as [Hin Hb].
      apply andb_true_iff in Hb. tauto. }
    destruct (Hq _ _ Hi) as (? & ? & ?), (Hq _ _ Hj) as (? & ? & ?).
    split; [assumption|]. split; [assumption|].
    exists e1, e2. tauto.
  - eapply sublist_NoDup; eauto.
Qed.


Section AfterMerge.

Context {Vec : Type} (get_embedding : value -> exc Vec)
        {Vdb : Type}
        (vdb_upsert : Vdb -> string -> string -> Vec -> dict -> Vdb * exc unit)
        (fromisoformat : string -> option Z).

(** X30. A merged source is not proposed again. After a
    [merge_entities] that returned, no candidate of a batch over the same
    entity type has the merged source on either side: the merge marked
    every node of the type with the source's id, and the batch query
    leaves the marked nodes out. *)
Theorem batch_skips_merged_source (g : graph) (vdb : Vdb)
    (merged_at source target entity_type : string)
    (merge_strategy : EntityResolution.strategy) (g' : graph) (vdb' : Vdb)
    (e : node) (match_threshold : F) (limit : Z)
    (candidates : list (candidate F)) :
  EntityResolution.merge_entities Vec get_embedding Vdb vdb_upsert
    fromisoformat g vdb merged_at source target entity_type merge_strategy
  = (g', vdb', ret e) ->
  batch g' entity_type match_threshold limit = ret candidates ->
  Forall (fun c => source_id c <> source /\ target_id c <> source) candidates.
Proof.
  intros Hm Hb.
  apply MergeFacts.merge_entities_marks_source in Hm as [_ Hmark].
  apply batch_resolve_entities_spec in Hb as [Hall _].
  eapply Forall_impl; [exact Hall|].
  intros c (_ & _ & e1 & e2 & In1 & In2 & L1 & L2 & U1 & U2 & I1 & I2 & _).
  assert (Hun : forall a, In a (g_nodes g') -> has_label entity_type a = true ->
                  unmerged a = true -> n_id a <> source).
  { intros a Hin Hl Hu Hid.
    assert (Hin' : In a (match_by_id g' entity_type (VStr source))).
    { unfold match_by_id. apply filter_In. split; [assumption|].
      rewrite Hl, TransferFacts.prop_is_id, Hid. simpl.
      apply String.eqb_refl. }
    destruct (Hmark a Hin') as [Hmerged _].
    unfold unmerged, node_prop, node_items in Hu. simpl in Hu.
    rewrite Hmerged in Hu. discriminate. }
  split.
  - rewrite <- I1. now apply Hun.
  - rewrite <- I2. now apply Hun.
Qed.

End AfterMerge.

End Scores.

(** *** Three people, exact scores *)

Definition same_text (text1 text2 : value) : exc Z :=
  ret (if value_eqb text1 text2 then 100 else 0).

Definition q_div (a b : nat) : Q := Z.of_nat a # Pos.of_nat b.

Definition q_percent (ratio : Z) : Q := ratio # 100.

Definition q_ge (a b : Q) : bool := Qle_bool b a.

Definition exact_batch (g : graph) (entity_type : string)
    (match_threshold : Q) (limit : Z) : exc (list (candidate Q)) :=
  batch_resolve_entities 0%Q q_div q_percent Qmult Qplus q_ge (6 # 10)
    (3 # 10) (1 # 10) same_text g entity_type match_threshold limit.

Definition people : graph :=
  mkGraph
    [ mkNode "A" ["Person"] [("name", VStr "Ann Lee")];
      mkNode "B" ["Person"] [("name", VStr "Ann Lee")];
      mkNode "C" ["Person"] [("name", VStr "Ann Lee")] ]
    [].


Lemma batch_skips_merged_source_witness :
  exists g' vdb' e candidates,
    EntityResolution.merge_entities unit ResolveFacts.unit_embedding
      (list EntityResolution.vhit) ResolveFacts.list_upsert
      ResolveFacts.no_dates people [] "2026-01-01T00:00:00" "A" "B" "Person"
      EntityResolution.newer_wins = (g', vdb', ret e)
    /\ exact_batch g' "Person" (1 # 2) 1000 = ret candidates
    /\ map (fun c => (source_id c, target_id c)) candidates = [("B", "C")]
    /\ Forall (fun c => source_id c <> "A" /\ target_id c <> "A") candidates.
Proof.
  eexists. eexists. eexists. eexists.
  split; [vm_compute; reflexivity|].
  split; [vm_compute; reflexivity|].
  split; [reflexivity|].
  eapply (batch_skips_merged_source 0%Q q_div q_percent Qmult Qplus q_ge
            (6 # 10) (3 # 10) (1 # 10) same_text ResolveFacts.unit_embedding
            ResolveFacts.list_upsert ResolveFacts.no_dates people []
            "2026-01-01T00:00:00" "A" "B" "Person"
            EntityResolution.newer_wins _ _ _ (1 # 2) 1000).
  - vm_compute. reflexivity.
  - vm_compute. reflexivity.
Defined.

End BatchFacts.
